(** * wt: hook orchestration and the create / merge / remove workflows

    A shallow embedding of the orchestration core of the [wt] worktree
    manager: the hook runner (src/plugins/runner.ts), the configuration loader
    (src/plugins/loader.ts), and the three commands create, merge and remove
    (src/commands/*.ts), together with the properties the specification
    states about them.

    Conventions.
    - The process environment (file system, repository, terminal output) is
      an abstract type [World].  The functions of src/core/git.ts and
      src/core/files.ts and the Node built-ins the commands call are the
      fields of the class [Platform]; every call is recorded as an event.
    - A command is a function [World -> Outcome * World * list Event]: it ends
      by returning, by throwing, or by awaiting input that never arrives.
    - A hook function is a total state transformer that either returns or
      throws (a hook that never settles is outside the model); what it does
      to the world is its own business and is not recorded, only the fact
      that the runner invoked it.  The trace therefore lists what the
      workflow itself does.
    - Two of the collaborators are also embedded as they are written, in
      modules of their own: the reading of the worktree listing
      (src/core/git.ts, module [Git]) and the walk that looks for the
      configuration file (src/core/files.ts, module [Files]); and so are the
      commands search, list and status (modules [Search] and [Report]). *)

From Stdlib Require Import String Ascii List ZArith Bool Arith DecimalString.
From Stdlib Require Import Lia.
Import ListNotations.
Open Scope string_scope.

Set Implicit Arguments.

(* ------------------------------------------------------------------ *)
(** * Strings, the way JavaScript treats them *)

Module Js.

Definition dquote : string := String "034"%char EmptyString.
Definition newline : string := String "010"%char EmptyString.
Definition esc : string := String "027"%char EmptyString.

(** A string used as a condition: [if (s)] holds for non-empty strings. *)
Definition truthy (s : string) : bool :=
  match s with EmptyString => false | String _ _ => true end.

(** [String(n)] for an integral number. *)
Definition showZ (z : Z) : string := NilZero.string_of_int (Z.to_int z).

Fixpoint drop (n : nat) (s : string) : string :=
  match n, s with
  | O, _ => s
  | S _, EmptyString => EmptyString
  | S k, String _ r => drop k r
  end.

(** [s.split(sep)] for a one-character separator. *)
Fixpoint splitOn (sep : ascii) (s : string) : list string :=
  match s with
  | EmptyString => [EmptyString]
  | String c r =>
      if Ascii.eqb c sep then EmptyString :: splitOn sep r
      else match splitOn sep r with
           | [] => [String c EmptyString]
           | h :: t => String c h :: t
           end
  end.

Definition lines (s : string) : list string := splitOn "010"%char s.

Fixpoint join (sep : string) (parts : list string) : string :=
  match parts with
  | [] => EmptyString
  | [p] => p
  | p :: rest => p ++ sep ++ join sep rest
  end.

Definition lowerAscii (c : ascii) : ascii :=
  let n := nat_of_ascii c in
  if (65 <=? n)%nat && (n <=? 90)%nat then ascii_of_nat (n + 32) else c.

Fixpoint toLowerCase (s : string) : string :=
  match s with
  | EmptyString => EmptyString
  | String c r => String (lowerAscii c) (toLowerCase r)
  end.

(** The replacement text of [String.prototype.replace] for a pattern
    without capture groups: [$$] is a dollar sign, [$&] the match,
    [$`] the text before the match and [$'] the text after it; any other
    use of [$] stands for itself. *)
Fixpoint substitution (repl matched before after : string) : string :=
  match repl with
  | EmptyString => EmptyString
  | String "$" (String "$" r) => String "$" (substitution r matched before after)
  | String "$" (String "&" r) => matched ++ substitution r matched before after
  | String "$" (String "`" r) => before ++ substitution r matched before after
  | String "$" (String "'" r) => after ++ substitution r matched before after
  | String c r => String c (substitution r matched before after)
  end.

(** [s.replace(/pat/g, repl)] for a literal, non-empty pattern: matches are
    found left to right in the original string and do not overlap.
    [before] is the part of the subject already passed, [skip] the number
    of characters of the current match still to be consumed. *)
Fixpoint replaceFrom (pat repl before s : string) (skip : nat) : string :=
  match s with
  | EmptyString => EmptyString
  | String c r =>
      match skip with
      | S k => replaceFrom pat repl (before ++ String c EmptyString) r k
      | O =>
          if String.prefix pat s
          then substitution repl pat before (drop (String.length pat) s)
                 ++ replaceFrom pat repl (before ++ String c EmptyString) r
                      (String.length pat - 1)
          else String c (replaceFrom pat repl (before ++ String c EmptyString) r 0)
      end
  end.

Definition replaceAll (pat repl s : string) : string :=
  replaceFrom pat repl EmptyString s 0.

End Js.

(* ------------------------------------------------------------------ *)
(** * node:path on POSIX *)

Module Path.

Definition isAbsolute (p : string) : bool := String.prefix "/" p.

(** Segment normalisation of an absolute path: empty segments and [.] are
    dropped, [..] removes the segment before it and is dropped at the
    root.  [stack] holds the segments kept so far, last one first. *)
Fixpoint normalizeSegments (stack segs : list string) : list string :=
  match segs with
  | [] => rev stack
  | seg :: rest =>
      if String.eqb seg "" || String.eqb seg "." then normalizeSegments stack rest
      else if String.eqb seg ".." then normalizeSegments (tl stack) rest
      else normalizeSegments (seg :: stack) rest
  end.

Definition normalizeAbsolute (p : string) : string :=
  "/" ++ Js.join "/" (normalizeSegments [] (Js.splitOn "/" p)).

(** [path.resolve(cwd, p)] where [cwd] is [process.cwd()], hence
    absolute: an absolute [p] wins, a relative one is appended to [cwd];
    the result is normalised. *)
Definition resolve (cwd p : string) : string :=
  if isAbsolute p then normalizeAbsolute p
  else normalizeAbsolute (cwd ++ "/" ++ p).

(** [path.dirname]: scanning from the end, trailing slashes are skipped,
    then the last segment, and the text before the slash that precedes it
    is returned.  [scan] works on the reversed characters after the first
    one; it returns the number of characters to cut from the end. *)
Fixpoint scan (rev_tail : list ascii) (matchedSlash : bool) (cut : nat) : option nat :=
  match rev_tail with
  | [] => None
  | c :: r =>
      if Ascii.eqb c "/"
      then if matchedSlash then scan r true (S cut) else Some (S cut)
      else scan r false (S cut)
  end.

Definition dirname (p : string) : string :=
  match list_ascii_of_string p with
  | [] => "."
  | first :: tail =>
      let hasRoot := Ascii.eqb first "/" in
      match scan (rev tail) true 0 with
      | None => if hasRoot then "/" else "."
      | Some cut =>
          let keep := String.length p - cut in
          if hasRoot && (keep =? 1)%nat then "//"
          else String.substring 0 keep p
      end
  end.

Fixpoint slashFree (s : string) : bool :=
  match s with
  | EmptyString => true
  | String c r => negb (Ascii.eqb c "/") && slashFree r
  end.

(** An ordinary directory name: not empty, no slash, neither [.] nor [..]. *)
Definition plain (seg : string) : bool :=
  slashFree seg
  && negb (String.eqb seg "" || String.eqb seg ".")
  && negb (String.eqb seg "..").

(** The absolute path made of the given directory names. *)
Definition absolute (segs : list string) : string := "/" ++ Js.join "/" segs.

End Path.

(* ------------------------------------------------------------------ *)
(** * Data model (src/plugins/types.ts, src/core/errors.ts) *)

Inductive HookName : Type :=
| beforeCreate | afterCreate | beforeMerge | afterMerge | beforeRemove | afterRemove.

(** The key itself, as it is interpolated into log labels. *)
Definition hookNameText (h : HookName) : string :=
  match h with
  | beforeCreate => "beforeCreate" | afterCreate => "afterCreate"
  | beforeMerge => "beforeMerge" | afterMerge => "afterMerge"
  | beforeRemove => "beforeRemove" | afterRemove => "afterRemove"
  end.

Record ExecResult : Type := mkExecResult
  { stdout : string; stderr : string; exitCode : Z }.

(** [Omit<HookContext, 'logger' | 'exec'>]: the part a command builds.  The
    logger and the exec capability are added by [runHooks] and are the same
    for every hook. *)
Record HookContext : Type := mkHookContext
  { repoRoot : string;
    defaultBranch : string;
    branchName : string;
    worktreePath : string;
    sourceWorktree : option string;
    targetWorktree : option string }.

Record Worktree : Type := mkWorktree
  { wt_path : string; wt_branch : option string; wt_isDetached : bool }.

Record WtSettings : Type := mkSettings
  { s_copyGitIgnoredFiles : bool; s_copyNodeModules : bool; s_worktreePath : string }.

Definition defaultSettings : WtSettings :=
  {| s_copyGitIgnoredFiles := true;
     s_copyNodeModules := false;
     s_worktreePath := "../{repo}-{branch}" |}.

(** The error classes of errors.ts; [GenericError] is a plain [Error], or
    whatever a hook threw, reduced to its message. *)
Inductive Exn : Type :=
| GenericError (message : string)
| WtError (message : string) (code : Z)
| NotInRepoError
| DetachedHeadError
| WorktreeExistsError (path : string)
| MergeConflictError (targetBranch targetWorktreePath : string)
| WorktreeNotFoundError (branch : string)
| OnDefaultBranchError (operation : string).

Definition exnMessage (e : Exn) : string :=
  match e with
  | GenericError m => m
  | WtError m _ => m
  | NotInRepoError => "Not inside a git repository"
  | DetachedHeadError => "Detached HEAD; cannot determine current branch"
  | WorktreeExistsError p => "Worktree already exists at: " ++ p
  | MergeConflictError _ t =>
      "Merge failed due to conflicts. Resolve conflicts in " ++ t ++ " and commit manually."
  | WorktreeNotFoundError b => "Cannot find worktree for branch: " ++ b
  | OnDefaultBranchError op => "Cannot " ++ op ++ " the default branch worktree"
  end.


Inductive Attempt (A : Type) : Type :=
| Ok (a : A)
| Fail (e : Exn).
Arguments Fail {A} e.

(** Calls into src/core/git.ts. *)
Inductive GitCall : Type :=
| AssertInsideGitRepo
| GetRepoRoot
| GetRepoName
| GetCurrentBranch
| GetDefaultBranch
| GetMainWorktree
| ListWorktrees
| FindWorktreeByBranch (branch : string)
| BranchExists (branch : string)
| CreateWorktree (path branch : string) (createBranch : bool)
| MergeBranch (branch cwd : string)
| RemoveWorktree (path : string)
| DeleteBranch (branch : string).

(** Calls into src/core/files.ts, node:fs and the module loader. *)
Inductive FsCall : Type :=
| ExistsSync (path : string)
| CopyGitIgnoredFiles (src dst : string) (includeNodeModules : bool)
| FindConfigFile (startDir filename : string)
| ImportModule (path : string).

Inductive LogLevel : Type := LInfo | LSuccess | LWarn | LError.

(** What a run does that an observer can see, in order.  All logger
    methods and [console.error] write to the diagnostic stream;
    [console.log] is the success channel read by the shell integration. *)
Inductive Event : Type :=
| EvLog (level : LogLevel) (message : string)
| EvStderr (line : string)
| EvStdout (line : string)
| EvExec (cmd cwd : string)
| EvCall (fn : string) (ctx : HookContext)
| EvGit (call : GitCall)
| EvFs (call : FsCall)
| EvRawMode (on : bool)
| EvPrompt (question : string).

(** A keypress as node:readline reports it. *)
Record Key : Type := mkKey { keyName : option string; keyCtrl : bool }.

(** Standard input of the process: whether it is a terminal, the keys the
    operator presses at a selection and the line typed at a yes/no
    question ([None]: no line ever arrives). *)
Record Terminal : Type := mkTerminal
  { isTTY : bool; keypresses : list (option Key); reply : option string }.

Inductive Outcome (A : Type) : Type :=
| Done (a : A)
| Raised (e : Exn)
| Pending.
Arguments Raised {A} e.
Arguments Pending {A}.

Section Orchestration.

Context {World : Type}.

(** ** Hooks *)

Inductive Settled : Type := Returns | Throws (message : string).

Record HookFunction : Type := mkHookFunction
  { fnName : string;
    fnBody : HookContext -> World -> Settled * World }.

(** [HookFunction | string], and [HookValue]: one of them or an array. *)
Inductive HookItem : Type :=
| ItemCommand (cmd : string)
| ItemFunction (f : HookFunction).

Inductive HookValue : Type :=
| Single (item : HookItem)
| Sequence (items : list HookItem).

Definition Hooks : Type := HookName -> option HookValue.

Record WtPlugin : Type := mkPlugin
  { plugin_name : string; plugin_hooks : option Hooks }.

Record WtConfig : Type := mkWtConfig
  { c_copyGitIgnoredFiles : option bool;
    c_copyNodeModules : option bool;
    c_worktreePath : option string;
    c_plugins : option (list WtPlugin);
    c_hooks : option Hooks }.

Record ResolvedConfig : Type := mkResolved
  { cfg_settings : WtSettings;
    cfg_plugins : list WtPlugin;
    cfg_hooks : Hooks }.

(** [if (hook)]: every function and every array is truthy, a command
    string is truthy unless it is empty. *)
Definition hookTruthy (v : HookValue) : bool :=
  match v with
  | Single (ItemCommand cmd) => Js.truthy cmd
  | Single (ItemFunction _) => true
  | Sequence _ => true
  end.

(** ** The platform

    The version-control client (src/core/git.ts), the file helpers
    (src/core/files.ts), [process.cwd()], [fs.existsSync] and the module
    loader are collaborators of the orchestration core, not part of it.
    They are taken as given, with the signatures the commands use
    (specification, section 6): queries read the world, operations return an
    [ExecResult] and may change it, and only the repository check, the
    current-branch query and the primary-worktree lookup can throw. *)
Class Platform : Type := mkPlatform
  { processCwd : World -> string;
    assertInsideGitRepo : World -> Attempt unit;
    getRepoRoot : World -> string;
    getRepoName : World -> string;
    getCurrentBranch : World -> Attempt string;
    getDefaultBranch : World -> string;
    getMainWorktree : World -> Attempt Worktree;
    listWorktrees : World -> list Worktree;
    findWorktreeByBranch : string -> World -> option Worktree;
    branchExists : string -> World -> bool;
    createWorktree : string -> string -> bool -> World -> ExecResult * World;
    mergeBranch : string -> string -> World -> ExecResult * World;
    removeWorktree : string -> World -> ExecResult * World;
    deleteBranch : string -> World -> ExecResult * World;
    execAsync : string -> string -> World -> ExecResult * World;
    existsSync : string -> World -> bool;
    copyGitIgnoredFiles : string -> string -> bool -> World -> nat * World;
    findConfigFile : string -> string -> World -> option string;
    importConfig : string -> World -> Attempt WtConfig }.

Context {platform : Platform}.

(** ** Commands as state transformers with a trace *)

Definition Run (A : Type) : Type := Outcome A * World * list Event.
Definition M (A : Type) : Type := World -> Run A.

Definition outcomeOf {A} (r : Run A) : Outcome A := fst (fst r).
Definition worldOf {A} (r : Run A) : World := snd (fst r).
Definition traceOf {A} (r : Run A) : list Event := snd r.

Definition ret {A} (a : A) : M A := fun w => (Done a, w, []).

Definition bind {A B} (m : M A) (k : A -> M B) : M B := fun w =>
  match m w with
  | (Done a, w1, t1) =>
      match k a w1 with
      | (r, w2, t2) => (r, w2, (t1 ++ t2)%list)
      end
  | (Raised e, w1, t1) => (Raised e, w1, t1)
  | (Pending, w1, t1) => (Pending, w1, t1)
  end.

Definition throw {A} (e : Exn) : M A := fun w => (Raised e, w, []).
Definition pending {A} : M A := fun w => (Pending, w, []).
Definition emit (e : Event) : M unit := fun w => (Done tt, w, [e]).

(** [try { m } catch (error) { handler(error) }] *)
Definition tryCatch {A} (m : M A) (handler : Exn -> M A) : M A := fun w =>
  match m w with
  | (Raised e, w1, t1) =>
      match handler e w1 with
      | (r, w2, t2) => (r, w2, (t1 ++ t2)%list)
      end
  | settled => settled
  end.

Definition read {A} (call : Event) (f : World -> A) : M A :=
  fun w => (Done (f w), w, [call]).

Definition attempt {A} (call : Event) (f : World -> Attempt A) : M A :=
  fun w => match f w with
           | Ok a => (Done a, w, [call])
           | Fail e => (Raised e, w, [call])
           end.

Definition act {A} (call : Event) (f : World -> A * World) : M A :=
  fun w => match f w with (a, w1) => (Done a, w1, [call]) end.

Notation "x <- m ;; k" := (bind m (fun x => k))
  (at level 61, m at next level, right associativity).
Notation "m ;; k" := (bind m (fun _ => k))
  (at level 61, right associativity).

Definition getCwd : M string := fun w => (Done (processCwd w), w, []).

Definition logInfo (message : string) : M unit := emit (EvLog LInfo message).
Definition logSuccess (message : string) : M unit := emit (EvLog LSuccess message).
Definition logWarn (message : string) : M unit := emit (EvLog LWarn message).
Definition logError (message : string) : M unit := emit (EvLog LError message).
Definition consoleError (line : string) : M unit := emit (EvStderr line).
Definition consoleLog (line : string) : M unit := emit (EvStdout line).

(** [for (const x of xs) { await body(x) }] *)
Fixpoint forEach {A} (xs : list A) (body : A -> M unit) : M unit :=
  match xs with
  | [] => ret tt
  | x :: rest => body x ;; forEach rest body
  end.

(* ------------------------------------------------------------------ *)
(** * The hook runner (src/plugins/runner.ts) *)

(** [await item(ctx)] *)
Definition callHook (f : HookFunction) (ctx : HookContext) : M unit := fun w =>
  match fnBody f ctx w with
  | (Returns, w1) => (Done tt, w1, [EvCall (fnName f) ctx])
  | (Throws message, w1) => (Raised (GenericError message), w1, [EvCall (fnName f) ctx])
  end.

Definition commandFailure (cmd : string) (code : Z) : string :=
  "Command " ++ Js.dquote ++ cmd ++ Js.dquote ++ " failed with exit code " ++ Js.showZ code.

Definition executeHookItem (item : HookItem) (ctx : HookContext) : M unit :=
  match item with
  | ItemCommand cmd =>
      logInfo ("Running: " ++ cmd) ;;
      result <- act (EvExec cmd (worktreePath ctx)) (execAsync cmd (worktreePath ctx)) ;;
      (if Js.truthy (stdout result)
       then forEach (Js.lines (stdout result)) consoleError else ret tt) ;;
      (if Js.truthy (stderr result)
       then forEach (Js.lines (stderr result)) consoleError else ret tt) ;;
      if (exitCode result =? 0)%Z then ret tt
      else throw (GenericError (commandFailure cmd (exitCode result)))
  | ItemFunction f => callHook f ctx
  end.

Definition executeHookValue (value : HookValue) (ctx : HookContext) (label : string)
  : M unit :=
  tryCatch
    (match value with
     | Sequence items => forEach items (fun item => executeHookItem item ctx)
     | Single item => executeHookItem item ctx
     end)
    (fun error => logWarn (label ++ " failed: " ++ exnMessage error)).

(** [plugin.hooks?.[hookName]] *)
Definition pluginHook (plugin : WtPlugin) (hookName : HookName) : option HookValue :=
  match plugin_hooks plugin with
  | Some hooks => hooks hookName
  | None => None
  end.

Definition pluginLabel (plugin : WtPlugin) (hookName : HookName) : string :=
  "Plugin " ++ Js.dquote ++ plugin_name plugin ++ Js.dquote ++ " "
    ++ hookNameText hookName ++ " hook".

Definition inlineLabel (hookName : HookName) : string :=
  "Inline " ++ hookNameText hookName ++ " hook".

Arguments commandFailure : simpl never.
Arguments pluginLabel : simpl never.
Arguments inlineLabel : simpl never.

Definition runHooks (hookName : HookName) (config : ResolvedConfig) (context : HookContext)
  : M unit :=
  forEach (cfg_plugins config) (fun plugin =>
    match pluginHook plugin hookName with
    | Some hook =>
        if hookTruthy hook
        then executeHookValue hook context (pluginLabel plugin hookName)
        else ret tt
    | None => ret tt
    end) ;;
  match cfg_hooks config hookName with
  | Some inlineHook =>
      if hookTruthy inlineHook
      then executeHookValue inlineHook context (inlineLabel hookName)
      else ret tt
  | None => ret tt
  end.

Definition createHookRunner (config : ResolvedConfig)
  : HookName -> HookContext -> M unit :=
  fun hookName context => runHooks hookName config context.

(* ------------------------------------------------------------------ *)
(** * The configuration loader (src/plugins/loader.ts) *)

Definition CONFIG_FILENAMES : list string :=
  ["wt.config.ts"; "wt.config.js"; "wt.config.mjs"].

Definition orElse {A} (o : option A) (d : A) : A :=
  match o with Some a => a | None => d end.

Definition noHooks : Hooks := fun _ => None.

Definition resolveConfig (config : WtConfig) : ResolvedConfig :=
  {| cfg_settings :=
       {| s_copyGitIgnoredFiles :=
            orElse (c_copyGitIgnoredFiles config) (s_copyGitIgnoredFiles defaultSettings);
          s_copyNodeModules :=
            orElse (c_copyNodeModules config) (s_copyNodeModules defaultSettings);
          s_worktreePath :=
            orElse (c_worktreePath config) (s_worktreePath defaultSettings) |};
     cfg_plugins := orElse (c_plugins config) [];
     cfg_hooks := orElse (c_hooks config) noHooks |}.

Definition loadConfigFromPath (configPath : string) : M ResolvedConfig :=
  tryCatch
    (config <- attempt (EvFs (ImportModule configPath)) (importConfig configPath) ;;
     ret (resolveConfig config))
    (fun error =>
       throw (GenericError
                ("Failed to load config from " ++ configPath ++ ": " ++ exnMessage error))).

Definition defaultConfig : ResolvedConfig :=
  {| cfg_settings := defaultSettings; cfg_plugins := []; cfg_hooks := noHooks |}.

(** The loop of [loadConfig] over the file names still to try. *)
Fixpoint loadConfigAmong (filenames : list string) (startDir : string) : M ResolvedConfig :=
  match filenames with
  | [] => ret defaultConfig
  | filename :: rest =>
      configPath <- read (EvFs (FindConfigFile startDir filename))
                         (findConfigFile startDir filename) ;;
      match configPath with
      | Some found =>
          if Js.truthy found then loadConfigFromPath found
          else loadConfigAmong rest startDir
      | None => loadConfigAmong rest startDir
      end
  end.

Definition loadConfig (startDir : string) : M ResolvedConfig :=
  loadConfigAmong CONFIG_FILENAMES startDir.

(* ------------------------------------------------------------------ *)
(** * create (src/commands/create.ts) *)

Definition resolveWorktreePath (pattern repo branch parent : string) : string :=
  Js.replaceAll "{parent}" parent
    (Js.replaceAll "{branch}" branch
       (Js.replaceAll "{repo}" repo pattern)).

Definition showNat (n : nat) : string := Js.showZ (Z.of_nat n).

Definition createCommand (name : string) : M unit :=
  attempt (EvGit AssertInsideGitRepo) assertInsideGitRepo ;;
  cwd <- getCwd ;;
  repoRoot <- read (EvGit GetRepoRoot) getRepoRoot ;;
  repoName <- read (EvGit GetRepoName) getRepoName ;;
  defaultBranch <- read (EvGit GetDefaultBranch) getDefaultBranch ;;
  let parentDir := Path.dirname repoRoot in
  config <- loadConfig cwd ;;
  let pathPattern := s_worktreePath (cfg_settings config) in
  let resolvedPath := resolveWorktreePath pathPattern repoName name parentDir in
  let worktreePath := Path.resolve cwd resolvedPath in
  taken <- read (EvFs (ExistsSync worktreePath)) (existsSync worktreePath) ;;
  if taken : bool then throw (WorktreeExistsError worktreePath)
  else
    let runHook := createHookRunner config in
    let hookContext :=
      {| repoRoot := repoRoot;
         defaultBranch := defaultBranch;
         branchName := name;
         worktreePath := worktreePath;
         sourceWorktree := Some cwd;
         targetWorktree := None |} in
    runHook beforeCreate hookContext ;;
    known <- read (EvGit (BranchExists name)) (branchExists name) ;;
    let needsNewBranch := negb known in
    logInfo ("Creating worktree for branch " ++ Js.dquote ++ name ++ Js.dquote ++ "...") ;;
    result <- act (EvGit (CreateWorktree worktreePath name needsNewBranch))
                  (createWorktree worktreePath name needsNewBranch) ;;
    if negb (exitCode result =? 0)%Z
    then throw (WtError ("Failed to create worktree: " ++ stderr result) 1)
    else
      (if s_copyGitIgnoredFiles (cfg_settings config)
       then
         copied <- act (EvFs (CopyGitIgnoredFiles repoRoot worktreePath
                                (s_copyNodeModules (cfg_settings config))))
                       (copyGitIgnoredFiles repoRoot worktreePath
                          (s_copyNodeModules (cfg_settings config))) ;;
         if (0 <? copied)%nat
         then logInfo ("Copied " ++ showNat copied ++ " gitignored file(s)")
         else ret tt
       else ret tt) ;;
      runHook afterCreate hookContext ;;
      logSuccess ("Created worktree at " ++ worktreePath) ;;
      consoleLog worktreePath.

(* ------------------------------------------------------------------ *)
(** * merge (src/commands/merge.ts) *)

Record MergeOptions : Type := mkMergeOptions { keep : option bool }.

Definition quoted (s : string) : string := Js.dquote ++ s ++ Js.dquote.

Definition mergeCommand (options : MergeOptions) : M unit :=
  let keep := orElse (keep options) false in
  attempt (EvGit AssertInsideGitRepo) assertInsideGitRepo ;;
  originalCwd <- getCwd ;;
  repoRoot <- read (EvGit GetRepoRoot) getRepoRoot ;;
  currentBranch <- attempt (EvGit GetCurrentBranch) getCurrentBranch ;;
  defaultBranch <- read (EvGit GetDefaultBranch) getDefaultBranch ;;
  if String.eqb currentBranch defaultBranch
  then throw (WtError ("Already on " ++ defaultBranch ++ ", nothing to merge") 1)
  else
    mainWorktree <- attempt (EvGit GetMainWorktree) getMainWorktree ;;
    config <- loadConfig originalCwd ;;
    let runHook := createHookRunner config in
    let hookContext :=
      {| repoRoot := repoRoot;
         defaultBranch := defaultBranch;
         branchName := currentBranch;
         worktreePath := originalCwd;
         sourceWorktree := None;
         targetWorktree := Some (wt_path mainWorktree) |} in
    runHook beforeMerge hookContext ;;
    logInfo ("Merging " ++ quoted currentBranch ++ " into " ++ quoted defaultBranch ++ "...") ;;
    mergeResult <- act (EvGit (MergeBranch currentBranch (wt_path mainWorktree)))
                       (mergeBranch currentBranch (wt_path mainWorktree)) ;;
    if negb (exitCode mergeResult =? 0)%Z
    then
      logError "Merge failed!" ;;
      (if Js.truthy (stderr mergeResult) then logError (stderr mergeResult) else ret tt) ;;
      (if Js.truthy (stdout mergeResult) then consoleError (stdout mergeResult) else ret tt) ;;
      logError ("Resolve conflicts in " ++ wt_path mainWorktree ++ " then commit manually.") ;;
      logInfo ("You are still in: " ++ originalCwd) ;;
      consoleLog originalCwd ;;
      throw (MergeConflictError defaultBranch (wt_path mainWorktree))
    else
      logSuccess ("Merged " ++ quoted currentBranch ++ " into " ++ quoted defaultBranch) ;;
      if keep
      then
        logInfo "Kept worktree and branch (--keep flag)" ;;
        runHook afterMerge hookContext ;;
        consoleLog (wt_path mainWorktree)
      else
        runHook beforeRemove hookContext ;;
        logInfo ("Removing worktree at " ++ originalCwd ++ "...") ;;
        removeResult <- act (EvGit (RemoveWorktree originalCwd)) (removeWorktree originalCwd) ;;
        (if negb (exitCode removeResult =? 0)%Z
         then logWarn ("Failed to remove worktree: " ++ stderr removeResult)
         else ret tt) ;;
        deleteResult <- act (EvGit (DeleteBranch currentBranch)) (deleteBranch currentBranch) ;;
        (if negb (exitCode deleteResult =? 0)%Z
         then logWarn ("Failed to delete branch " ++ quoted currentBranch ++ ": "
                         ++ stderr deleteResult)
         else logInfo ("Deleted branch " ++ quoted currentBranch)) ;;
        runHook afterRemove hookContext ;;
        runHook afterMerge hookContext ;;
        logSuccess ("Merged and cleaned up " ++ quoted currentBranch) ;;
        consoleLog (wt_path mainWorktree).

(* ------------------------------------------------------------------ *)
(** * remove (src/commands/remove.ts) *)

Record RemoveOptions : Type := mkRemoveOptions
  { name : option string; force : option bool }.

Definition branchIs (b : option string) (other : string) : bool :=
  match b with Some x => String.eqb x other | None => false end.

Definition confirmRemoval (tty : Terminal) (worktree : Worktree) : M bool :=
  if negb (isTTY tty)
  then
    logError "Cannot confirm in non-interactive mode. Use --force to skip confirmation." ;;
    ret false
  else
    let branch := orElse (wt_branch worktree) "(detached)" in
    emit (EvPrompt ("Remove worktree '" ++ branch ++ "' at " ++ wt_path worktree
                      ++ "? (y/N) ")) ;;
    match reply tty with
    | Some answer => ret (String.eqb (Js.toLowerCase answer) "y")
    | None => pending
    end.

Record Choice : Type := mkChoice
  { ch_worktree : Worktree; ch_branch : string; ch_display : string }.

Definition choiceOf (wt : Worktree) : Choice :=
  let branch :=
    if wt_isDetached wt then "(detached)" else orElse (wt_branch wt) "(unknown)" in
  {| ch_worktree := wt; ch_branch := branch; ch_display := wt_path wt ++ "  " ++ branch |}.

Definition clearScreen : string := Js.esc ++ "[2J" ++ Js.esc ++ "[H".

Definition render (choices : list Choice) (selectedIndex : nat) : M unit :=
  consoleError clearScreen ;;
  consoleError ("Select a worktree to remove (↑/↓ to move, Enter to select, q to quit):"
                  ++ Js.newline) ;;
  forEach (combine (seq 0 (length choices)) choices) (fun entry =>
    let i := fst entry in
    let choice := snd entry in
    let prefix :=
      if (i =? selectedIndex)%nat then Js.esc ++ "[31m❯" ++ Js.esc ++ "[0m " else "  " in
    let highlight :=
      if (i =? selectedIndex)%nat then Js.esc ++ "[31m" else Js.esc ++ "[90m" in
    consoleError (prefix ++ highlight ++ ch_display choice ++ Js.esc ++ "[0m")).

Definition cleanup : M unit :=
  emit (EvRawMode false) ;;
  consoleError clearScreen.

Definition keyIs (key : Key) (wanted : string) : bool :=
  match keyName key with Some k => String.eqb k wanted | None => false end.

(** The [keypress] listener of [interactiveSelect], run over the keys the
    operator presses; the promise stays unsettled when they run out. *)
Fixpoint onKeypress (choices : list Choice) (selectedIndex : nat)
  (keys : list (option Key)) : M (option Worktree) :=
  match keys with
  | [] => pending
  | None :: rest => onKeypress choices selectedIndex rest
  | Some key :: rest =>
      if keyIs key "up" || (keyCtrl key && keyIs key "p")
      then
        let moved := ((selectedIndex + length choices - 1) mod length choices)%nat in
        render choices moved ;;
        onKeypress choices moved rest
      else if keyIs key "down" || (keyCtrl key && keyIs key "n")
      then
        let moved := ((selectedIndex + 1) mod length choices)%nat in
        render choices moved ;;
        onKeypress choices moved rest
      else if keyIs key "return"
      then
        cleanup ;;
        match nth_error choices selectedIndex with
        | Some choice => ret (Some (ch_worktree choice))
        | None => throw (GenericError "undefined is not an object")
        end
      else if keyIs key "q" || keyIs key "escape" || (keyCtrl key && keyIs key "c")
      then
        cleanup ;;
        ret None
      else onKeypress choices selectedIndex rest
  end.

Definition interactiveSelect (tty : Terminal) (worktrees : list Worktree)
  : M (option Worktree) :=
  if negb (isTTY tty)
  then
    logError "No TTY available for interactive selection" ;;
    ret None
  else
    let choices := map choiceOf worktrees in
    match choices with
    | [only] => ret (Some (ch_worktree only))
    | _ =>
        emit (EvRawMode true) ;;
        render choices 0 ;;
        onKeypress choices 0 (keypresses tty)
    end.

(** [if (options.name)]: a name was given and is not empty. *)
Definition nameGiven (options : RemoveOptions) : option string :=
  match name options with
  | Some wanted => if Js.truthy wanted then Some wanted else None
  | None => None
  end.

(** Lines 29-54 of [removeCommand]: which worktree to remove.  [None] is
    the early [return] of the interactive branch. *)
Definition resolveTarget (options : RemoveOptions) (tty : Terminal) (defaultBranch : string)
  : M (option Worktree) :=
  match nameGiven options with
  | Some wanted =>
      found <- read (EvGit (FindWorktreeByBranch wanted)) (findWorktreeByBranch wanted) ;;
      match found with
      | Some worktree => ret (Some worktree)
      | None => throw (WorktreeNotFoundError wanted)
      end
  | None =>
      worktrees <- read (EvGit ListWorktrees) listWorktrees ;;
      let nonDefaultWorktrees :=
        filter (fun wt => negb (branchIs (wt_branch wt) defaultBranch)) worktrees in
      match nonDefaultWorktrees with
      | [] =>
          logWarn "No worktrees available to remove (only default branch exists)" ;;
          ret None
      | _ => interactiveSelect tty nonDefaultWorktrees
      end
  end.

Definition showBranch (b : option string) : string := orElse b "null".

(** Lines 70-103 of [removeCommand]: what happens once removal is decided. *)
Definition removeConfirmed (cwd repoRoot defaultBranch : string) (worktree : Worktree)
  : M unit :=
  config <- loadConfig cwd ;;
  let runHook := createHookRunner config in
  let hookContext :=
    {| repoRoot := repoRoot;
       defaultBranch := defaultBranch;
       branchName := orElse (wt_branch worktree) "";
       worktreePath := wt_path worktree;
       sourceWorktree := None;
       targetWorktree := None |} in
  runHook beforeRemove hookContext ;;
  logInfo ("Removing worktree at " ++ wt_path worktree ++ "...") ;;
  removeResult <- act (EvGit (RemoveWorktree (wt_path worktree)))
                      (removeWorktree (wt_path worktree)) ;;
  if negb (exitCode removeResult =? 0)%Z
  then throw (WtError ("Failed to remove worktree: " ++ stderr removeResult) 1)
  else
    match wt_branch worktree with
    | Some branch =>
        if Js.truthy branch
        then
          logInfo ("Deleting branch " ++ branch ++ "...") ;;
          deleteResult <- act (EvGit (DeleteBranch branch)) (deleteBranch branch) ;;
          if negb (exitCode deleteResult =? 0)%Z
          then logWarn ("Could not delete branch: " ++ stderr deleteResult)
          else ret tt
        else ret tt
    | None => ret tt
    end ;;
    runHook afterRemove hookContext ;;
    logSuccess ("Removed worktree '" ++ showBranch (wt_branch worktree) ++ "' at "
                  ++ wt_path worktree).

Definition removeCommand (options : RemoveOptions) (tty : Terminal) : M unit :=
  attempt (EvGit AssertInsideGitRepo) assertInsideGitRepo ;;
  cwd <- getCwd ;;
  repoRoot <- read (EvGit GetRepoRoot) getRepoRoot ;;
  defaultBranch <- read (EvGit GetDefaultBranch) getDefaultBranch ;;
  target <- resolveTarget options tty defaultBranch ;;
  match target with
  | None => ret tt
  | Some worktree =>
      if branchIs (wt_branch worktree) defaultBranch
      then throw (OnDefaultBranchError "remove")
      else if orElse (force options) false
      then removeConfirmed cwd repoRoot defaultBranch worktree
      else
        confirmed <- confirmRemoval tty worktree ;;
        if confirmed : bool
        then removeConfirmed cwd repoRoot defaultBranch worktree
        else logInfo "Cancelled"
  end.

(* ------------------------------------------------------------------ *)
(** * The ordering contract, in the words of the specification *)

(** A hook is defined for an event when the entry is set and passes the
    runner's [if (hook)] test. *)
Definition definedHook (entry : option HookValue) : option HookValue :=
  match entry with
  | Some v => if hookTruthy v then Some v else None
  | None => None
  end.

Definition pluginEntry (hookName : HookName) (plugin : WtPlugin)
  : list (string * HookValue) :=
  match definedHook (pluginHook plugin hookName) with
  | Some v => [(pluginLabel plugin hookName, v)]
  | None => []
  end.

Definition inlineEntry (hookName : HookName) (config : ResolvedConfig)
  : list (string * HookValue) :=
  match definedHook (cfg_hooks config hookName) with
  | Some v => [(inlineLabel hookName, v)]
  | None => []
  end.

(** Specification, section 4.2: the hooks of the plugins that define one, in
    plugin-list order, then the inline hook; each with its label. *)
Definition scheduled (hookName : HookName) (config : ResolvedConfig)
  : list (string * HookValue) :=
  (flat_map (pluginEntry hookName) (cfg_plugins config) ++ inlineEntry hookName config)%list.

(** Every entry is handed to the hook executor, one after the other, each
    starting in the world the one before left behind, whatever its outcome
    was. *)
Fixpoint runEach (entries : list (string * HookValue)) (ctx : HookContext) (w : World)
  : World * list Event :=
  match entries with
  | [] => (w, [])
  | (label, value) :: rest =>
      let r := executeHookValue value ctx label w in
      let after := runEach rest ctx (worldOf r) in
      (fst after, (traceOf r ++ snd after)%list)
  end.

End Orchestration.

(* ------------------------------------------------------------------ *)
(** * Reading a trace *)

(** A hook body at work: a hook function being called, or a hook command
    being run through the exec capability. *)
Definition isHookActivity (e : Event) : bool :=
  match e with
  | EvCall _ _ | EvExec _ _ => true
  | _ => false
  end.

(** The calls that instruct the version-control system to do something
    (they return an exit code), as opposed to the queries that read
    repository state. *)
Definition isVcsOperation (e : Event) : bool :=
  match e with
  | EvGit (CreateWorktree _ _ _) | EvGit (MergeBranch _ _)
  | EvGit (RemoveWorktree _) | EvGit (DeleteBranch _) => true
  | _ => false
  end.

Definition isTeardown (e : Event) : bool :=
  match e with
  | EvGit (RemoveWorktree _) | EvGit (DeleteBranch _) => true
  | _ => false
  end.

Definition isPrompt (e : Event) : bool :=
  match e with
  | EvPrompt _ => true
  | _ => false
  end.

Definition stdoutLines (t : list Event) : list string :=
  flat_map (fun e => match e with EvStdout line => [line] | _ => [] end) t.

Definition callsOf (t : list Event) : list string :=
  flat_map (fun e => match e with EvCall fn _ => [fn] | _ => [] end) t.

Definition warningsOf (t : list Event) : list string :=
  flat_map (fun e => match e with EvLog LWarn m => [m] | _ => [] end) t.

Definition quiet (p : Event -> bool) (t : list Event) : Prop :=
  Forall (fun e => p e = false) t.

(** [embeds s t]: the events of [s] occur in [t], in the same order. *)
Inductive embeds : list Event -> list Event -> Prop :=
| embeds_nil : forall t, embeds [] t
| embeds_skip : forall e s t, embeds s t -> embeds s (e :: t)
| embeds_take : forall e s t, embeds s t -> embeds (e :: s) (e :: t).

(* ------------------------------------------------------------------ *)
(** * Vocabulary for the statements below *)

Section Vocabulary.

Context {World : Type} {platform : @Platform World}.

(** A run with earlier events in front of its trace. *)
Definition prefixed {A} (t : list Event) (r : @Run World A) : @Run World A :=
  (outcomeOf r, worldOf r, (t ++ traceOf r)%list).

Definition settling {A} (m : @M World A) : Prop :=
  forall w, outcomeOf (m w) <> Pending.

(** A run all of whose events satisfy [p]. *)
Definition emits {A} (p : Event -> bool) (m : @M World A) : Prop :=
  forall w, Forall (fun e => p e = true) (traceOf (m w)).

(** A run that leaves the world as it found it. *)
Definition readOnly {A} (m : @M World A) : Prop :=
  forall w, worldOf (m w) = w.

(** What [executeHookItem] streams to the diagnostic channel after a
    command: the lines of its stdout, then those of its stderr. *)
Definition echoed (result : ExecResult) : list Event :=
  ((if Js.truthy (stdout result) then map EvStderr (Js.lines (stdout result)) else [])
   ++ (if Js.truthy (stderr result) then map EvStderr (Js.lines (stderr result)) else []))%list.

(** The first thing the hook executor does for a hook value: call its
    function, or announce its command; for a list, the same for its first
    element, and nothing when the list is empty. *)
Definition openingOf (item : @HookItem World) (ctx : HookContext) : Event :=
  match item with
  | ItemCommand cmd => EvLog LInfo ("Running: " ++ cmd)
  | ItemFunction f => EvCall (fnName f) ctx
  end.

Definition opening (value : @HookValue World) (ctx : HookContext) : list Event :=
  match value with
  | Single item => [openingOf item ctx]
  | Sequence [] => []
  | Sequence (item :: _) => [openingOf item ctx]
  end.

(** The events only the hook runner produces. *)
Definition isRunnerEvent (e : Event) : bool :=
  match e with
  | EvLog _ _ | EvStderr _ | EvExec _ _ | EvCall _ _ => true
  | _ => false
  end.

(** The events of target selection and confirmation in remove. *)
Definition isSelectionEvent (e : Event) : bool :=
  match e with
  | EvGit (FindWorktreeByBranch _) | EvGit ListWorktrees
  | EvLog _ _ | EvStderr _ | EvRawMode _ => true
  | _ => false
  end.

Definition isLoaderEvent (e : Event) : bool :=
  match e with
  | EvFs (FindConfigFile _ _) | EvFs (ImportModule _) => true
  | _ => false
  end.

(** The hook context [mergeCommand] builds. *)
Definition mergeContext (w : World) (currentBranch : string) (mainWorktree : Worktree)
  : HookContext :=
  {| repoRoot := getRepoRoot w;
     defaultBranch := getDefaultBranch w;
     branchName := currentBranch;
     worktreePath := processCwd w;
     sourceWorktree := None;
     targetWorktree := Some (wt_path mainWorktree) |}.

(** The repository queries every merge starts with. *)
Definition mergeReads : list Event :=
  [EvGit AssertInsideGitRepo; EvGit GetRepoRoot; EvGit GetCurrentBranch; EvGit GetDefaultBranch].

(** What [confirmRemoval] logs when there is no terminal to ask. *)
Definition cannotConfirm : Event :=
  EvLog LError "Cannot confirm in non-interactive mode. Use --force to skip confirmation.".

(** The repository queries every create starts with. *)
Definition createReads : list Event :=
  [EvGit AssertInsideGitRepo; EvGit GetRepoRoot; EvGit GetRepoName; EvGit GetDefaultBranch].

(** The hook context [createCommand] builds for the worktree at [target]. *)
Definition createContext (w : World) (name target : string) : HookContext :=
  {| repoRoot := getRepoRoot w;
     defaultBranch := getDefaultBranch w;
     branchName := name;
     worktreePath := target;
     sourceWorktree := Some (processCwd w);
     targetWorktree := None |}.

(** The copy step of [createCommand]: the world it leaves and what it
    logs. *)
Definition copyStep (config : @ResolvedConfig World) (repoRoot target : string) (w : World)
  : World * list Event :=
  if s_copyGitIgnoredFiles (cfg_settings config)
  then
    let copied :=
      copyGitIgnoredFiles repoRoot target (s_copyNodeModules (cfg_settings config)) w in
    (snd copied,
     (EvFs (CopyGitIgnoredFiles repoRoot target (s_copyNodeModules (cfg_settings config)))
        :: (if (0 <? fst copied)%nat
            then [EvLog LInfo ("Copied " ++ showNat (fst copied) ++ " gitignored file(s)")]
            else []))%list)
  else (w, []).

(** The repository queries every remove starts with. *)
Definition removeReads : list Event :=
  [EvGit AssertInsideGitRepo; EvGit GetRepoRoot; EvGit GetDefaultBranch].

(** A merge invocation that gets as far as the merge itself: inside a
    repository, on branch [currentBranch], which is not the default branch;
    the primary worktree is [mainWorktree]; loading the configuration
    yields [config] with the trace [loading]. *)
Definition MergeReady (w : World) (currentBranch : string) (mainWorktree : Worktree)
  (config : ResolvedConfig) (loading : list Event) : Prop :=
  assertInsideGitRepo w = Ok tt
  /\ getCurrentBranch w = Ok currentBranch
  /\ String.eqb currentBranch (getDefaultBranch w) = false
  /\ getMainWorktree w = Ok mainWorktree
  /\ loadConfig (processCwd w) w = (Done config, w, loading).

(** Everything a merge does up to and including the merge call. *)
Definition mergePrelude (w : World) (currentBranch : string) (mainWorktree : Worktree)
  (config : ResolvedConfig) (loading : list Event) : list Event :=
  (mergeReads ++ [EvGit GetMainWorktree] ++ loading
   ++ traceOf (runHooks beforeMerge config (mergeContext w currentBranch mainWorktree) w)
   ++ [EvLog LInfo ("Merging " ++ quoted currentBranch ++ " into "
                      ++ quoted (getDefaultBranch w) ++ "...");
       EvGit (MergeBranch currentBranch (wt_path mainWorktree))])%list.

(** What the failure branch of a merge reports after the merge call. *)
Definition mergeFailureReport (w : World) (mainWorktree : Worktree) (result : ExecResult)
  : list Event :=
  ([EvLog LError "Merge failed!"]
   ++ (if Js.truthy (stderr result) then [EvLog LError (stderr result)] else [])
   ++ (if Js.truthy (stdout result) then [EvStderr (stdout result)] else [])
   ++ [EvLog LError ("Resolve conflicts in " ++ wt_path mainWorktree
                       ++ " then commit manually.");
       EvLog LInfo ("You are still in: " ++ processCwd w);
       EvStdout (processCwd w)])%list.

(** The two teardown calls of a merge and what is logged about them. *)
Definition removalLog (w : World) (result : ExecResult) : list Event :=
  ([EvLog LInfo ("Removing worktree at " ++ processCwd w ++ "...");
    EvGit (RemoveWorktree (processCwd w))]
   ++ (if negb (exitCode result =? 0)%Z
       then [EvLog LWarn ("Failed to remove worktree: " ++ stderr result)] else []))%list.

Definition deletionLog (currentBranch : string) (result : ExecResult) : list Event :=
  [EvGit (DeleteBranch currentBranch);
   if negb (exitCode result =? 0)%Z
   then EvLog LWarn ("Failed to delete branch " ++ quoted currentBranch ++ ": "
                       ++ stderr result)
   else EvLog LInfo ("Deleted branch " ++ quoted currentBranch)].

End Vocabulary.

(* ------------------------------------------------------------------ *)
(** * A small simulated repository

    A concrete [World] on which the commands can be run: a list of
    worktrees and branches, switches that make the next merge, worktree
    removal or branch deletion fail, and a journal that hook functions
    write to, as the test-suite's hooks push to an array. *)

Module Sim.

Record Repo : Type := mkRepo
  { cwd : string;
    root : string;
    inside : bool;
    head : option string;
    trunk : string;
    trees : list Worktree;
    heads : list string;
    conflict : bool;
    stuck : bool;
    unmerged : bool;
    journal : list string }.

Definition note (tag : string) (r : Repo) : Repo :=
  {| cwd := cwd r; root := root r; inside := inside r; head := head r; trunk := trunk r;
     trees := trees r; heads := heads r; conflict := conflict r; stuck := stuck r;
     unmerged := unmerged r; journal := (journal r ++ [tag])%list |}.

Definition withTrees (ts : list Worktree) (hs : list string) (r : Repo) : Repo :=
  {| cwd := cwd r; root := root r; inside := inside r; head := head r; trunk := trunk r;
     trees := ts; heads := hs; conflict := conflict r; stuck := stuck r;
     unmerged := unmerged r; journal := journal r |}.

Definition okResult : ExecResult := {| stdout := ""; stderr := ""; exitCode := 0 |}.
Definition failResult (code : Z) (err : string) : ExecResult :=
  {| stdout := ""; stderr := err; exitCode := code |}.

Definition onBranch (b : string) (wt : Worktree) : bool :=
  match wt_branch wt with Some x => String.eqb x b | None => false end.

Definition basename (p : string) : string := last (Js.splitOn "/" p) "".

(** The platform over [Repo]; [config] is what importing the
    configuration file yields, if there is one. *)
Definition platform (config : option (@WtConfig Repo)) : @Platform Repo :=
  {| processCwd := cwd;
     assertInsideGitRepo := fun r => if inside r then Ok tt else Fail NotInRepoError;
     getRepoRoot := root;
     getRepoName := fun r => basename (root r);
     getCurrentBranch := fun r =>
       match head r with Some b => Ok b | None => Fail DetachedHeadError end;
     getDefaultBranch := trunk;
     getMainWorktree := fun r =>
       match find (onBranch (trunk r)) (trees r) with
       | Some wt => Ok wt
       | None => Fail (WtError "Could not find main worktree" 1)
       end;
     listWorktrees := trees;
     findWorktreeByBranch := fun b r => find (onBranch b) (trees r);
     branchExists := fun b r => existsb (String.eqb b) (heads r);
     createWorktree := fun p b fresh r =>
       (okResult,
        withTrees (trees r ++ [mkWorktree p (Some b) false])%list
                  (if fresh then (heads r ++ [b])%list else heads r) r);
     mergeBranch := fun b target r =>
       if conflict r
       then ({| stdout := "CONFLICT (content): Merge conflict in conflict.txt";
                stderr := ""; exitCode := 1 |}, r)
       else (okResult, r);
     removeWorktree := fun p r =>
       if stuck r then (failResult 128 "fatal: worktree contains modified files", r)
       else (okResult,
             withTrees (filter (fun wt => negb (String.eqb (wt_path wt) p)) (trees r))
                       (heads r) r);
     deleteBranch := fun b r =>
       if unmerged r then (failResult 1 "error: the branch is not fully merged", r)
       else (okResult,
             withTrees (trees r) (filter (fun x => negb (String.eqb x b)) (heads r)) r);
     execAsync := fun cmd dir r =>
       if String.eqb cmd "exit 1" then (failResult 1 "", r) else (okResult, r);
     existsSync := fun p r => existsb (fun wt => String.eqb (wt_path wt) p) (trees r);
     copyGitIgnoredFiles := fun src dst nm r => (O, r);
     findConfigFile := fun dir file r =>
       match config with
       | Some _ => if String.eqb file "wt.config.ts" then Some (root r ++ "/" ++ file) else None
       | None => None
       end;
     importConfig := fun p r =>
       match config with
       | Some c => Ok c
       | None => Fail (GenericError "Cannot find module")
       end |}.

(** Hook functions in the manner of the test-suite: they record their tag,
    and [boom] then throws. *)
Definition mark (tag : string) : @HookFunction Repo :=
  {| fnName := tag; fnBody := fun _ r => (Returns, note tag r) |}.

Definition boom (tag : string) (message : string) : @HookFunction Repo :=
  {| fnName := tag; fnBody := fun _ r => (Throws message, note tag r) |}.

Definition inlineOnly (hooks : @Hooks Repo) : @WtConfig Repo :=
  {| c_copyGitIgnoredFiles := None; c_copyNodeModules := None; c_worktreePath := None;
     c_plugins := None; c_hooks := Some hooks |}.

Definition only (h : HookName) (v : @HookValue Repo) : @Hooks Repo :=
  fun k =>
    match h, k with
    | beforeCreate, beforeCreate | afterCreate, afterCreate
    | beforeMerge, beforeMerge | afterMerge, afterMerge
    | beforeRemove, beforeRemove | afterRemove, afterRemove => Some v
    | _, _ => None
    end.

(** A hook for every event that records the event's name. *)
Definition tracing : @Hooks Repo :=
  fun k => Some (Single (ItemFunction (mark (hookNameText k)))).

(** /home/u/proj on [main], with a worktree /home/u/proj-feature-x on
    [feature-x], seen from that worktree. *)
Definition feature : Repo :=
  {| cwd := "/home/u/proj-feature-x";
     root := "/home/u/proj";
     inside := true;
     head := Some "feature-x";
     trunk := "main";
     trees := [mkWorktree "/home/u/proj" (Some "main") false;
               mkWorktree "/home/u/proj-feature-x" (Some "feature-x") false];
     heads := ["main"; "feature-x"];
     conflict := false; stuck := false; unmerged := false;
     journal := [] |}.

(** The same repository seen from the primary worktree. *)
Definition primary : Repo :=
  {| cwd := "/home/u/proj";
     root := "/home/u/proj";
     inside := true;
     head := Some "main";
     trunk := "main";
     trees := [mkWorktree "/home/u/proj" (Some "main") false];
     heads := ["main"];
     conflict := false; stuck := false; unmerged := false;
     journal := [] |}.

Definition conflicting (r : Repo) : Repo :=
  {| cwd := cwd r; root := root r; inside := inside r; head := head r; trunk := trunk r;
     trees := trees r; heads := heads r; conflict := true; stuck := stuck r;
     unmerged := unmerged r; journal := journal r |}.

Definition at_ (dir : string) (r : Repo) : Repo :=
  {| cwd := dir; root := root r; inside := inside r; head := head r; trunk := trunk r;
     trees := trees r; heads := heads r; conflict := conflict r; stuck := stuck r;
     unmerged := unmerged r; journal := journal r |}.

Definition ctx : HookContext :=
  {| repoRoot := "/test/repo"; defaultBranch := "main"; branchName := "feature-x";
     worktreePath := "/test/repo-feature-x"; sourceWorktree := Some "/test/repo";
     targetWorktree := None |}.

Definition noTTY : Terminal := {| isTTY := false; keypresses := []; reply := None |}.

(** A terminal whose operator presses the given keys and, asked to
    confirm, types the given line. *)
Definition operator (keys : list string) (answer : string) : Terminal :=
  {| isTTY := true;
     keypresses := map (fun k => Some (mkKey (Some k) false)) keys;
     reply := Some answer |}.

(** The repository with a second feature worktree, on [feature-y]. *)
Definition twoFeatures : Repo :=
  withTrees (trees feature ++ [mkWorktree "/home/u/proj-feature-y" (Some "feature-y") false])%list
            (heads feature ++ ["feature-y"])%list feature.

Definition plainMerge : MergeOptions := mkMergeOptions None.
Definition keepingMerge : MergeOptions := mkMergeOptions (Some true).

Definition byName (wanted : string) (forced : bool) : RemoveOptions :=
  mkRemoveOptions (Some wanted) (Some forced).

(** The platform without a configuration file, and with one whose inline
    hooks record every lifecycle event. *)
Definition bare : @Platform Repo := platform None.
Definition traced : @Platform Repo := platform (Some (inlineOnly tracing)).

Definition tracedConfig : @ResolvedConfig Repo := resolveConfig (inlineOnly tracing).

(** What loading the configuration logs from [dir], with and without a
    configuration file. *)
Definition found (dir : string) : list Event :=
  [EvFs (FindConfigFile dir "wt.config.ts"); EvFs (ImportModule "/home/u/proj/wt.config.ts")].

Definition missing (dir : string) : list Event :=
  [EvFs (FindConfigFile dir "wt.config.ts"); EvFs (FindConfigFile dir "wt.config.js");
   EvFs (FindConfigFile dir "wt.config.mjs")].

Definition mainTree : Worktree := mkWorktree "/home/u/proj" (Some "main") false.
Definition featureTree : Worktree :=
  mkWorktree "/home/u/proj-feature-x" (Some "feature-x") false.

(** The configuration of the runner test "stops array execution on
    command failure but continues to next hook". *)
Definition stopping : @ResolvedConfig Repo :=
  {| cfg_settings := defaultSettings;
     cfg_plugins :=
       [mkPlugin "test-plugin" (Some (only afterCreate (Single (ItemFunction (mark "plugin")))))];
     cfg_hooks :=
       only afterCreate
         (Sequence [ItemFunction (mark "before"); ItemCommand "exit 1";
                    ItemFunction (mark "after")]) |}.

(** The configuration of the runner test "continues running hooks even if
    one fails". *)
Definition failingFirst : @ResolvedConfig Repo :=
  {| cfg_settings := defaultSettings;
     cfg_plugins :=
       [mkPlugin "failing"
          (Some (only afterCreate (Single (ItemFunction (boom "failing" "Plugin failed")))));
        mkPlugin "success" (Some (only afterCreate (Single (ItemFunction (mark "success")))))];
     cfg_hooks := noHooks |}.

End Sim.

(* ------------------------------------------------------------------ *)
(** * Two sentences of the specification, read literally *)

(** Data model, HookValue: in a list, a function element that throws does
    not keep the elements after it from being executed. *)
Definition laterElementsSurviveThrow : Prop :=
  forall (World : Type) (platform : @Platform World)
         (items : list (@HookItem World)) (i j : nat) (f g : @HookFunction World)
         (ctx : HookContext) (label : string) (w w1 w2 : World) (t1 : list Event)
         (message : string),
    nth_error items i = Some (ItemFunction f) ->
    forEach (firstn i items) (fun item => executeHookItem item ctx) w = (Done tt, w1, t1) ->
    fnBody f ctx w1 = (Throws message, w2) ->
    (i < j)%nat ->
    nth_error items j = Some (ItemFunction g) ->
    In (fnName g) (callsOf (traceOf (executeHookValue (Sequence items) ctx label w))).

(** Testable properties, create path templating: with the template
    "../{repo}-{branch}", repository "proj" and branch "feature-x", the
    worktree path is fixed by the repository alone: it is the directory
    proj-feature-x in the repository's parent directory, or (the other way
    to read the sentence) "../proj-feature-x" resolved from that parent. *)
Definition createdBesideRepository : Prop :=
  forall (World : Type) (platform : @Platform World) (w : World)
         (config : @ResolvedConfig World) (loading : list Event),
    getRepoName w = "proj" ->
    loadConfig (processCwd w) w = (Done config, w, loading) ->
    s_worktreePath (cfg_settings config) = "../{repo}-{branch}" ->
    outcomeOf (createCommand "feature-x" w) = Done tt ->
    let parent := Path.dirname (getRepoRoot w) in
    stdoutLines (traceOf (createCommand "feature-x" w))
      = [Path.resolve parent "proj-feature-x"]
    \/ stdoutLines (traceOf (createCommand "feature-x" w))
      = [Path.resolve parent "../proj-feature-x"].

(* ------------------------------------------------------------------ *)
(** * Further vocabulary *)

Section Further.

Context {World : Type} {platform : @Platform World}.

(** ** The runner *)

(** [config] with another plugin list, and the same with no inline hooks. *)
Definition withPlugins (config : @ResolvedConfig World) (plugins : list (@WtPlugin World))
  : @ResolvedConfig World :=
  {| cfg_settings := cfg_settings config; cfg_plugins := plugins;
     cfg_hooks := cfg_hooks config |}.

Definition pluginsOnly (config : @ResolvedConfig World) (plugins : list (@WtPlugin World))
  : @ResolvedConfig World :=
  {| cfg_settings := cfg_settings config; cfg_plugins := plugins; cfg_hooks := noHooks |}.

(** A hook command is run in [dir]. *)
Definition runsIn (dir : string) (e : Event) : bool :=
  match e with
  | EvExec _ cwd => String.eqb cwd dir
  | _ => true
  end.

Definition isWarning (e : Event) : bool :=
  match e with
  | EvLog LWarn _ => true
  | _ => false
  end.

(** The names of the function elements of a hook list, in list order. *)
Definition functionNames (items : list (@HookItem World)) : list string :=
  flat_map (fun item => match item with
                        | ItemFunction f => [fnName f]
                        | ItemCommand _ => []
                        end) items.

(** ** The loader *)

(** [findConfigFile] came back empty-handed: [null], or a path that fails
    the [if (configPath)] test. *)
Definition notFound (found : option string) : Prop :=
  match found with
  | Some path => Js.truthy path = false
  | None => True
  end.

Definition lookups (startDir : string) (filenames : list string) : list Event :=
  map (fun filename => EvFs (FindConfigFile startDir filename)) filenames.


(** ** create *)

(** The worktree path [createCommand] computes. *)
Definition createTarget (w : World) (config : @ResolvedConfig World) (name : string) : string :=
  Path.resolve (processCwd w)
    (resolveWorktreePath (s_worktreePath (cfg_settings config)) (getRepoName w) name
       (Path.dirname (getRepoRoot w))).

(** A create invocation that gets as far as the collision check: inside a
    repository, with the configuration loaded. *)
Definition CreateReady (w : World) (config : @ResolvedConfig World) (loading : list Event)
  : Prop :=
  assertInsideGitRepo w = Ok tt
  /\ loadConfig (processCwd w) w = (Done config, w, loading).

(** Everything a create does up to and including the collision check. *)
Definition createPrelude (w : World) (config : @ResolvedConfig World) (loading : list Event)
  (name : string) : list Event :=
  (createReads ++ loading ++ [EvFs (ExistsSync (createTarget w config name))])%list.

(** What a create does to add the worktree, after the beforeCreate hooks
    have left the world [w1]. *)
Definition additionLog (w1 : World) (name target : string) : list Event :=
  [EvGit (BranchExists name);
   EvLog LInfo ("Creating worktree for branch " ++ Js.dquote ++ name ++ Js.dquote ++ "...");
   EvGit (CreateWorktree target name (negb (branchExists name w1)))].

(** ** Path templates *)

Fixpoint braceFree (s : string) : bool :=
  match s with
  | EmptyString => true
  | String c r => negb (Ascii.eqb c "{") && braceFree r
  end.

Fixpoint dollarFree (s : string) : bool :=
  match s with
  | EmptyString => true
  | String c r => negb (Ascii.eqb c "$") && dollarFree r
  end.

(** A worktree-path template taken apart: literal text and the three
    placeholders. *)
Inductive Piece : Type :=
  | Lit (text : string)
  | RepoSlot
  | BranchSlot
  | ParentSlot.

Definition pieceText (p : Piece) : string :=
  match p with
  | Lit text => text
  | RepoSlot => "{repo}"
  | BranchSlot => "{branch}"
  | ParentSlot => "{parent}"
  end.

Fixpoint templateOf (pieces : list Piece) : string :=
  match pieces with
  | [] => EmptyString
  | p :: rest => pieceText p ++ templateOf rest
  end.

Definition literal (p : Piece) : bool :=
  match p with Lit text => braceFree text | _ => true end.

Definition fill (repo branch parent : string) (p : Piece) : string :=
  match p with
  | Lit text => text
  | RepoSlot => repo
  | BranchSlot => branch
  | ParentSlot => parent
  end.

Fixpoint filled (repo branch parent : string) (pieces : list Piece) : string :=
  match pieces with
  | [] => EmptyString
  | p :: rest => fill repo branch parent p ++ filled repo branch parent rest
  end.

Definition isSlot (p : Piece) : bool :=
  match p with Lit _ => false | _ => true end.

Definition samePiece (p q : Piece) : bool :=
  match p, q with
  | RepoSlot, RepoSlot | BranchSlot, BranchSlot | ParentSlot, ParentSlot => true
  | _, _ => false
  end.

(** One pass of [replace]: every occurrence of one placeholder becomes
    literal text. *)
Definition instantiate (slot : Piece) (value : string) (p : Piece) : Piece :=
  if samePiece slot p then Lit value else p.

(** ** remove *)

(** The hook context of a removal. *)
Definition removeContext (w : World) (worktree : Worktree) : HookContext :=
  {| repoRoot := getRepoRoot w;
     defaultBranch := getDefaultBranch w;
     branchName := orElse (wt_branch worktree) "";
     worktreePath := wt_path worktree;
     sourceWorktree := None;
     targetWorktree := None |}.

(** The operator has committed to the removal: with the force flag, or by
    answering the confirmation prompt on a terminal with [y] or [Y]. *)
Definition decided (options : RemoveOptions) (tty : Terminal) : Prop :=
  orElse (force options) false = true
  \/ (isTTY tty = true
      /\ exists answer, reply tty = Some answer /\ Js.toLowerCase answer = "y").

(** What is shown to the operator on the way to a removal that goes
    ahead. *)
Definition confirmation (options : RemoveOptions) (worktree : Worktree) : list Event :=
  if orElse (force options) false then []
  else [EvPrompt ("Remove worktree '" ++ orElse (wt_branch worktree) "(detached)"
                    ++ "' at " ++ wt_path worktree ++ "? (y/N) ")].

(** A worktree removal or branch deletion is aimed at [worktree] when it
    names that worktree's path, or its branch; no other operation of the
    version-control system is. *)
Definition aimedAt (worktree : Worktree) (e : Event) : bool :=
  match e with
  | EvGit (RemoveWorktree path) => String.eqb path (wt_path worktree)
  | EvGit (DeleteBranch branch) => branchIs (wt_branch worktree) branch
  | EvGit (CreateWorktree _ _ _) | EvGit (MergeBranch _ _) => false
  | _ => true
  end.

(** Anything that changes the repository or runs user code. *)
Definition isIntervention (e : Event) : bool := isVcsOperation e || isHookActivity e.

Definition isStdout (e : Event) : bool :=
  match e with EvStdout _ => true | _ => false end.

(** A remove invocation that gets as far as the removal itself. *)
Definition RemoveReady (options : RemoveOptions) (tty : Terminal) (w : World)
  (worktree : Worktree) (choosing : list Event) (config : @ResolvedConfig World)
  (loading : list Event) : Prop :=
  assertInsideGitRepo w = Ok tt
  /\ resolveTarget options tty (getDefaultBranch w) w = (Done (Some worktree), w, choosing)
  /\ branchIs (wt_branch worktree) (getDefaultBranch w) = false
  /\ decided options tty
  /\ loadConfig (processCwd w) w = (Done config, w, loading).

(** Everything a remove does up to and including the removal call. *)
Definition removePrelude (options : RemoveOptions) (w : World) (worktree : Worktree)
  (choosing : list Event) (config : @ResolvedConfig World) (loading : list Event)
  : list Event :=
  (removeReads ++ choosing ++ confirmation options worktree ++ loading
   ++ traceOf (runHooks beforeRemove config (removeContext w worktree) w)
   ++ [EvLog LInfo ("Removing worktree at " ++ wt_path worktree ++ "...");
       EvGit (RemoveWorktree (wt_path worktree))])%list.

(** Lines 91-98 of [removeCommand]: the branch of the removed worktree is
    deleted when it has one, and a failure to do so is only a warning. *)
Definition branchCleanup (worktree : Worktree) (w1 : World) : World * list Event :=
  match wt_branch worktree with
  | Some branch =>
      if Js.truthy branch
      then
        let deleted := deleteBranch branch w1 in
        (snd deleted,
         ([EvLog LInfo ("Deleting branch " ++ branch ++ "...");
           EvGit (DeleteBranch branch)]
          ++ (if negb (exitCode (fst deleted) =? 0)%Z
              then [EvLog LWarn ("Could not delete branch: " ++ stderr (fst deleted))]
              else []))%list)
      else (w1, [])
  | None => (w1, [])
  end.

Definition isDeletion (e : Event) : bool :=
  match e with EvGit (DeleteBranch _) => true | _ => false end.

(** A run that prints [lines] on the success channel when it returns
    normally, and nothing when it does not. *)
Definition announces {A} (lines : list string) (r : @Run World A) : Prop :=
  stdoutLines (traceOf r) = match outcomeOf r with Done _ => lines | _ => [] end.

(** A name that neither the path machinery nor the template machinery
    treats specially: a plain directory name without [$] or [{]. *)
Definition ordinary (s : string) : bool :=
  Path.plain s && dollarFree s && braceFree s.

End Further.

(* ------------------------------------------------------------------ *)
(** * The version-control client (src/core/git.ts)

    The functions of the client that the commands call to list and look up
    worktrees, over the [exec] wrapper that runs a shell command and
    returns its trimmed output and exit code. *)

Module Git.

(** [s.replace(pat, '')] for a string pattern: the first occurrence of
    [pat] is removed. *)
Fixpoint removeFirst (pat s : string) : string :=
  if String.prefix pat s then Js.drop (String.length pat) s
  else match s with
       | EmptyString => EmptyString
       | String c r => String c (removeFirst pat r)
       end.

(** [Partial<Worktree>]: the entry being read.  A branch can be unset,
    [null] or a name. *)
Record Partial : Type := mkPartial
  { p_path : option string;
    p_branch : option (option string);
    p_isDetached : option bool }.

Definition empty : Partial :=
  {| p_path := None; p_branch := None; p_isDetached := None |}.

(** [if (current.path) worktrees.push({...})]: an entry counts once it has
    a path that is not empty; a branch that was never set reads as [null],
    a detached flag that was never set as [false]. *)
Definition pushed (current : Partial) : list Worktree :=
  match p_path current with
  | Some path =>
      if Js.truthy path
      then [{| wt_path := path;
               wt_branch := orElse (p_branch current) None;
               wt_isDetached := orElse (p_isDetached current) false |}]
      else []
  | None => []
  end.

(** The body of the loop over the lines of the porcelain listing. *)
Definition readLine (state : list Worktree * Partial) (line : string)
  : list Worktree * Partial :=
  let worktrees := fst state in
  let current := snd state in
  if String.prefix "worktree " line
  then (worktrees,
        {| p_path := Some (Js.drop 9 line);
           p_branch := p_branch current;
           p_isDetached := p_isDetached current |})
  else if String.prefix "branch " line
  then (worktrees,
        {| p_path := p_path current;
           p_branch := Some (Some (removeFirst "refs/heads/" (Js.drop 7 line)));
           p_isDetached := Some false |})
  else if String.eqb line "detached"
  then (worktrees,
        {| p_path := p_path current;
           p_branch := Some None;
           p_isDetached := Some true |})
  else if String.eqb line ""
  then ((worktrees ++ pushed current)%list, empty)
  else state.

(** Lines 269-302 of [listWorktrees]: the listing is read line by line,
    and the entry still open at the end is pushed too. *)
Definition readListing (listing : string) : list Worktree :=
  let final := fold_left readLine (Js.lines listing) ([], empty) in
  (fst final ++ pushed (snd final))%list.

Section Client.

Context {World : Type}.

(** [exec(command, { cwd })] *)
Variable exec : string -> option string -> World -> ExecResult * World.

Definition listWorktrees (w : World) : list Worktree * World :=
  let result := exec "git worktree list --porcelain" None w in
  if negb (exitCode (fst result) =? 0)%Z then ([], snd result)
  else (readListing (stdout (fst result)), snd result).

Definition findWorktreeByBranch (branchName : string) (w : World)
  : option Worktree * World :=
  let listed := listWorktrees w in
  (find (fun wt => branchIs (wt_branch wt) branchName) (fst listed), snd listed).

End Client.

(** What [git worktree list --porcelain] prints for one worktree: its
    path, the commit it is at, and the branch it has checked out or the
    word [detached]. *)
Inductive Checkout : Type :=
  | OnBranch (name : string)
  | DetachedHead.

Record Entry : Type := mkEntry
  { e_path : string; e_commit : string; e_checkout : Checkout }.

Definition entryLines (e : Entry) : list string :=
  ["worktree " ++ e_path e;
   "HEAD " ++ e_commit e;
   match e_checkout e with
   | OnBranch name => "branch refs/heads/" ++ name
   | DetachedHead => "detached"
   end].

(** The lines of a listing: the entries, with an empty line between one
    and the next. *)
Fixpoint listingLines (entries : list Entry) : list string :=
  match entries with
  | [] => []
  | [e] => entryLines e
  | e :: rest => (entryLines e ++ "" :: listingLines rest)%list
  end.

Definition porcelain (entries : list Entry) : string :=
  Js.join Js.newline (listingLines entries).

(** The worktree an entry describes. *)
Definition described (e : Entry) : Worktree :=
  match e_checkout e with
  | OnBranch name => {| wt_path := e_path e; wt_branch := Some name; wt_isDetached := false |}
  | DetachedHead => {| wt_path := e_path e; wt_branch := None; wt_isDetached := true |}
  end.

Fixpoint lineFree (s : string) : bool :=
  match s with
  | EmptyString => true
  | String c r => negb (Ascii.eqb c "010") && lineFree r
  end.

(** An entry as git prints it: a path that is not empty, and no line
    break inside the path, the commit or the branch name. *)
Definition wellFormed (e : Entry) : bool :=
  Js.truthy (e_path e) && lineFree (e_path e) && lineFree (e_commit e)
  && match e_checkout e with OnBranch name => lineFree name | DetachedHead => true end.

(** The entry left open after the lines of [e] have been read. *)
Definition opened (e : Entry) : Partial :=
  match e_checkout e with
  | OnBranch name =>
      {| p_path := Some (e_path e); p_branch := Some (Some name);
         p_isDetached := Some false |}
  | DetachedHead =>
      {| p_path := Some (e_path e); p_branch := Some None;
         p_isDetached := Some true |}
  end.

End Git.

(* ------------------------------------------------------------------ *)
(** * The configuration lookup (src/core/files.ts) *)

Module Files.

Section Lookup.

Context {World : Type}.

(** [fs.existsSync] and [path.join]. *)
Variable existsSync : string -> World -> bool.
Variable join : string -> string -> string.

(** The loop of [findConfigFile], for at most [fuel] directories; the
    outer [None] means the loop was still running when they ran out. *)
Fixpoint findUp (fuel : nat) (currentDir filename : string) (w : World)
  : option (option string) :=
  match fuel with
  | O => None
  | S remaining =>
      let configPath := join currentDir filename in
      if existsSync configPath w then Some (Some configPath)
      else
        let parentDir := Path.dirname currentDir in
        if String.eqb parentDir currentDir then Some None
        else findUp remaining parentDir filename w
  end.

(** [findConfigFile]: a directory name of n characters has fewer than
    n + 2 ancestors. *)
Definition findConfigFile (startDir filename : string) (w : World)
  : option (option string) :=
  findUp (2 + String.length startDir) startDir filename w.

End Lookup.

(** The directories [findConfigFile] visits from /a/b/c: /a/b/c, /a/b,
    /a and /.  [segsRev] holds the names innermost first. *)
Fixpoint ancestors (segsRev : list string) : list string :=
  match segsRev with
  | [] => [Path.absolute []]
  | _ :: outer => Path.absolute (rev segsRev) :: ancestors outer
  end.

End Files.

(* ------------------------------------------------------------------ *)
(** * Text as JavaScript measures it *)

Module Text.

(** The UTF-16 code units that a byte of UTF-8 text stands for: a
    continuation byte for none, the first byte of a four-byte sequence for
    two, any other byte for one. *)
Definition unitsOf (c : ascii) : nat :=
  let n := nat_of_ascii c in
  if (n <? 128)%nat then 1
  else if (n <? 192)%nat then 0
  else if (n <? 240)%nat then 1
  else 2.

(** [s.length] *)
Fixpoint length (s : string) : nat :=
  match s with
  | EmptyString => 0
  | String c r => unitsOf c + length r
  end.

(** [s.repeat(n)] *)
Fixpoint repeat (s : string) (n : nat) : string :=
  match n with
  | O => EmptyString
  | S k => s ++ repeat s k
  end.

(** [s.padEnd(n)]: spaces are added up to the length [n]; a string that is
    already as long is returned as it is. *)
Definition padEnd (s : string) (n : nat) : string :=
  s ++ repeat " " (n - length s).

(** [Math.max(first, ...rest)] *)
Definition maxOf (first : nat) (rest : list nat) : nat := fold_left Nat.max rest first.

End Text.

(* ------------------------------------------------------------------ *)
(** * search (src/commands/search.ts) *)

Module Search.

Section Command.

Context {World : Type} {platform : @Platform World}.

Local Notation "x <- m ;; k" := (bind m (fun x => k))
  (at level 61, m at next level, right associativity).
Local Notation "m ;; k" := (bind m (fun _ => k))
  (at level 61, right associativity).

Record Choice : Type := mkChoice
  { ch_index : nat; ch_path : string; ch_branch : string; ch_display : string }.

Definition choiceOf (index : nat) (wt : Worktree) : Choice :=
  let branch :=
    if wt_isDetached wt then "(detached)" else orElse (wt_branch wt) "(unknown)" in
  {| ch_index := index; ch_path := wt_path wt; ch_branch := branch;
     ch_display := wt_path wt ++ "  " ++ branch |}.

(** [worktrees.map((wt, index) => ...)] *)
Definition choicesOf (worktrees : list Worktree) : list Choice :=
  map (fun entry => choiceOf (fst entry) (snd entry))
      (combine (seq 0 (length worktrees)) worktrees).

Definition render (choices : list Choice) (selectedIndex : nat) : @M World unit :=
  consoleError clearScreen ;;
  consoleError ("Select a worktree (↑/↓ to move, Enter to select, q to quit):"
                  ++ Js.newline) ;;
  forEach (combine (seq 0 (length choices)) choices) (fun entry =>
    let i := fst entry in
    let choice := snd entry in
    let prefix :=
      if (i =? selectedIndex)%nat then Js.esc ++ "[36m❯" ++ Js.esc ++ "[0m " else "  " in
    let highlight :=
      if (i =? selectedIndex)%nat then Js.esc ++ "[36m" else Js.esc ++ "[90m" in
    consoleError (prefix ++ highlight ++ ch_display choice ++ Js.esc ++ "[0m")).

(** The [keypress] listener, run over the keys the operator presses; the
    promise stays unsettled when they run out.  [choices[selectedIndex]] is
    undefined outside the list. *)
Fixpoint onKeypress (choices : list Choice) (selectedIndex : nat)
  (keys : list (option Key)) : @M World (option Choice) :=
  match keys with
  | [] => pending
  | None :: rest => onKeypress choices selectedIndex rest
  | Some key :: rest =>
      if keyIs key "up" || (keyCtrl key && keyIs key "p")
      then
        let moved := ((selectedIndex + length choices - 1) mod length choices)%nat in
        render choices moved ;;
        onKeypress choices moved rest
      else if keyIs key "down" || (keyCtrl key && keyIs key "n")
      then
        let moved := ((selectedIndex + 1) mod length choices)%nat in
        render choices moved ;;
        onKeypress choices moved rest
      else if keyIs key "return"
      then
        cleanup ;;
        ret (nth_error choices selectedIndex)
      else if keyIs key "q" || keyIs key "escape" || (keyCtrl key && keyIs key "c")
      then
        cleanup ;;
        ret None
      else onKeypress choices selectedIndex rest
  end.

Definition interactiveSelect (tty : Terminal) (choices : list Choice)
  : @M World (option Choice) :=
  if negb (isTTY tty)
  then
    forEach choices (fun choice =>
      consoleError (showNat (ch_index choice + 1) ++ ". " ++ ch_display choice)) ;;
    consoleError (Js.newline ++ "No TTY available for interactive selection") ;;
    ret None
  else
    emit (EvRawMode true) ;;
    render choices 0 ;;
    onKeypress choices 0 (keypresses tty).

Definition searchCommand (tty : Terminal) : @M World unit :=
  attempt (EvGit AssertInsideGitRepo) assertInsideGitRepo ;;
  worktrees <- read (EvGit ListWorktrees) listWorktrees ;;
  match worktrees with
  | [] => consoleError "No worktrees found"
  | _ =>
      let choices := choicesOf worktrees in
      match choices with
      | [only] => consoleLog (ch_path only)
      | _ =>
          selected <- interactiveSelect tty choices ;;
          match selected with
          | Some choice => consoleLog (ch_path choice)
          | None => ret tt
          end
      end
  end.

End Command.

End Search.

(* ------------------------------------------------------------------ *)
(** * list and status (src/commands/list.ts, src/commands/status.ts) *)

Module Report.

Section Commands.

Context {World : Type} {platform : @Platform World}.

Local Notation "x <- m ;; k" := (bind m (fun x => k))
  (at level 61, m at next level, right associativity).
Local Notation "m ;; k" := (bind m (fun _ => k))
  (at level 61, right associativity).

(** The queries of src/core/git.ts that only the two reports use: the
    root of the worktree the process is in, the number of uncommitted
    changes in a worktree, and how many commits a branch is ahead of and
    behind a base branch. *)
Class Inspection : Type := mkInspection
  { getCurrentWorktreePath : World -> Attempt string;
    getUncommittedCount : string -> World -> nat;
    getAheadBehind : string -> string -> string -> World -> nat * nat }.

Context {inspection : Inspection}.

(** A repository query that leaves no mark in the trace. *)
Definition query {A} (f : World -> A) : @M World A := fun w => (Done (f w), w, []).

Definition queryOrThrow {A} (f : World -> Attempt A) : @M World A := fun w =>
  match f w with
  | Ok a => (Done a, w, [])
  | Fail e => (Raised e, w, [])
  end.

(** ** list *)

Record WorktreeInfo : Type := mkInfo
  { i_branch : option string;
    i_path : string;
    i_isCurrent : bool;
    i_isDefault : bool;
    i_ahead : nat;
    i_behind : nat;
    i_uncommitted : nat }.

Definition infoOf (defaultBranch currentPath : string) (w : World) (wt : Worktree)
  : WorktreeInfo :=
  let isCurrent := String.eqb (wt_path wt) currentPath in
  let isDefault := branchIs (wt_branch wt) defaultBranch in
  let aheadBehind :=
    match wt_branch wt with
    | Some branch =>
        if Js.truthy branch && negb isDefault
        then getAheadBehind branch defaultBranch (wt_path wt) w
        else (0, 0)
    | None => (0, 0)
    end in
  {| i_branch := wt_branch wt;
     i_path := wt_path wt;
     i_isCurrent := isCurrent;
     i_isDefault := isDefault;
     i_ahead := fst aheadBehind;
     i_behind := snd aheadBehind;
     i_uncommitted := getUncommittedCount (wt_path wt) w |}.

Definition getWorktreeList : @M World (list WorktreeInfo) :=
  attempt (EvGit AssertInsideGitRepo) assertInsideGitRepo ;;
  worktrees <- read (EvGit ListWorktrees) listWorktrees ;;
  defaultBranch <- read (EvGit GetDefaultBranch) getDefaultBranch ;;
  currentPath <- queryOrThrow getCurrentWorktreePath ;;
  query (fun w => map (infoOf defaultBranch currentPath w) worktrees).

Definition formatStatus (info : WorktreeInfo) : string :=
  let aheadBehind :=
    ((if (0 <? i_ahead info)%nat then [(showNat (i_ahead info) ++ " ahead")%string] else [])
     ++ (if (0 <? i_behind info)%nat then [(showNat (i_behind info) ++ " behind")%string] else []))%list in
  let parts :=
    ((if i_isDefault info then ["(default)"] else [])
     ++ (if (0 <? i_ahead info)%nat || (0 <? i_behind info)%nat
         then [Js.join ", " aheadBehind] else [])
     ++ (if (0 <? i_uncommitted info)%nat
         then [(showNat (i_uncommitted info) ++ " uncommitted")%string] else []))%list in
  Js.join " " parts.

Definition label (branch : option string) : string := orElse branch "(detached)".

(** [Math.max(...xs)] of a list that is not empty. *)
Definition maxAll (xs : list nat) : nat := fold_right Nat.max 0 xs.

Definition listRow (branchWidth pathWidth : nat) (wt : WorktreeInfo) : string :=
  let marker := if i_isCurrent wt then "*" else " " in
  let branch := Text.padEnd (label (i_branch wt)) branchWidth in
  let path := Text.padEnd (i_path wt) pathWidth in
  let status := formatStatus wt in
  marker ++ " " ++ branch ++ "  " ++ path ++ "  " ++ status.

Definition listCommand : @M World unit :=
  worktrees <- getWorktreeList ;;
  match worktrees with
  | [] => consoleLog "No worktrees found"
  | _ =>
      let branchWidth := maxAll (map (fun wt => Text.length (label (i_branch wt))) worktrees) in
      let pathWidth := maxAll (map (fun wt => Text.length (i_path wt)) worktrees) in
      forEach worktrees (fun wt => consoleLog (listRow branchWidth pathWidth wt))
  end.

(** ** status *)

Record WorktreeStatus : Type := mkStatus
  { st_branch : string; st_path : string; st_status : string; st_isCurrent : bool }.

Definition statusOf (defaultBranch currentPath : string) (w : World) (wt : Worktree)
  : WorktreeStatus :=
  let branch := label (wt_branch wt) in
  let isCurrent := String.eqb (wt_path wt) currentPath in
  let isDefault := branchIs (wt_branch wt) defaultBranch in
  let uncommitted := getUncommittedCount (wt_path wt) w in
  let modified :=
    if (0 <? uncommitted)%nat then [(showNat uncommitted ++ " modified")%string] else [] in
  let aheadBehind :=
    match wt_branch wt with
    | Some name =>
        if Js.truthy name && negb isDefault
        then
          let counts := getAheadBehind name defaultBranch (wt_path wt) w in
          ((if (0 <? fst counts)%nat then [(showNat (fst counts) ++ " ahead")%string] else [])
           ++ (if (0 <? snd counts)%nat then [(showNat (snd counts) ++ " behind")%string] else []))%list
        else []
    | None => []
    end in
  let statusParts := (modified ++ aheadBehind)%list in
  let status :=
    if (0 <? length statusParts)%nat then Js.join ", " statusParts else "clean" in
  {| st_branch := branch; st_path := wt_path wt; st_status := status;
     st_isCurrent := isCurrent |}.

Definition hr (branchCol pathCol statusCol : nat) (left mid right : string) : string :=
  left ++ Text.repeat "─" (branchCol + 2) ++ mid ++ Text.repeat "─" (pathCol + 2)
    ++ mid ++ Text.repeat "─" (statusCol + 2) ++ right.

Definition headerRow (branchCol pathCol statusCol : nat) : string :=
  "│ " ++ Text.padEnd "Branch" branchCol ++ " │ " ++ Text.padEnd "Path" pathCol
    ++ " │ " ++ Text.padEnd "Status" statusCol ++ " │".

Definition statusRow (branchCol pathCol statusCol : nat) (s : WorktreeStatus) : string :=
  let marker := if st_isCurrent s then "*" else " " in
  let branch := Text.padEnd (marker ++ st_branch s) branchCol in
  let path := Text.padEnd (st_path s) pathCol in
  let status := Text.padEnd (st_status s) statusCol in
  "│ " ++ branch ++ " │ " ++ path ++ " │ " ++ status ++ " │".

Definition statusCommand : @M World unit :=
  attempt (EvGit AssertInsideGitRepo) assertInsideGitRepo ;;
  repoName <- read (EvGit GetRepoName) getRepoName ;;
  defaultBranch <- read (EvGit GetDefaultBranch) getDefaultBranch ;;
  worktrees <- read (EvGit ListWorktrees) listWorktrees ;;
  currentPath <- queryOrThrow getCurrentWorktreePath ;;
  consoleLog ("Repository: " ++ repoName) ;;
  consoleLog ("Default branch: " ++ defaultBranch ++ " (" ++ showNat (length worktrees)
                ++ " worktree" ++ (if (length worktrees =? 1)%nat then "" else "s") ++ ")") ;;
  consoleLog "" ;;
  match worktrees with
  | [] => consoleLog "No worktrees found"
  | _ =>
      statuses <- query (fun w => map (statusOf defaultBranch currentPath w) worktrees) ;;
      let branchCol := Text.maxOf 6 (map (fun s => Text.length (st_branch s)) statuses) in
      let pathCol := Text.maxOf 4 (map (fun s => Text.length (st_path s)) statuses) in
      let statusCol := Text.maxOf 6 (map (fun s => Text.length (st_status s)) statuses) in
      consoleLog (hr branchCol pathCol statusCol "┌" "┬" "┐") ;;
      consoleLog (headerRow branchCol pathCol statusCol) ;;
      consoleLog (hr branchCol pathCol statusCol "├" "┼" "┤") ;;
      forEach statuses (fun s => consoleLog (statusRow branchCol pathCol statusCol s)) ;;
      consoleLog (hr branchCol pathCol statusCol "└" "┴" "┘")
  end.

End Commands.

(** The width of the status table: the three columns, a space on either
    side of each, and the four vertical rules. *)
Definition tableWidth (branchCol pathCol statusCol : nat) : nat :=
  branchCol + pathCol + statusCol + 10.

End Report.

(** Further fixtures on the simulated repository. *)
Module Fixtures.

Import Sim.

(** A platform like [base] whose version-control system refuses to add
    worktrees. *)
Definition refusing (base : @Platform Repo) : @Platform Repo :=
  {| processCwd := @processCwd Repo base;
     assertInsideGitRepo := @assertInsideGitRepo Repo base;
     getRepoRoot := @getRepoRoot Repo base;
     getRepoName := @getRepoName Repo base;
     getCurrentBranch := @getCurrentBranch Repo base;
     getDefaultBranch := @getDefaultBranch Repo base;
     getMainWorktree := @getMainWorktree Repo base;
     listWorktrees := @listWorktrees Repo base;
     findWorktreeByBranch := @findWorktreeByBranch Repo base;
     branchExists := @branchExists Repo base;
     createWorktree := fun _ b _ r =>
       (failResult 128 ("fatal: invalid reference: " ++ b), r);
     mergeBranch := @mergeBranch Repo base;
     removeWorktree := @removeWorktree Repo base;
     deleteBranch := @deleteBranch Repo base;
     execAsync := @execAsync Repo base;
     existsSync := @existsSync Repo base;
     copyGitIgnoredFiles := @copyGitIgnoredFiles Repo base;
     findConfigFile := @findConfigFile Repo base;
     importConfig := @importConfig Repo base |}.

(** A platform like [base] with a configuration file under the name
    [filename] in the repository root; importing it yields [outcome]. *)
Definition configured (filename : string) (outcome : Attempt (@WtConfig Repo))
  (base : @Platform Repo) : @Platform Repo :=
  {| processCwd := @processCwd Repo base;
     assertInsideGitRepo := @assertInsideGitRepo Repo base;
     getRepoRoot := @getRepoRoot Repo base;
     getRepoName := @getRepoName Repo base;
     getCurrentBranch := @getCurrentBranch Repo base;
     getDefaultBranch := @getDefaultBranch Repo base;
     getMainWorktree := @getMainWorktree Repo base;
     listWorktrees := @listWorktrees Repo base;
     findWorktreeByBranch := @findWorktreeByBranch Repo base;
     branchExists := @branchExists Repo base;
     createWorktree := @createWorktree Repo base;
     mergeBranch := @mergeBranch Repo base;
     removeWorktree := @removeWorktree Repo base;
     deleteBranch := @deleteBranch Repo base;
     execAsync := @execAsync Repo base;
     existsSync := @existsSync Repo base;
     copyGitIgnoredFiles := @copyGitIgnoredFiles Repo base;
     findConfigFile := fun dir file r =>
       if String.eqb file filename then Some (root r ++ "/" ++ file) else None;
     importConfig := fun _ _ => outcome |}.


(** A configuration file under the second of the three names. *)
Definition javascript : @Platform Repo :=
  configured "wt.config.js" (Ok (inlineOnly tracing)) bare.

(** A configuration that places worktrees beside the repository root. *)
Definition beside : @WtConfig Repo :=
  {| c_copyGitIgnoredFiles := None; c_copyNodeModules := None;
     c_worktreePath := Some "{parent}/{repo}-{branch}";
     c_plugins := None; c_hooks := None |}.

Definition stuckTree (r : Repo) : Repo :=
  {| cwd := cwd r; root := root r; inside := inside r; head := head r; trunk := trunk r;
     trees := trees r; heads := heads r; conflict := conflict r; stuck := true;
     unmerged := unmerged r; journal := journal r |}.

Definition featureY : Worktree :=
  mkWorktree "/home/u/proj-feature-y" (Some "feature-y") false.

Definition interactive : RemoveOptions := mkRemoveOptions None None.

(** Two hook functions around a command, as in the runner's tests. *)
Definition twoMarks : list (@HookItem Repo) :=
  [ItemFunction (mark "first"); ItemFunction (mark "second")].

(** A shell whose git prints the porcelain listing of [entries]. *)
Definition listing (entries : list Git.Entry)
  : string -> option string -> unit -> ExecResult * unit :=
  fun _ _ w => ({| stdout := Git.porcelain entries; stderr := ""; exitCode := 0 |}, w).

Definition twoEntries : list Git.Entry :=
  [Git.mkEntry "/home/u/proj" "1a2b3c4" (Git.OnBranch "main");
   Git.mkEntry "/home/u/proj-fix" "5d6e7f8" Git.DetachedHead].

(** A file system given by the list of the paths that exist. *)
Definition present (path : string) (files : list string) : bool :=
  existsb (String.eqb path) files.

(** [path.join] of a normalised absolute directory and a plain name. *)
Definition joinPlain (dir name : string) : string :=
  if String.eqb dir "/" then "/" ++ name else dir ++ "/" ++ name.



(** What the reports are told about the simulated repository: the process
    is in the worktree it was started in, the worktree of [feature-x] has two
    uncommitted changes, and [feature-x] is three commits ahead of the
    default branch. *)
Definition inspecting : @Report.Inspection Repo :=
  {| Report.getCurrentWorktreePath := fun r => Ok (cwd r);
     Report.getUncommittedCount := fun path _ =>
       if String.eqb path "/home/u/proj-feature-x" then 2 else 0;
     Report.getAheadBehind := fun branch _ _ _ =>
       if String.eqb branch "feature-x" then (3, 0) else (0, 0) |}.

End Fixtures.

(* ------------------------------------------------------------------ *)
(** * Properties *)

Section Properties.

Context {World : Type} {platform : @Platform World}.

Local Abbreviation Run := (@Run World).
Local Abbreviation M := (@M World).

(** ** Running a sequence of steps *)

Lemma run_eta {A} (r : Run A) : r = (outcomeOf r, worldOf r, traceOf r).
Proof. destruct r as [[o w] t]; reflexivity. Qed.

Lemma prefixed_triple {A} (t t' : list Event) (o : Outcome A) (w : World) :
  prefixed t (o, w, t') = (o, w, t ++ t')%list.
Proof. reflexivity. Qed.

Lemma prefixed_nil {A} (r : Run A) : prefixed [] r = r.
Proof. destruct r as [[o w] t]; reflexivity. Qed.

Lemma prefixed_prefixed {A} (t1 t2 : list Event) (r : Run A) :
  prefixed t1 (prefixed t2 r) = prefixed (t1 ++ t2) r.
Proof. unfold prefixed; cbn; now rewrite app_assoc. Qed.

Lemma bind_done A B (m : M A) (k : A -> M B) w a w1 t1 (E : m w = (Done a, w1, t1)) :
  bind m k w = prefixed t1 (k a w1).
Proof.
  unfold bind, prefixed; rewrite E.
  destruct (k a w1) as [[o w2] t2]; reflexivity.
Qed.

Lemma bind_raised A B (m : M A) (k : A -> M B) w e w1 t1 (E : m w = (Raised e, w1, t1)) :
  bind m k w = (Raised e, w1, t1).
Proof. unfold bind; now rewrite E. Qed.

Lemma bind_pending A B (m : M A) (k : A -> M B) w w1 t1 (E : m w = (Pending, w1, t1)) :
  bind m k w = (Pending, w1, t1).
Proof. unfold bind; now rewrite E. Qed.

Lemma bind_ret {A B} (a : A) (k : A -> M B) w : bind (ret a) k w = k a w.
Proof. unfold bind, ret. destruct (k a w) as [[o w2] t2]; reflexivity. Qed.

Lemma bind_emit {B} (e : Event) (k : unit -> M B) w :
  bind (emit e) k w = prefixed [e] (k tt w).
Proof. now apply bind_done. Qed.

Lemma bind_getCwd {B} (k : string -> M B) w : bind getCwd k w = k (processCwd w) w.
Proof. unfold bind, getCwd. destruct (k (processCwd w) w) as [[o w2] t2]; reflexivity. Qed.

Lemma bind_read {A B} (call : Event) (f : World -> A) (k : A -> M B) w :
  bind (read call f) k w = prefixed [call] (k (f w) w).
Proof. now apply bind_done. Qed.

Lemma bind_attempt_ok A B (call : Event) (f : World -> Attempt A) (k : A -> M B) w a
  (E : f w = Ok a) :
  bind (attempt call f) k w = prefixed [call] (k a w).
Proof. apply bind_done; unfold attempt; now rewrite E. Qed.

Lemma bind_attempt_fail A B (call : Event) (f : World -> Attempt A) (k : A -> M B) w e
  (E : f w = Fail e) :
  bind (attempt call f) k w = (Raised e, w, [call]).
Proof. apply bind_raised; unfold attempt; now rewrite E. Qed.

Lemma bind_act {A B} (call : Event) (f : World -> A * World) (k : A -> M B) w :
  bind (act call f) k w = prefixed [call] (k (fst (f w)) (snd (f w))).
Proof. apply bind_done; unfold act; now destruct (f w). Qed.

Lemma bind_throw {A B} (e : Exn) (k : A -> M B) w : bind (throw e) k w = (Raised e, w, []).
Proof. reflexivity. Qed.

Lemma bind_total {B} (m : M unit) (k : unit -> M B) w :
  outcomeOf (m w) = Done tt ->
  bind m k w = prefixed (traceOf (m w)) (k tt (worldOf (m w))).
Proof. intros E; apply bind_done; rewrite (run_eta (m w)); now rewrite E. Qed.

Lemma forEach_emit {A} (xs : list A) (ev : A -> Event) (w : World) :
  forEach xs (fun x => emit (ev x)) w = (Done tt, w, map ev xs).
Proof.
  revert w; induction xs as [|x xs IH]; intros w; [reflexivity|].
  cbn [forEach map]; rewrite bind_emit, IH; reflexivity.
Qed.

(** ** Nothing in the runner waits for input *)

Lemma settling_ret {A} (a : A) : settling (@ret World A a).
Proof. intros w; discriminate. Qed.

Lemma settling_throw {A} (e : Exn) : settling (@throw World A e).
Proof. intros w; discriminate. Qed.

Lemma settling_emit (e : Event) : settling (@emit World e).
Proof. intros w; discriminate. Qed.

Lemma settling_act {A} call (f : World -> A * World) : settling (act call f).
Proof. intros w; unfold act; destruct (f w); discriminate. Qed.

Lemma settling_bind {A B} (m : M A) (k : A -> M B) :
  settling m -> (forall a, settling (k a)) -> settling (bind m k).
Proof.
  intros Hm Hk w; specialize (Hm w); unfold bind.
  destruct (m w) as [[[a|e|] w1] t1]; cbn in *; try congruence.
  specialize (Hk a w1); destruct (k a w1) as [[o w2] t2]; exact Hk.
Qed.

Lemma settling_forEach {A} (xs : list A) (body : A -> M unit) :
  (forall x, settling (body x)) -> settling (forEach xs body).
Proof.
  intros Hb; induction xs as [|x xs IH]; cbn [forEach];
    [apply settling_ret | apply settling_bind; auto].
Qed.

Lemma settling_callHook (f : @HookFunction World) ctx : settling (callHook f ctx).
Proof. intros w; unfold callHook; destruct (fnBody f ctx w) as [[|msg] w1]; discriminate. Qed.

Lemma settling_executeHookItem (item : @HookItem World) ctx :
  settling (executeHookItem item ctx).
Proof.
  destruct item as [cmd|f]; cbn [executeHookItem]; [|apply settling_callHook].
  apply settling_bind; [apply settling_emit|]; intros _.
  apply settling_bind; [apply settling_act|]; intros result.
  apply settling_bind;
    [destruct (Js.truthy (stdout result));
       [apply settling_forEach; intros; apply settling_emit | apply settling_ret]|]; intros _.
  apply settling_bind;
    [destruct (Js.truthy (stderr result));
       [apply settling_forEach; intros; apply settling_emit | apply settling_ret]|]; intros _.
  destruct (exitCode result =? 0)%Z; [apply settling_ret | apply settling_throw].
Qed.

(** The hook executor swallows whatever its hook throws: it always
    returns. *)
Lemma executeHookValue_done value ctx label (w : World) :
  outcomeOf (executeHookValue value ctx label w) = Done tt.
Proof.
  unfold executeHookValue, tryCatch.
  set (body := match value with
               | Single item => executeHookItem item ctx
               | Sequence items => forEach items (fun item => executeHookItem item ctx)
               end).
  assert (Hs : settling body).
  { subst body; destruct value;
      [apply settling_executeHookItem
      | apply settling_forEach; intros; apply settling_executeHookItem]. }
  specialize (Hs w); destruct (body w) as [[[[]|e|] w1] t1]; cbn in *;
    [reflexivity | reflexivity | congruence].
Qed.

(** ** The schedule *)

Lemma runEach_app entries1 entries2 ctx (w : World) :
  runEach (entries1 ++ entries2) ctx w
  = (fst (runEach entries2 ctx (fst (runEach entries1 ctx w))),
     (snd (runEach entries1 ctx w)
      ++ snd (runEach entries2 ctx (fst (runEach entries1 ctx w))))%list).
Proof.
  revert w; induction entries1 as [|[label value] rest IH]; intros w; cbn.
  - now destruct (runEach entries2 ctx w).
  - rewrite IH; cbn. now rewrite app_assoc.
Qed.

Lemma executeHookValue_as_runEach value ctx label (w : World) :
  executeHookValue value ctx label w
  = (Done tt, fst (runEach [(label, value)] ctx w), snd (runEach [(label, value)] ctx w)).
Proof.
  cbn. rewrite app_nil_r.
  rewrite (run_eta (executeHookValue value ctx label w)) at 1.
  now rewrite executeHookValue_done.
Qed.

Lemma pluginLoop_as_runEach hookName plugins ctx (w : World) :
  forEach plugins (fun plugin =>
    match pluginHook plugin hookName with
    | Some hook =>
        if hookTruthy hook
        then executeHookValue hook ctx (pluginLabel plugin hookName)
        else ret tt
    | None => ret tt
    end) w
  = (Done tt,
     fst (runEach (flat_map (pluginEntry hookName) plugins) ctx w),
     snd (runEach (flat_map (pluginEntry hookName) plugins) ctx w)).
Proof.
  revert w; induction plugins as [|plugin rest IH]; intros w; [reflexivity|].
  cbn [forEach flat_map]. rewrite runEach_app.
  assert (E : pluginEntry hookName plugin
              = match pluginHook plugin hookName with
                | Some hook =>
                    if hookTruthy hook then [(pluginLabel plugin hookName, hook)] else []
                | None => []
                end).
  { unfold pluginEntry, definedHook.
    destruct (pluginHook plugin hookName) as [hook|]; [destruct (hookTruthy hook)|];
      reflexivity. }
  rewrite E; clear E.
  destruct (pluginHook plugin hookName) as [hook|]; [destruct (hookTruthy hook)|].
  - rewrite bind_total by apply executeHookValue_done.
    rewrite IH. unfold prefixed. cbn [runEach fst snd outcomeOf worldOf traceOf].
    now rewrite app_nil_r.
  - rewrite bind_ret, IH; reflexivity.
  - rewrite bind_ret, IH; reflexivity.
Qed.

Lemma runHooks_as_schedule hookName config ctx (w : World) :
  runHooks hookName config ctx w
  = (Done tt,
     fst (runEach (scheduled hookName config) ctx w),
     snd (runEach (scheduled hookName config) ctx w)).
Proof.
  unfold runHooks, scheduled.
  rewrite runEach_app.
  rewrite bind_done with (E := pluginLoop_as_runEach hookName (cfg_plugins config) ctx w).
  unfold inlineEntry, definedHook.
  destruct (cfg_hooks config hookName) as [hook|]; [destruct (hookTruthy hook)|].
  - rewrite executeHookValue_as_runEach. reflexivity.
  - unfold prefixed; cbn [runEach ret fst snd outcomeOf worldOf traceOf]; reflexivity.
  - unfold prefixed; cbn [runEach ret fst snd outcomeOf worldOf traceOf]; reflexivity.
Qed.

Lemma runHooks_done hookName config ctx (w : World) :
  outcomeOf (runHooks hookName config ctx w) = Done tt.
Proof. now rewrite runHooks_as_schedule. Qed.

(** ** One hook value *)

Lemma prefixed_ret {A} t (a : A) (w : World) : prefixed t (ret a w) = (Done a, w, t).
Proof. unfold prefixed, ret; cbn. now rewrite app_nil_r. Qed.

Lemma prefixed_throw {A} t e (w : World) : prefixed t (@throw World A e w) = (Raised e, w, t).
Proof. unfold prefixed, throw; cbn. now rewrite app_nil_r. Qed.

Lemma prefixed_emit t e (w : World) : prefixed t (emit e w) = (Done tt, w, (t ++ [e])%list).
Proof. reflexivity. Qed.

Lemma bind_done_inv A B (m : M A) (k : A -> M B) (w : World) b w' t
  (E : bind m k w = (Done b, w', t)) :
  exists a wa ta tb,
    m w = (Done a, wa, ta) /\ k a wa = (Done b, w', tb) /\ t = (ta ++ tb)%list.
Proof.
  revert E. unfold bind. destruct (m w) as [[[a|e|] wa] ta]; try discriminate.
  destruct (k a wa) as [[o wb] tb] eqn:Ek. intros [= -> -> <-].
  now exists a, wa, ta, tb.
Qed.

Lemma forEach_app_done A (xs ys : list A) (body : A -> M unit) (w : World) w1 t1
  (E : forEach xs body w = (Done tt, w1, t1)) :
  forEach (xs ++ ys) body w = prefixed t1 (forEach ys body w1).
Proof.
  revert w t1 E; induction xs as [|x xs IH]; intros w t1.
  - cbn. intros [= <- <-]. now rewrite prefixed_nil.
  - cbn [forEach app]. intros E.
    destruct (bind_done_inv _ _ _ E) as ([] & wa & ta & tb & Ex & Exs & ->).
    rewrite bind_done with (E := Ex). rewrite (IH _ _ Exs). apply prefixed_prefixed.
Qed.

Lemma forEach_consoleError (xs : list string) (w : World) :
  forEach xs consoleError w = (Done tt, w, map EvStderr xs).
Proof. exact (forEach_emit xs EvStderr w). Qed.

Lemma echo_lines (text : string) {B} (k : unit -> M B) (w : World) :
  bind (if Js.truthy text then forEach (Js.lines text) consoleError else ret tt) k w
  = prefixed (if Js.truthy text then map EvStderr (Js.lines text) else []) (k tt w).
Proof.
  destruct (Js.truthy text).
  - now rewrite bind_done with (E := forEach_consoleError (Js.lines text) w).
  - now rewrite bind_ret, prefixed_nil.
Qed.

(** A command item: announce it, run it in the worktree, echo its
    output, and throw when it exits non-zero. *)
Lemma executeHookItem_command cmd ctx (w : World) :
  let result := execAsync cmd (worktreePath ctx) w in
  executeHookItem (ItemCommand cmd) ctx w
  = (if (exitCode (fst result) =? 0)%Z then Done tt
     else Raised (GenericError (commandFailure cmd (exitCode (fst result)))),
     snd result,
     [EvLog LInfo ("Running: " ++ cmd); EvExec cmd (worktreePath ctx)]
       ++ echoed (fst result))%list.
Proof.
  intros result. cbn [executeHookItem]. unfold logInfo.
  rewrite bind_emit, bind_act. fold result.
  rewrite !echo_lines, !prefixed_prefixed. unfold echoed.
  destruct (exitCode (fst result) =? 0)%Z;
    [rewrite prefixed_ret | rewrite prefixed_throw]; now rewrite <- !app_assoc.
Qed.

Lemma callsOf_app t1 t2 : callsOf (t1 ++ t2) = (callsOf t1 ++ callsOf t2)%list.
Proof. apply flat_map_app. Qed.

Lemma warningsOf_app t1 t2 : warningsOf (t1 ++ t2) = (warningsOf t1 ++ warningsOf t2)%list.
Proof. apply flat_map_app. Qed.

Lemma stdoutLines_app t1 t2 : stdoutLines (t1 ++ t2) = (stdoutLines t1 ++ stdoutLines t2)%list.
Proof. apply flat_map_app. Qed.

Lemma only_stderr_lines (xs : list string) :
  callsOf (map EvStderr xs) = [] /\ warningsOf (map EvStderr xs) = [].
Proof. induction xs as [|x xs [IH1 IH2]]; split; cbn; auto. Qed.

Lemma echoed_silent result : callsOf (echoed result) = [] /\ warningsOf (echoed result) = [].
Proof.
  unfold echoed. rewrite callsOf_app, warningsOf_app.
  destruct (Js.truthy (stdout result)), (Js.truthy (stderr result)); cbn [callsOf warningsOf flat_map];
    repeat match goal with
           | |- context [callsOf (map EvStderr ?xs)] =>
               rewrite (proj1 (only_stderr_lines xs))
           | |- context [warningsOf (map EvStderr ?xs)] =>
               rewrite (proj2 (only_stderr_lines xs))
           end; split; reflexivity.
Qed.

(** ** Every scheduled hook is begun *)

Lemma embeds_refl t : embeds t t.
Proof. induction t; constructor; assumption. Qed.

Lemma embeds_prefix s rest : embeds s (s ++ rest).
Proof. induction s; cbn; constructor; assumption. Qed.

Lemma embeds_app s1 t1 s2 t2 : embeds s1 t1 -> embeds s2 t2 -> embeds (s1 ++ s2) (t1 ++ t2).
Proof.
  intros H1 H2; induction H1 as [t|e s t _ IH|e s t _ IH]; cbn.
  - induction t; cbn; [assumption | now constructor].
  - now constructor.
  - now constructor.
Qed.

Lemma executeHookItem_opens item ctx (w : World) :
  exists rest, traceOf (executeHookItem item ctx w) = openingOf item ctx :: rest.
Proof.
  destruct item as [cmd|f].
  - rewrite executeHookItem_command. cbn [traceOf snd app openingOf]. eauto.
  - cbn [executeHookItem openingOf]. unfold callHook.
    destruct (fnBody f ctx w) as [[|message] w1]; cbn; eauto.
Qed.

Lemma bind_opens {A B} (m : M A) (k : A -> M B) (w : World) e rest :
  traceOf (m w) = e :: rest -> exists rest', traceOf (bind m k w) = e :: rest'.
Proof.
  unfold bind. destruct (m w) as [[[a|x|] w1] t1]; cbn [traceOf snd]; intros ->; eauto.
  destruct (k a w1) as [[o w2] t2]; cbn; eauto.
Qed.

Lemma tryCatch_opens {A} (m : M A) (handler : Exn -> M A) (w : World) e rest :
  traceOf (m w) = e :: rest -> exists rest', traceOf (tryCatch m handler w) = e :: rest'.
Proof.
  unfold tryCatch. destruct (m w) as [[[a|x|] w1] t1]; cbn [traceOf snd]; intros ->; eauto.
  destruct (handler x w1) as [[o w2] t2]; cbn; eauto.
Qed.

Lemma executeHookValue_opens value ctx label (w : World) :
  exists rest, traceOf (executeHookValue value ctx label w) = (opening value ctx ++ rest)%list.
Proof.
  unfold executeHookValue.
  destruct value as [item|[|item items]]; cbn [opening app].
  - destruct (executeHookItem_opens item ctx w) as [rest E].
    eapply tryCatch_opens, E.
  - eauto.
  - destruct (executeHookItem_opens item ctx w) as [rest E].
    cbn [forEach].
    destruct (bind_opens (executeHookItem item ctx)
                (fun _ => forEach items (fun item => executeHookItem item ctx)) w E)
      as [rest' E'].
    eapply tryCatch_opens, E'.
Qed.

Lemma runEach_opens entries ctx (w : World) :
  embeds (flat_map (fun entry => opening (snd entry) ctx) entries)
         (snd (runEach entries ctx w)).
Proof.
  revert w; induction entries as [|[label value] rest IH]; intros w; cbn [flat_map runEach snd].
  - constructor.
  - destruct (executeHookValue_opens value ctx label w) as [more ->].
    apply embeds_app; [apply embeds_prefix | apply IH].
Qed.

(** claim C1: for every hook name, configuration and context, the lifecycle
    runner returns normally, and what it did is exactly this: the hook of
    each plugin that defines one, in plugin-list order, then the inline hook,
    each handed to the hook executor in the world its predecessor left,
    whether or not that predecessor raised.  In particular the first step of
    every one of these hooks shows up in the trace, in that order. *)
Theorem runHooks_follows_schedule hookName config ctx (w : World) :
  runHooks hookName config ctx w
  = (Done tt,
     fst (runEach (scheduled hookName config) ctx w),
     snd (runEach (scheduled hookName config) ctx w))
  /\ embeds (flat_map (fun entry => opening (snd entry) ctx) (scheduled hookName config))
            (traceOf (runHooks hookName config ctx w)).
Proof.
  split; [apply runHooks_as_schedule|].
  rewrite runHooks_as_schedule. apply runEach_opens.
Qed.

(** claim C3: with the inline hook [fn1, "exit 1", fn2], where fn1 returns
    and the command exits non-zero, the event runs fn1, runs the command,
    never calls fn2, logs exactly one warning for the list, and returns
    normally. *)
Theorem failing_command_stops_inline_list hookName config ctx (w : World) fn1 fn2 w1 :
  cfg_hooks config hookName
    = Some (Sequence [ItemFunction fn1; ItemCommand "exit 1"; ItemFunction fn2]) ->
  let plugins := runEach (flat_map (pluginEntry hookName) (cfg_plugins config)) ctx w in
  fnBody fn1 ctx (fst plugins) = (Returns, w1) ->
  let result := execAsync "exit 1" (worktreePath ctx) w1 in
  exitCode (fst result) <> 0%Z ->
  let failure :=
    inlineLabel hookName ++ " failed: " ++ commandFailure "exit 1" (exitCode (fst result)) in
  let inline :=
    ([EvCall (fnName fn1) ctx; EvLog LInfo "Running: exit 1";
      EvExec "exit 1" (worktreePath ctx)]
       ++ echoed (fst result) ++ [EvLog LWarn failure])%list in
  runHooks hookName config ctx w = (Done tt, snd result, (snd plugins ++ inline)%list)
  /\ callsOf inline = [fnName fn1]
  /\ warningsOf inline = [failure].
Proof.
  intros Hinline plugins Hfn1 result Hexit failure inline. split; [|split].
  - rewrite runHooks_as_schedule. unfold scheduled, inlineEntry, definedHook.
    rewrite Hinline. cbn [hookTruthy]. rewrite runEach_app. fold plugins.
    cbn [runEach fst snd]. rewrite app_nil_r.
    assert (E : executeHookValue
                  (Sequence [ItemFunction fn1; ItemCommand "exit 1"; ItemFunction fn2])
                  ctx (inlineLabel hookName) (fst plugins)
                = (Done tt, snd result, inline)).
    { unfold executeHookValue, tryCatch. cbn [forEach].
      assert (E1 : executeHookItem (ItemFunction fn1) ctx (fst plugins)
                   = (Done tt, w1, [EvCall (fnName fn1) ctx])).
      { cbn [executeHookItem]. unfold callHook. now rewrite Hfn1. }
      rewrite bind_done with (E := E1).
      assert (E2 : executeHookItem (ItemCommand "exit 1") ctx w1
                   = (Raised (GenericError (commandFailure "exit 1" (exitCode (fst result)))),
                      snd result,
                      [EvLog LInfo "Running: exit 1"; EvExec "exit 1" (worktreePath ctx)]
                        ++ echoed (fst result))%list).
      { rewrite executeHookItem_command. fold result.
        destruct (Z.eqb_spec (exitCode (fst result)) 0); [contradiction|reflexivity]. }
      rewrite bind_raised with (E := E2). unfold prefixed, logWarn, emit, inline, failure.
      cbn [outcomeOf worldOf traceOf fst snd exnMessage app].
      reflexivity. }
    now rewrite E.
  - unfold inline. cbn [callsOf flat_map app].
    change (flat_map _ ?t) with (callsOf t). rewrite callsOf_app.
    now rewrite (proj1 (echoed_silent (fst result))).
  - unfold inline. cbn [warningsOf flat_map app].
    change (flat_map _ ?t) with (warningsOf t). rewrite warningsOf_app.
    now rewrite (proj2 (echoed_silent (fst result))).
Qed.

(** claim C4, as the code has it: in a list, a function element that
    throws ends the list just as a failing command does.  When the elements
    before it ran without raising, the hook executor calls the function,
    logs one warning carrying the thrown message, and returns; whatever
    follows in the list plays no part in the result. *)
Theorem throwing_function_halts_list pre f post ctx label (w : World) w1 t1 message w2 :
  forEach pre (fun item => executeHookItem item ctx) w = (Done tt, w1, t1) ->
  fnBody f ctx w1 = (Throws message, w2) ->
  executeHookValue (Sequence (pre ++ ItemFunction f :: post)) ctx label w
  = (Done tt, w2,
     (t1 ++ [EvCall (fnName f) ctx; EvLog LWarn (label ++ " failed: " ++ message)])%list).
Proof.
  intros Hpre Hthrow. unfold executeHookValue, tryCatch.
  rewrite forEach_app_done with (E := Hpre). cbn [forEach].
  assert (E : executeHookItem (ItemFunction f) ctx w1
              = (Raised (GenericError message), w2, [EvCall (fnName f) ctx])).
  { cbn [executeHookItem]. unfold callHook. now rewrite Hthrow. }
  rewrite bind_raised with (E := E). unfold prefixed, logWarn, emit.
  cbn [outcomeOf worldOf traceOf fst snd exnMessage].
  now rewrite <- app_assoc.
Qed.

(** ** What kind of events a run produces, and whether it touches the world *)

Lemma emits_ret {A} p (a : A) : emits p (@ret World A a).
Proof. intros w; constructor. Qed.

Lemma emits_throw {A} p e : emits p (@throw World A e).
Proof. intros w; constructor. Qed.

Lemma emits_pending {A} p : emits p (@pending World A).
Proof. intros w; constructor. Qed.

Lemma emits_emit p e : p e = true -> emits p (@emit World e).
Proof. intros H w; repeat constructor; exact H. Qed.

Lemma emits_read {A} p call (f : World -> A) : p call = true -> emits p (read call f).
Proof. intros H w; repeat constructor; exact H. Qed.

Lemma emits_attempt {A} p call (f : World -> Attempt A) :
  p call = true -> emits p (attempt call f).
Proof. intros H w; unfold attempt; destruct (f w); repeat constructor; exact H. Qed.

Lemma emits_act {A} p call (f : World -> A * World) : p call = true -> emits p (act call f).
Proof. intros H w; unfold act; destruct (f w); repeat constructor; exact H. Qed.

Lemma emits_getCwd p : emits p getCwd.
Proof. intros w; constructor. Qed.

Lemma emits_bind {A B} p (m : M A) (k : A -> M B) :
  emits p m -> (forall a, emits p (k a)) -> emits p (bind m k).
Proof.
  intros Hm Hk w; specialize (Hm w); unfold bind.
  destruct (m w) as [[[a|e|] w1] t1]; cbn in *; trivial.
  specialize (Hk a w1); destruct (k a w1) as [[o w2] t2]; cbn in *.
  apply Forall_app; now split.
Qed.

Lemma emits_tryCatch {A} p (m : M A) (handler : Exn -> M A) :
  emits p m -> (forall e, emits p (handler e)) -> emits p (tryCatch m handler).
Proof.
  intros Hm Hh w; specialize (Hm w); unfold tryCatch.
  destruct (m w) as [[[a|e|] w1] t1]; cbn in *; trivial.
  specialize (Hh e w1); destruct (handler e w1) as [[o w2] t2]; cbn in *.
  apply Forall_app; now split.
Qed.

Lemma emits_forEach {A} p (xs : list A) (body : A -> M unit) :
  (forall x, emits p (body x)) -> emits p (forEach xs body).
Proof.
  intros Hb; induction xs as [|x xs IH]; cbn [forEach];
    [apply emits_ret | apply emits_bind; auto].
Qed.

Lemma readOnly_ret {A} (a : A) : readOnly (@ret World A a).
Proof. intros w; reflexivity. Qed.

Lemma readOnly_throw {A} e : readOnly (@throw World A e).
Proof. intros w; reflexivity. Qed.

Lemma readOnly_pending {A} : readOnly (@pending World A).
Proof. intros w; reflexivity. Qed.

Lemma readOnly_emit e : readOnly (@emit World e).
Proof. intros w; reflexivity. Qed.

Lemma readOnly_read {A} call (f : World -> A) : readOnly (read call f).
Proof. intros w; reflexivity. Qed.

Lemma readOnly_attempt {A} call (f : World -> Attempt A) : readOnly (attempt call f).
Proof. intros w; unfold attempt; destruct (f w); reflexivity. Qed.

Lemma readOnly_getCwd : readOnly getCwd.
Proof. intros w; reflexivity. Qed.

Lemma readOnly_bind {A B} (m : M A) (k : A -> M B) :
  readOnly m -> (forall a, readOnly (k a)) -> readOnly (bind m k).
Proof.
  intros Hm Hk w; specialize (Hm w); unfold bind.
  destruct (m w) as [[[a|e|] w1] t1]; cbn in *; trivial.
  specialize (Hk a w1); destruct (k a w1) as [[o w2] t2]; cbn in *; congruence.
Qed.

Lemma readOnly_tryCatch {A} (m : M A) (handler : Exn -> M A) :
  readOnly m -> (forall e, readOnly (handler e)) -> readOnly (tryCatch m handler).
Proof.
  intros Hm Hh w; specialize (Hm w); unfold tryCatch.
  destruct (m w) as [[[a|e|] w1] t1]; cbn in *; trivial.
  specialize (Hh e w1); destruct (handler e w1) as [[o w2] t2]; cbn in *; congruence.
Qed.

Lemma readOnly_forEach {A} (xs : list A) (body : A -> M unit) :
  (forall x, readOnly (body x)) -> readOnly (forEach xs body).
Proof.
  intros Hb; induction xs as [|x xs IH]; cbn [forEach];
    [apply readOnly_ret | apply readOnly_bind; auto].
Qed.

Create HintDb runs discriminated.

#[local] Hint Resolve emits_ret emits_throw emits_pending emits_emit emits_read
  emits_attempt emits_act emits_getCwd emits_bind emits_tryCatch emits_forEach
  readOnly_ret readOnly_throw readOnly_pending readOnly_emit readOnly_read
  readOnly_attempt readOnly_getCwd readOnly_bind readOnly_tryCatch readOnly_forEach
  : runs.

Lemma quiet_of_emits p q (t : list Event) :
  (forall e, p e = true -> q e = false) -> Forall (fun e => p e = true) t -> quiet q t.
Proof. intros Hpq Ht; unfold quiet; eapply Forall_impl; [|exact Ht]; auto. Qed.

Lemma quiet_app q (t1 t2 : list Event) : quiet q t1 -> quiet q t2 -> quiet q (t1 ++ t2).
Proof. intros; apply Forall_app; now split. Qed.

Lemma stdoutLines_none p (t : list Event) :
  (forall e, p e = true -> match e with EvStdout _ => False | _ => True end) ->
  Forall (fun e => p e = true) t -> stdoutLines t = [].
Proof.
  intros Hp; induction 1 as [|e t He _ IH]; [reflexivity|].
  cbn. change (flat_map _ t) with (stdoutLines t). rewrite IH.
  specialize (Hp e He); destruct e; cbn; tauto.
Qed.

(** The runner logs, echoes, executes commands and calls functions, and
    nothing else: it makes no repository call and writes nothing to the
    success channel. *)
Lemma emits_executeHookItem item ctx : emits isRunnerEvent (executeHookItem item ctx).
Proof.
  destruct item as [cmd|f]; cbn [executeHookItem].
  - unfold logInfo, consoleError.
    repeat (apply emits_bind; [|intros]);
      repeat match goal with |- emits _ (if ?c then _ else _) => destruct c end;
      auto with runs.
  - intros w; unfold callHook; destruct (fnBody f ctx w) as [[|msg] w1];
      repeat constructor.
Qed.

Lemma emits_executeHookValue value ctx label :
  emits isRunnerEvent (executeHookValue value ctx label).
Proof.
  unfold executeHookValue, logWarn. apply emits_tryCatch; [|auto with runs].
  destruct value; [|apply emits_forEach; intros]; apply emits_executeHookItem.
Qed.

Lemma emits_runHooks hookName config ctx : emits isRunnerEvent (runHooks hookName config ctx).
Proof.
  unfold runHooks. apply emits_bind.
  - apply emits_forEach; intros plugin.
    destruct (pluginHook plugin hookName) as [hook|]; [destruct (hookTruthy hook)|];
      auto using emits_executeHookValue with runs.
  - intros _. destruct (cfg_hooks config hookName) as [hook|]; [destruct (hookTruthy hook)|];
      auto using emits_executeHookValue with runs.
Qed.

Lemma runner_no_stdout hookName config ctx (w : World) :
  stdoutLines (traceOf (runHooks hookName config ctx w)) = [].
Proof.
  apply stdoutLines_none with (p := isRunnerEvent); [|apply emits_runHooks].
  intros [] H; cbn in *; trivial; discriminate.
Qed.

Lemma runner_no_teardown hookName config ctx (w : World) :
  quiet isTeardown (traceOf (runHooks hookName config ctx w)).
Proof.
  apply quiet_of_emits with (p := isRunnerEvent); [|apply emits_runHooks].
  intros [] H; cbn in *; trivial; discriminate.
Qed.

(** Loading the configuration only looks for the file and imports it. *)
Lemma emits_loadConfig startDir : emits isLoaderEvent (loadConfig startDir).
Proof.
  unfold loadConfig. induction CONFIG_FILENAMES as [|filename rest IH]; cbn [loadConfigAmong];
    [auto with runs|].
  apply emits_bind; [auto with runs|]. intros [found|]; [|exact IH].
  destruct (Js.truthy found); [|exact IH].
  unfold loadConfigFromPath. auto 10 with runs.
Qed.

Lemma readOnly_loadConfig startDir : readOnly (loadConfig startDir).
Proof.
  unfold loadConfig. induction CONFIG_FILENAMES as [|filename rest IH]; cbn [loadConfigAmong];
    [auto with runs|].
  apply readOnly_bind; [auto with runs|]. intros [found|]; [|exact IH].
  destruct (Js.truthy found); [|exact IH].
  unfold loadConfigFromPath. auto 10 with runs.
Qed.

Lemma loading_no_stdout (t : list Event) :
  Forall (fun e => isLoaderEvent e = true) t -> stdoutLines t = [].
Proof.
  apply stdoutLines_none. intros [] H; cbn in *; trivial; discriminate.
Qed.

Lemma loading_quiet q (t : list Event) :
  (forall e, isLoaderEvent e = true -> q e = false) ->
  Forall (fun e => isLoaderEvent e = true) t -> quiet q t.
Proof. apply quiet_of_emits. Qed.

(** ** merge *)

Ltac step :=
  first [ rewrite bind_getCwd
        | rewrite bind_read
        | rewrite bind_emit
        | rewrite bind_act
        | rewrite bind_ret
        | rewrite bind_total; [|solve [apply runHooks_done]] ];
  cbv beta.

Ltac tidy :=
  rewrite ?prefixed_prefixed, ?prefixed_ret, ?prefixed_throw, ?prefixed_emit, ?prefixed_triple.

(** claim C6: a merge started on the default branch throws "Already on
    ..., nothing to merge" at once.  By then it has only read the
    repository state that the guard needs; it has instructed the
    version-control system to do nothing, has not looked up the primary
    worktree or the configuration, has run no hook, and has left the world
    and the success channel untouched. *)
Theorem merge_on_default_branch_fails_at_once options (w : World) currentBranch :
  assertInsideGitRepo w = Ok tt ->
  getCurrentBranch w = Ok currentBranch ->
  currentBranch = getDefaultBranch w ->
  let r := mergeCommand options w in
  r = (Raised (WtError ("Already on " ++ getDefaultBranch w ++ ", nothing to merge") 1),
       w, mergeReads)
  /\ quiet isVcsOperation (traceOf r)
  /\ quiet isHookActivity (traceOf r)
  /\ stdoutLines (traceOf r) = [].
Proof.
  intros Hin Hcur Hsame r.
  assert (E : r = (Raised (WtError ("Already on " ++ getDefaultBranch w
                                      ++ ", nothing to merge") 1), w, mergeReads)).
  { subst r. unfold mergeCommand.
    rewrite bind_attempt_ok with (E := Hin). cbv beta.
    step. step.
    rewrite bind_attempt_ok with (E := Hcur). cbv beta.
    step. rewrite Hsame, String.eqb_refl. tidy. reflexivity. }
  rewrite E. cbn [traceOf snd]. repeat split; try reflexivity;
    unfold quiet, mergeReads; repeat constructor.
Qed.

Lemma prelude_silent (w : World) currentBranch mainWorktree config loading :
  MergeReady w currentBranch mainWorktree config loading ->
  stdoutLines (mergePrelude w currentBranch mainWorktree config loading) = []
  /\ quiet isTeardown (mergePrelude w currentBranch mainWorktree config loading).
Proof.
  intros (_ & _ & _ & _ & Hcfg).
  assert (Hl : Forall (fun e => isLoaderEvent e = true) loading).
  { pose proof (emits_loadConfig (processCwd w) w) as H. now rewrite Hcfg in H. }
  unfold mergePrelude. split.
  - rewrite !stdoutLines_app, runner_no_stdout, (loading_no_stdout Hl). reflexivity.
  - repeat apply quiet_app; try (unfold quiet, mergeReads; repeat constructor).
    + apply loading_quiet; [|exact Hl]. intros [] H; cbn in *; trivial; discriminate.
    + apply runner_no_teardown.
Qed.

Ltac enter_merge Hready :=
  let Hin := fresh "Hin" in
  let Hcur := fresh "Hcur" in
  let Hneq := fresh "Hneq" in
  let Hmain := fresh "Hmain" in
  let Hcfg := fresh "Hcfg" in
  destruct Hready as (Hin & Hcur & Hneq & Hmain & Hcfg);
  unfold mergeCommand, createHookRunner, logInfo, logSuccess, logWarn, logError,
    consoleLog, consoleError;
  rewrite bind_attempt_ok with (E := Hin); cbv beta;
  step; step;
  rewrite bind_attempt_ok with (E := Hcur); cbv beta;
  step; rewrite Hneq;
  rewrite bind_attempt_ok with (E := Hmain); cbv beta;
  rewrite bind_done with (E := Hcfg); cbv beta zeta;
  step; step; step.

(** claim C2: when the version-control system rejects the merge, the
    workflow throws the merge-conflict error carrying the default branch and
    the primary worktree's path; the one line on the success channel is the
    directory the operator started in; after the merge call it only reports,
    running no hook; and no worktree removal or branch deletion is
    attempted anywhere in the run. *)
Theorem rejected_merge_leaves_operator_in_place options (w : World)
  currentBranch mainWorktree config loading :
  MergeReady w currentBranch mainWorktree config loading ->
  let ctx := mergeContext w currentBranch mainWorktree in
  let merged :=
    mergeBranch currentBranch (wt_path mainWorktree)
      (worldOf (runHooks beforeMerge config ctx w)) in
  exitCode (fst merged) <> 0%Z ->
  let report := mergeFailureReport w mainWorktree (fst merged) in
  let r := mergeCommand options w in
  r = (Raised (MergeConflictError (getDefaultBranch w) (wt_path mainWorktree)),
       snd merged,
       (mergePrelude w currentBranch mainWorktree config loading ++ report)%list)
  /\ stdoutLines (traceOf r) = [processCwd w]
  /\ quiet isHookActivity report
  /\ quiet isTeardown (traceOf r).
Proof.
  intros Hready ctx merged Hexit report r.
  destruct (prelude_silent Hready) as [Hout Hteardown].
  assert (E : r = (Raised (MergeConflictError (getDefaultBranch w) (wt_path mainWorktree)),
                   snd merged,
                   (mergePrelude w currentBranch mainWorktree config loading ++ report)%list)).
  { subst r ctx. unfold mergeContext in merged. enter_merge Hready. fold merged.
    destruct (Z.eqb_spec (exitCode (fst merged)) 0) as [|_]; [contradiction|].
    cbn [negb]. step.
    unfold report, mergeFailureReport, mergePrelude, mergeReads, mergeContext.
    destruct (Js.truthy (stderr (fst merged))), (Js.truthy (stdout (fst merged)));
      repeat step; tidy; cbn [app]; rewrite <- ?app_assoc; reflexivity. }
  rewrite E. cbn [traceOf snd]. split; [reflexivity|]. split; [|split].
  - rewrite stdoutLines_app, Hout. unfold report, mergeFailureReport.
    destruct (Js.truthy (stderr (fst merged))), (Js.truthy (stdout (fst merged)));
      reflexivity.
  - unfold report, mergeFailureReport, quiet.
    destruct (Js.truthy (stderr (fst merged))), (Js.truthy (stdout (fst merged)));
      repeat constructor.
  - apply quiet_app; [exact Hteardown|]. unfold report, mergeFailureReport, quiet.
    destruct (Js.truthy (stderr (fst merged))), (Js.truthy (stdout (fst merged)));
      repeat constructor.
Qed.

(** claim C8: when the merge succeeds and keep was requested, the
    workflow runs the afterMerge hooks right after the merge and prints the
    primary worktree's path on the success channel.  Of the lifecycle
    events only beforeMerge and afterMerge take place, and no worktree
    removal or branch deletion is asked of the version-control system, so
    the worktree and the branch are left as they are. *)
Theorem kept_merge_runs_only_merge_hooks options (w : World)
  currentBranch mainWorktree config loading :
  MergeReady w currentBranch mainWorktree config loading ->
  orElse (keep options) false = true ->
  let ctx := mergeContext w currentBranch mainWorktree in
  let merged :=
    mergeBranch currentBranch (wt_path mainWorktree)
      (worldOf (runHooks beforeMerge config ctx w)) in
  exitCode (fst merged) = 0%Z ->
  let final := runHooks afterMerge config ctx (snd merged) in
  let r := mergeCommand options w in
  r = (Done tt, worldOf final,
       (mergePrelude w currentBranch mainWorktree config loading
        ++ [EvLog LSuccess ("Merged " ++ quoted currentBranch ++ " into "
                              ++ quoted (getDefaultBranch w));
            EvLog LInfo "Kept worktree and branch (--keep flag)"]
        ++ traceOf final
        ++ [EvStdout (wt_path mainWorktree)])%list)
  /\ stdoutLines (traceOf r) = [wt_path mainWorktree]
  /\ quiet isTeardown (traceOf r).
Proof.
  intros Hready Hkeep ctx merged Hexit final r.
  destruct (prelude_silent Hready) as [Hout Hteardown].
  assert (E : r = (Done tt, worldOf final,
       (mergePrelude w currentBranch mainWorktree config loading
        ++ [EvLog LSuccess ("Merged " ++ quoted currentBranch ++ " into "
                              ++ quoted (getDefaultBranch w));
            EvLog LInfo "Kept worktree and branch (--keep flag)"]
        ++ traceOf final
        ++ [EvStdout (wt_path mainWorktree)])%list)).
  { subst r ctx. unfold mergeContext in merged, final.
    enter_merge Hready. fold merged. rewrite Hexit, Hkeep. cbn [Z.eqb negb].
    repeat step. fold final. tidy.
    unfold mergePrelude, mergeReads, mergeContext.
    cbn [app]; rewrite <- ?app_assoc; reflexivity. }
  rewrite E. cbn [traceOf snd]. split; [reflexivity|]. split.
  - rewrite !stdoutLines_app, Hout. unfold final. now rewrite runner_no_stdout.
  - apply quiet_app; [exact Hteardown|].
    apply quiet_app; [unfold quiet; repeat constructor|].
    apply quiet_app; [apply runner_no_teardown | unfold quiet; repeat constructor].
Qed.

(** claim C5: when the merge succeeds and keep was not requested, the
    workflow runs, after the beforeMerge hooks and the merge: the
    beforeRemove hooks, the worktree removal, the branch deletion, the
    afterRemove hooks and the afterMerge hooks, in this order.  A non-zero
    exit of the removal or of the deletion only adds a warning to the log;
    whatever the two calls return, both remaining events run and the
    workflow returns normally, having printed the primary worktree's path as
    the one line of the success channel. *)
Theorem merge_cleans_up_in_order options (w : World)
  currentBranch mainWorktree config loading :
  MergeReady w currentBranch mainWorktree config loading ->
  orElse (keep options) false = false ->
  let ctx := mergeContext w currentBranch mainWorktree in
  let merged :=
    mergeBranch currentBranch (wt_path mainWorktree)
      (worldOf (runHooks beforeMerge config ctx w)) in
  exitCode (fst merged) = 0%Z ->
  let pre := runHooks beforeRemove config ctx (snd merged) in
  let removed := removeWorktree (processCwd w) (worldOf pre) in
  let deleted := deleteBranch currentBranch (snd removed) in
  let post := runHooks afterRemove config ctx (snd deleted) in
  let final := runHooks afterMerge config ctx (worldOf post) in
  let r := mergeCommand options w in
  r = (Done tt, worldOf final,
       (mergePrelude w currentBranch mainWorktree config loading
        ++ [EvLog LSuccess ("Merged " ++ quoted currentBranch ++ " into "
                              ++ quoted (getDefaultBranch w))]
        ++ traceOf pre
        ++ removalLog w (fst removed)
        ++ deletionLog currentBranch (fst deleted)
        ++ traceOf post
        ++ traceOf final
        ++ [EvLog LSuccess ("Merged and cleaned up " ++ quoted currentBranch);
            EvStdout (wt_path mainWorktree)])%list)
  /\ stdoutLines (traceOf r) = [wt_path mainWorktree].
Proof.
  intros Hready Hkeep ctx merged Hexit pre removed deleted post final r.
  destruct (prelude_silent Hready) as [Hout _].
  assert (E : r = (Done tt, worldOf final,
       (mergePrelude w currentBranch mainWorktree config loading
        ++ [EvLog LSuccess ("Merged " ++ quoted currentBranch ++ " into "
                              ++ quoted (getDefaultBranch w))]
        ++ traceOf pre
        ++ removalLog w (fst removed)
        ++ deletionLog currentBranch (fst deleted)
        ++ traceOf post
        ++ traceOf final
        ++ [EvLog LSuccess ("Merged and cleaned up " ++ quoted currentBranch);
            EvStdout (wt_path mainWorktree)])%list)).
  { subst r ctx. unfold mergeContext in merged, pre, post, final.
    enter_merge Hready. fold merged. rewrite Hexit, Hkeep. cbn [Z.eqb negb].
    step. step. fold pre. step. step. fold removed.
    unfold removalLog, deletionLog, mergePrelude, mergeReads, mergeContext.
    destruct (negb (exitCode (fst removed) =? 0)%Z); step; step; fold deleted;
      (destruct (negb (exitCode (fst deleted) =? 0)%Z); step; step; fold post;
       step; fold final; step; tidy;
       cbn [app]; rewrite <- ?app_assoc; reflexivity). }
  rewrite E. cbn [traceOf snd].
  split; [reflexivity|].
  rewrite !stdoutLines_app, Hout. unfold pre, post, final.
  rewrite !runner_no_stdout. unfold removalLog, deletionLog.
  destruct (negb (exitCode (fst removed) =? 0)%Z),
    (negb (exitCode (fst deleted) =? 0)%Z); reflexivity.
Qed.

(** ** remove *)

Lemma emits_render choices selectedIndex : emits isSelectionEvent (@render World choices selectedIndex).
Proof.
  unfold render, consoleError.
  repeat (apply emits_bind; [auto with runs|intros]).
  apply emits_forEach; intros; auto with runs.
Qed.

Lemma readOnly_render choices selectedIndex : readOnly (@render World choices selectedIndex).
Proof.
  unfold render, consoleError.
  repeat (apply readOnly_bind; [auto with runs|intros]).
  apply readOnly_forEach; intros; auto with runs.
Qed.

Lemma emits_onKeypress choices selectedIndex keys :
  emits isSelectionEvent (@onKeypress World choices selectedIndex keys).
Proof.
  revert selectedIndex; induction keys as [|[key|] rest IH]; intros selectedIndex;
    cbn [onKeypress]; [auto with runs| |apply IH].
  unfold cleanup, consoleError.
  repeat match goal with
         | |- emits _ (if ?c then _ else _) => destruct c
         | |- emits _ (match ?o with Some _ => _ | None => _ end) => destruct o
         | |- emits _ (bind _ _) => apply emits_bind; [|intros]
         end; auto using emits_render with runs.
Qed.

Lemma readOnly_onKeypress choices selectedIndex keys :
  readOnly (@onKeypress World choices selectedIndex keys).
Proof.
  revert selectedIndex; induction keys as [|[key|] rest IH]; intros selectedIndex;
    cbn [onKeypress]; [auto with runs| |apply IH].
  unfold cleanup, consoleError.
  repeat match goal with
         | |- readOnly (if ?c then _ else _) => destruct c
         | |- readOnly (match ?o with Some _ => _ | None => _ end) => destruct o
         | |- readOnly (bind _ _) => apply readOnly_bind; [|intros]
         end; auto using readOnly_render with runs.
Qed.

Lemma emits_interactiveSelect tty worktrees :
  emits isSelectionEvent (@interactiveSelect World tty worktrees).
Proof.
  unfold interactiveSelect, logError.
  destruct (negb (isTTY tty)); [auto with runs|].
  destruct (map choiceOf worktrees) as [|c [|c' rest]];
    auto 10 using emits_render, emits_onKeypress with runs.
Qed.

Lemma readOnly_interactiveSelect tty worktrees :
  readOnly (@interactiveSelect World tty worktrees).
Proof.
  unfold interactiveSelect, logError.
  destruct (negb (isTTY tty)); [auto with runs|].
  destruct (map choiceOf worktrees) as [|c [|c' rest]];
    auto 10 using readOnly_render, readOnly_onKeypress with runs.
Qed.

(** Choosing the target only queries the repository and talks to the
    terminal. *)
Lemma emits_resolveTarget options tty defaultBranch :
  emits isSelectionEvent (resolveTarget options tty defaultBranch).
Proof.
  unfold resolveTarget, logWarn.
  destruct (nameGiven options) as [wanted|].
  - apply emits_bind; [auto with runs|]. intros [worktree|]; auto with runs.
  - apply emits_bind; [auto with runs|]. intros worktrees.
    destruct (filter _ worktrees); auto using emits_interactiveSelect with runs.
Qed.

Lemma readOnly_resolveTarget options tty defaultBranch :
  readOnly (resolveTarget options tty defaultBranch).
Proof.
  unfold resolveTarget, logWarn.
  destruct (nameGiven options) as [wanted|].
  - apply readOnly_bind; [auto with runs|]. intros [worktree|]; auto with runs.
  - apply readOnly_bind; [auto with runs|]. intros worktrees.
    destruct (filter _ worktrees); auto using readOnly_interactiveSelect with runs.
Qed.

Lemma selection_quiet q (t : list Event) :
  (forall e, isSelectionEvent e = true -> q e = false) ->
  Forall (fun e => isSelectionEvent e = true) t -> quiet q t.
Proof. apply quiet_of_emits. Qed.

Lemma selection_harmless (t : list Event) :
  Forall (fun e => isSelectionEvent e = true) t ->
  quiet isPrompt t /\ quiet isHookActivity t /\ quiet isTeardown t /\ stdoutLines t = [].
Proof.
  intros Ht. repeat split.
  1-3: apply selection_quiet; [|exact Ht]; intros [| | | | |[]| | |] H; cbn in *;
    trivial; discriminate.
  apply stdoutLines_none with (p := isSelectionEvent); [|exact Ht].
  intros [] H; cbn in *; trivial; discriminate.
Qed.

(** claim C7: when the worktree chosen for removal is on the default
    branch, remove throws the default-branch error right after choosing it,
    whatever the force flag says.  Nothing has been asked of the operator, no
    hook has run and no worktree removal or branch deletion has been
    attempted. *)
Theorem remove_refuses_default_branch options tty (w : World) worktree w1 choosing :
  assertInsideGitRepo w = Ok tt ->
  resolveTarget options tty (getDefaultBranch w) w = (Done (Some worktree), w1, choosing) ->
  wt_branch worktree = Some (getDefaultBranch w) ->
  let r := removeCommand options tty w in
  r = (Raised (OnDefaultBranchError "remove"), w, (removeReads ++ choosing)%list)
  /\ quiet isPrompt (traceOf r)
  /\ quiet isHookActivity (traceOf r)
  /\ quiet isTeardown (traceOf r).
Proof.
  intros Hin Hres Hbranch r.
  assert (Hw : w1 = w).
  { pose proof (readOnly_resolveTarget options tty (getDefaultBranch w) w) as H.
    now rewrite Hres in H. }
  subst w1.
  assert (Hsel : Forall (fun e => isSelectionEvent e = true) choosing).
  { pose proof (emits_resolveTarget options tty (getDefaultBranch w) w) as H.
    now rewrite Hres in H. }
  destruct (selection_harmless Hsel) as (Hp & Hh & Ht & _).
  assert (E : r = (Raised (OnDefaultBranchError "remove"), w,
                   (removeReads ++ choosing)%list)).
  { subst r. unfold removeCommand.
    rewrite bind_attempt_ok with (E := Hin). cbv beta.
    step. step. step.
    rewrite bind_done with (E := Hres). cbv beta.
    unfold branchIs. rewrite Hbranch, String.eqb_refl.
    tidy. reflexivity. }
  rewrite E. cbn [traceOf snd]. split; [reflexivity|].
  repeat split; (apply quiet_app; [unfold quiet, removeReads; repeat constructor|assumption]).
Qed.

Lemma confirmRemoval_without_terminal tty worktree (w : World) :
  isTTY tty = false ->
  confirmRemoval tty worktree w = (Done false, w, [cannotConfirm]).
Proof. intros Htty. unfold confirmRemoval. now rewrite Htty. Qed.

(** claim C10: without the force flag and without a terminal on standard
    input, the confirmation step answers "no" after logging why.  Such an
    invocation never runs a hook, never asks for a worktree removal or a
    branch deletion, and leaves the world as it was; and once a worktree
    that is not on the default branch has been chosen, the command logs
    "Cancelled" and returns normally. *)
Theorem remove_without_terminal_declines options tty (w : World) :
  isTTY tty = false ->
  orElse (force options) false = false ->
  let r := removeCommand options tty w in
  (forall worktree, confirmRemoval tty worktree w = (Done false, w, [cannotConfirm]))
  /\ worldOf r = w
  /\ quiet isHookActivity (traceOf r)
  /\ quiet isTeardown (traceOf r)
  /\ (forall worktree choosing,
        assertInsideGitRepo w = Ok tt ->
        resolveTarget options tty (getDefaultBranch w) w = (Done (Some worktree), w, choosing) ->
        branchIs (wt_branch worktree) (getDefaultBranch w) = false ->
        r = (Done tt, w,
             (removeReads ++ choosing ++ [cannotConfirm; EvLog LInfo "Cancelled"])%list)).
Proof.
  intros Htty Hforce r.
  assert (Hdecline : forall worktree choosing,
        assertInsideGitRepo w = Ok tt ->
        resolveTarget options tty (getDefaultBranch w) w = (Done (Some worktree), w, choosing) ->
        branchIs (wt_branch worktree) (getDefaultBranch w) = false ->
        r = (Done tt, w,
             (removeReads ++ choosing ++ [cannotConfirm; EvLog LInfo "Cancelled"])%list)).
  { intros worktree choosing Hin Hres Hguard. subst r. unfold removeCommand.
    rewrite bind_attempt_ok with (E := Hin). cbv beta.
    step. step. step.
    rewrite bind_done with (E := Hres). cbv beta.
    rewrite Hguard, Hforce.
    rewrite bind_done with (E := confirmRemoval_without_terminal tty worktree w Htty).
    unfold logInfo. tidy. unfold removeReads. cbn [app]. now rewrite <- app_assoc. }
  split; [intros; now apply confirmRemoval_without_terminal|].
  pose proof Hdecline as Hdecline0.
  cut (worldOf r = w /\ quiet isHookActivity (traceOf r) /\ quiet isTeardown (traceOf r)).
  { intros (H1 & H2 & H3). repeat split; assumption. }
  clear Hdecline0.
  destruct (assertInsideGitRepo w) as [[]|e] eqn:Hin.
  2:{ subst r. unfold removeCommand. rewrite bind_attempt_fail with (E := Hin).
      repeat split; unfold quiet; repeat constructor. }
  pose proof (readOnly_resolveTarget options tty (getDefaultBranch w) w) as Hro.
  pose proof (emits_resolveTarget options tty (getDefaultBranch w) w) as Hsel.
  destruct (resolveTarget options tty (getDefaultBranch w) w)
    as [[[[worktree|]|e|] w1] choosing] eqn:Hres;
    cbn [worldOf traceOf fst snd] in Hro, Hsel; subst w1;
    destruct (selection_harmless Hsel) as (_ & Hh & Ht & _).
  - destruct (branchIs (wt_branch worktree) (getDefaultBranch w)) eqn:Hguard.
    + assert (E : r = (Raised (OnDefaultBranchError "remove"), w,
                       (removeReads ++ choosing)%list)).
      { subst r. unfold removeCommand.
        rewrite bind_attempt_ok with (E := Hin). cbv beta.
        step. step. step.
        rewrite bind_done with (E := Hres). cbv beta.
        rewrite Hguard. tidy. reflexivity. }
      rewrite E. cbn [worldOf traceOf fst snd]. split; [reflexivity|].
      split; (apply quiet_app; [unfold quiet, removeReads; repeat constructor|assumption]).
    + rewrite (Hdecline worktree choosing eq_refl eq_refl Hguard).
      cbn [worldOf traceOf fst snd]. split; [reflexivity|].
      split; (apply quiet_app; [unfold quiet, removeReads; repeat constructor|]);
        (apply quiet_app; [assumption | unfold quiet, cannotConfirm; repeat constructor]).
  - assert (E : r = (Done tt, w, (removeReads ++ choosing)%list)).
    { subst r. unfold removeCommand.
      rewrite bind_attempt_ok with (E := Hin). cbv beta.
      step. step. step.
      rewrite bind_done with (E := Hres). cbv beta.
      tidy. reflexivity. }
    rewrite E. cbn [worldOf traceOf fst snd]. split; [reflexivity|].
    split; (apply quiet_app; [unfold quiet, removeReads; repeat constructor|assumption]).
  - assert (E : r = (Raised e, w, (removeReads ++ choosing)%list)).
    { subst r. unfold removeCommand.
      rewrite bind_attempt_ok with (E := Hin). cbv beta.
      step. step. step.
      rewrite bind_raised with (E := Hres).
      tidy. reflexivity. }
    rewrite E. cbn [worldOf traceOf fst snd]. split; [reflexivity|].
    split; (apply quiet_app; [unfold quiet, removeReads; repeat constructor|assumption]).
  - assert (E : r = (Pending, w, (removeReads ++ choosing)%list)).
    { subst r. unfold removeCommand.
      rewrite bind_attempt_ok with (E := Hin). cbv beta.
      step. step. step.
      rewrite bind_pending with (E := Hres).
      tidy. reflexivity. }
    rewrite E. cbn [worldOf traceOf fst snd]. split; [reflexivity|].
    split; (apply quiet_app; [unfold quiet, removeReads; repeat constructor|assumption]).
Qed.

(** ** Paths *)

Lemma splitOn_segment (seg rest : string) :
  Path.slashFree seg = true ->
  Js.splitOn "/" (seg ++ String "/" rest) = seg :: Js.splitOn "/" rest.
Proof.
  induction seg as [|c seg IH]; cbn [Path.slashFree append Js.splitOn]; intros H.
  - reflexivity.
  - apply andb_prop in H as [Hc Hseg].
    destruct (Ascii.eqb c "/"); [discriminate|].
    now rewrite (IH Hseg).
Qed.

Lemma splitOn_last (seg : string) :
  Path.slashFree seg = true -> Js.splitOn "/" seg = [seg].
Proof.
  induction seg as [|c seg IH]; cbn [Path.slashFree Js.splitOn]; intros H.
  - reflexivity.
  - apply andb_prop in H as [Hc Hseg].
    destruct (Ascii.eqb c "/"); [discriminate|].
    now rewrite (IH Hseg).
Qed.

Lemma plain_slashFree seg : Path.plain seg = true -> Path.slashFree seg = true.
Proof.
  unfold Path.plain. intros H.
  apply andb_prop in H as [H _]. now apply andb_prop in H as [H _].
Qed.

Lemma splitOn_join (seg : string) (segs : list string) :
  Forall (fun s => Path.plain s = true) (seg :: segs) ->
  Js.splitOn "/" (Js.join "/" (seg :: segs)) = seg :: segs.
Proof.
  revert seg; induction segs as [|next segs IH]; intros seg H.
  - cbn [Js.join]. apply splitOn_last, plain_slashFree. now inversion H.
  - change (Js.join "/" (seg :: next :: segs))
      with (seg ++ String "/" (Js.join "/" (next :: segs))).
    inversion H as [|? ? Hseg Hrest]; subst.
    rewrite splitOn_segment by now apply plain_slashFree.
    now rewrite IH.
Qed.

Lemma normalizeSegments_plain (segs stack rest : list string) :
  Forall (fun s => Path.plain s = true) segs ->
  Path.normalizeSegments stack (segs ++ rest)
  = Path.normalizeSegments (rev segs ++ stack) rest.
Proof.
  revert stack; induction segs as [|seg segs IH]; intros stack H; [reflexivity|].
  inversion H as [|? ? Hseg Hsegs]; subst.
  cbn [app Path.normalizeSegments rev].
  unfold Path.plain in Hseg.
  apply andb_prop in Hseg as [Hseg Hdots]. apply andb_prop in Hseg as [_ Hdot].
  apply negb_true_iff in Hdot, Hdots. rewrite Hdot, Hdots.
  rewrite IH by assumption. now rewrite <- app_assoc.
Qed.

Lemma append_assoc (a b c : string) : ((a ++ b) ++ c)%string = (a ++ b ++ c)%string.
Proof. induction a as [|x a IH]; cbn; [reflexivity | now rewrite IH]. Qed.

Lemma splitOn_join_then (seg : string) (segs : list string) (tail : string) :
  Forall (fun s => Path.plain s = true) (seg :: segs) ->
  Js.splitOn "/" (Js.join "/" (seg :: segs) ++ String "/" tail)
  = ((seg :: segs) ++ Js.splitOn "/" tail)%list.
Proof.
  revert seg; induction segs as [|next segs IH]; intros seg H.
  - cbn [Js.join app]. apply splitOn_segment, plain_slashFree. now inversion H.
  - change (Js.join "/" (seg :: next :: segs))
      with (seg ++ String "/" (Js.join "/" (next :: segs))).
    inversion H as [|? ? Hseg Hrest]; subst.
    rewrite append_assoc.
    change (String "/" (Js.join "/" (next :: segs)) ++ String "/" tail)%string
      with (String "/" (Js.join "/" (next :: segs) ++ String "/" tail)).
    rewrite splitOn_segment by now apply plain_slashFree.
    now rewrite IH.
Qed.

Lemma normalizeSegments_skip (stack rest : list string) :
  Path.normalizeSegments stack ("" :: rest) = Path.normalizeSegments stack rest.
Proof. reflexivity. Qed.

Lemma normalizeSegments_up (stack rest : list string) :
  Path.normalizeSegments stack (".." :: rest) = Path.normalizeSegments (tl stack) rest.
Proof. reflexivity. Qed.

(** Seen from the directory /dirs/base, [../name] is /dirs/name. *)
Lemma resolve_parent_sibling (dirs : list string) (base name : string) :
  Forall (fun s => Path.plain s = true) (dirs ++ [base]) ->
  Path.plain name = true ->
  Path.resolve (Path.absolute (dirs ++ [base])) ("../" ++ name)
  = Path.absolute (dirs ++ [name]).
Proof.
  intros Hsegs Hname.
  unfold Path.resolve, Path.normalizeAbsolute, Path.absolute.
  change (Path.isAbsolute ("../" ++ name)) with false. cbv iota.
  f_equal. f_equal.
  change (("/" ++ Js.join "/" (dirs ++ [base])) ++ "/" ++ "../" ++ name)%string
    with (String "/" (Js.join "/" (dirs ++ [base])
                        ++ String "/" (".." ++ String "/" name)))%string.
  change (Js.splitOn "/" (String "/" ?y)) with ("" :: Js.splitOn "/" y).
  rewrite normalizeSegments_skip.
  assert (Hsplit : Js.splitOn "/" (Js.join "/" (dirs ++ [base])
                                     ++ String "/" (".." ++ String "/" name))
                   = ((dirs ++ [base]) ++ [".."; name])%list).
  { destruct (dirs ++ [base])%list as [|seg segs] eqn:E.
    - destruct dirs; discriminate.
    - rewrite splitOn_join_then by exact Hsegs.
      rewrite splitOn_segment by reflexivity.
      rewrite splitOn_last by now apply plain_slashFree.
      reflexivity. }
  rewrite Hsplit.
  rewrite normalizeSegments_plain by exact Hsegs.
  rewrite rev_app_distr. cbn [rev app].
  rewrite normalizeSegments_up. cbn [tl].
  change [name] with ([name] ++ [])%list.
  rewrite normalizeSegments_plain by (now constructor).
  cbn [Path.normalizeSegments rev app].
  now rewrite app_nil_r, rev_involutive.
Qed.

Lemma template_substitution (parent : string) :
  resolveWorktreePath "../{repo}-{branch}" "proj" "feature-x" parent = "../proj-feature-x".
Proof. reflexivity. Qed.

(** ** create *)

Lemma bind_assoc {A B C} (m : M A) (f : A -> M B) (g : B -> M C) (w : World) :
  bind (bind m f) g w = bind m (fun x => bind (f x) g) w.
Proof.
  unfold bind. destruct (m w) as [[[a|e|] w1] t1]; try reflexivity.
  destruct (f a w1) as [[[b|e|] w2] t2]; try reflexivity.
  destruct (g b w2) as [[o w3] t3]. now rewrite app_assoc.
Qed.

(** claim C9, as the code has it: the template "../{repo}-{branch}" with
    repository name "proj" and branch "feature-x" becomes
    "../proj-feature-x", whatever the parent directory is, and create
    resolves that text against the directory the command was started in:
    this is the path it checks, hands to the version-control system and
    prints on the success channel.  Started in the directory /dirs/base
    (the repository root, say) it is therefore /dirs/proj-feature-x, the
    directory next to it. *)
Theorem create_path_follows_working_directory (w : World) config loading :
  assertInsideGitRepo w = Ok tt ->
  getRepoName w = "proj" ->
  loadConfig (processCwd w) w = (Done config, w, loading) ->
  s_worktreePath (cfg_settings config) = "../{repo}-{branch}" ->
  let target := Path.resolve (processCwd w) "../proj-feature-x" in
  existsSync target w = false ->
  let ctx := createContext w "feature-x" target in
  let pre := runHooks beforeCreate config ctx w in
  let fresh := negb (branchExists "feature-x" (worldOf pre)) in
  let created := createWorktree target "feature-x" fresh (worldOf pre) in
  exitCode (fst created) = 0%Z ->
  let copied := copyStep config (getRepoRoot w) target (snd created) in
  let post := runHooks afterCreate config ctx (fst copied) in
  let r := createCommand "feature-x" w in
  (forall parent,
      resolveWorktreePath "../{repo}-{branch}" "proj" "feature-x" parent = "../proj-feature-x")
  /\ r = (Done tt, worldOf post,
          (createReads ++ loading ++ [EvFs (ExistsSync target)] ++ traceOf pre
           ++ [EvGit (BranchExists "feature-x");
               EvLog LInfo ("Creating worktree for branch " ++ quoted "feature-x" ++ "...");
               EvGit (CreateWorktree target "feature-x" fresh)]
           ++ snd copied ++ traceOf post
           ++ [EvLog LSuccess ("Created worktree at " ++ target); EvStdout target])%list)
  /\ stdoutLines (traceOf r) = [target]
  /\ (forall dirs base,
        Forall (fun s => Path.plain s = true) (dirs ++ [base]) ->
        processCwd w = Path.absolute (dirs ++ [base]) ->
        target = Path.absolute (dirs ++ ["proj-feature-x"])).
Proof.
  intros Hin Hname Hcfg Htemplate target Hfree ctx pre fresh created Hexit copied post r.
  assert (Hl : Forall (fun e => isLoaderEvent e = true) loading).
  { pose proof (emits_loadConfig (processCwd w) w) as H. now rewrite Hcfg in H. }
  assert (E : r = (Done tt, worldOf post,
          (createReads ++ loading ++ [EvFs (ExistsSync target)] ++ traceOf pre
           ++ [EvGit (BranchExists "feature-x");
               EvLog LInfo ("Creating worktree for branch " ++ quoted "feature-x" ++ "...");
               EvGit (CreateWorktree target "feature-x" fresh)]
           ++ snd copied ++ traceOf post
           ++ [EvLog LSuccess ("Created worktree at " ++ target); EvStdout target])%list)).
  { subst r ctx. unfold createContext in pre, post.
    unfold createCommand, createHookRunner, logInfo, logSuccess, consoleLog.
    rewrite bind_attempt_ok with (E := Hin). cbv beta.
    step. step. step. step.
    rewrite bind_done with (E := Hcfg). cbv beta zeta.
    rewrite Hname, Htemplate, template_substitution. fold target.
    step. rewrite Hfree. step. fold pre. step. fold fresh. step. step. fold created.
    rewrite Hexit. cbn [Z.eqb negb].
    unfold copied, copyStep in post |- *.
    destruct (s_copyGitIgnoredFiles (cfg_settings config)).
    - rewrite bind_assoc. step.
      destruct (0 <? fst (copyGitIgnoredFiles (getRepoRoot w) target
                            (s_copyNodeModules (cfg_settings config)) (snd created)))%nat;
        repeat step; cbn [fst snd] in post; fold post; repeat step; tidy;
        unfold createReads, quoted; cbn [app fst snd]; rewrite <- ?app_assoc; reflexivity.
    - cbn [fst snd] in post. repeat step. fold post. repeat step. tidy.
      unfold createReads, quoted; cbn [app fst snd]; rewrite <- ?app_assoc; reflexivity. }
  split; [exact template_substitution|]. split; [exact E|]. split.
  - rewrite E. cbn [traceOf snd]. rewrite !stdoutLines_app.
    rewrite (loading_no_stdout Hl). unfold pre, post. rewrite !runner_no_stdout.
    unfold copied, copyStep.
    destruct (s_copyGitIgnoredFiles (cfg_settings config)); [|reflexivity].
    destruct (0 <? _)%nat; reflexivity.
  - intros dirs base Hsegs Hcwd. unfold target. rewrite Hcwd.
    now apply resolve_parent_sibling.
Qed.

(* ------------------------------------------------------------------ *)
(** * Further properties *)

(** ** The runner *)

Lemma worldOf_prefixed {A} t (r : Run A) : worldOf (prefixed t r) = worldOf r.
Proof. reflexivity. Qed.

Lemma traceOf_prefixed {A} t (r : Run A) : traceOf (prefixed t r) = (t ++ traceOf r)%list.
Proof. reflexivity. Qed.

Lemma outcomeOf_prefixed {A} t (r : Run A) : outcomeOf (prefixed t r) = outcomeOf r.
Proof. reflexivity. Qed.

(** The plugin list can be cut anywhere: running the event for the whole
    list is running it for the plugins before the cut and then, in the world
    they left and whatever their hooks did, for the plugins after the cut
    together with the inline hook. *)
Theorem runHooks_splits_at_any_plugin hookName config before after ctx (w : World) :
  let first := runHooks hookName (pluginsOnly config before) ctx w in
  runHooks hookName (withPlugins config (before ++ after)) ctx w
  = prefixed (traceOf first)
      (runHooks hookName (withPlugins config after) ctx (worldOf first)).
Proof.
  intros first. subst first. rewrite !runHooks_as_schedule.
  unfold scheduled, withPlugins, pluginsOnly, inlineEntry, noHooks.
  cbn [cfg_plugins cfg_hooks definedHook]. rewrite app_nil_r.
  rewrite flat_map_app, <- app_assoc, runEach_app.
  unfold prefixed. cbn [outcomeOf worldOf traceOf fst snd]. reflexivity.
Qed.

(** When neither a plugin nor the inline hooks define the event, running
    it does nothing at all.  A plugin without [hooks], a missing key and an
    empty command string all count as undefined. *)
Theorem runHooks_without_hooks_is_noop hookName config ctx (w : World) :
  Forall (fun plugin => definedHook (pluginHook plugin hookName) = None) (cfg_plugins config) ->
  definedHook (cfg_hooks config hookName) = None ->
  runHooks hookName config ctx w = (Done tt, w, []).
Proof.
  intros Hplugins Hinline. rewrite runHooks_as_schedule.
  assert (E : scheduled hookName config = []).
  { unfold scheduled, inlineEntry. rewrite Hinline, app_nil_r.
    induction Hplugins as [|plugin rest Hp _ IH]; [reflexivity|].
    cbn [flat_map]. unfold pluginEntry at 1. now rewrite Hp, IH. }
  now rewrite E.
Qed.

Lemma emits_no_warning_item item ctx :
  emits (fun e => negb (isWarning e)) (executeHookItem item ctx).
Proof.
  destruct item as [cmd|f]; cbn [executeHookItem].
  - unfold logInfo, consoleError.
    repeat (apply emits_bind; [|intros]);
      repeat match goal with |- emits _ (if ?c then _ else _) => destruct c end;
      auto with runs.
  - intros w; unfold callHook; destruct (fnBody f ctx w) as [[|msg] w1];
      repeat constructor.
Qed.

Lemma warnings_none (t : list Event) :
  Forall (fun e => negb (isWarning e) = true) t -> warningsOf t = [].
Proof.
  induction 1 as [|e t He _ IH]; [reflexivity|].
  cbn. change (flat_map _ t) with (warningsOf t). rewrite IH.
  destruct e as [[] ?| | | | | | | |]; cbn in *; try reflexivity; discriminate.
Qed.

Lemma executeHookValue_warns_once value ctx label (w : World) :
  (length (warningsOf (traceOf (executeHookValue value ctx label w))) <= 1)%nat.
Proof.
  unfold executeHookValue, tryCatch.
  set (body := match value with
               | Single item => executeHookItem item ctx
               | Sequence items => forEach items (fun item => executeHookItem item ctx)
               end).
  assert (Hb : emits (fun e => negb (isWarning e)) body).
  { subst body. destruct value; [|apply emits_forEach; intros];
      apply emits_no_warning_item. }
  specialize (Hb w). destruct (body w) as [[[[]|e|] w1] t1]; cbn [traceOf snd] in *.
  - rewrite (warnings_none Hb). cbn. auto.
  - unfold logWarn, emit. cbn [traceOf snd]. rewrite warningsOf_app, (warnings_none Hb).
    cbn. auto.
  - rewrite (warnings_none Hb). cbn. auto.
Qed.

(** The runner logs at most one warning for each hook it runs: a failing
    hook gives one warning however many elements its list has. *)
Theorem runHooks_warns_once_per_hook hookName config ctx (w : World) :
  (length (warningsOf (traceOf (runHooks hookName config ctx w)))
   <= length (scheduled hookName config))%nat.
Proof.
  rewrite runHooks_as_schedule. cbn [traceOf snd].
  generalize (scheduled hookName config) as entries. intros entries. revert w.
  induction entries as [|[label value] rest IH]; intros w; cbn [runEach snd length].
  - cbn. auto.
  - rewrite warningsOf_app, length_app.
    pose proof (executeHookValue_warns_once value ctx label w) as H1.
    specialize (IH (worldOf (executeHookValue value ctx label w))).
    apply Nat.le_trans with (1 + length rest)%nat; [|apply Nat.le_refl].
    now apply Nat.add_le_mono.
Qed.

Lemma emits_runsIn_item item ctx :
  emits (runsIn (worktreePath ctx)) (executeHookItem item ctx).
Proof.
  destruct item as [cmd|f]; cbn [executeHookItem].
  - unfold logInfo, consoleError.
    repeat (apply emits_bind; [|intros]);
      repeat match goal with |- emits _ (if ?c then _ else _) => destruct c end;
      auto with runs.
    apply emits_act. cbn. apply String.eqb_refl.
  - intros w; unfold callHook; destruct (fnBody f ctx w) as [[|msg] w1];
      repeat constructor.
Qed.

(** Every hook command of an event, whether from a plugin or inline,
    alone or in a list, is run in the worktree directory of the context. *)
Theorem hook_commands_run_in_worktree hookName config ctx (w : World) :
  Forall (fun e => match e with
                   | EvExec _ cwd => cwd = worktreePath ctx
                   | _ => True
                   end) (traceOf (runHooks hookName config ctx w)).
Proof.
  assert (Hv : forall value label, emits (runsIn (worktreePath ctx))
                                     (executeHookValue value ctx label)).
  { intros value label. unfold executeHookValue, logWarn.
    apply emits_tryCatch; [|auto with runs].
    destruct value; [|apply emits_forEach; intros]; apply emits_runsIn_item. }
  assert (H : emits (runsIn (worktreePath ctx)) (runHooks hookName config ctx)).
  { unfold runHooks. apply emits_bind.
    - apply emits_forEach; intros plugin.
      destruct (pluginHook plugin hookName) as [hook|]; [destruct (hookTruthy hook)|];
        auto with runs.
    - intros _. destruct (cfg_hooks config hookName) as [hook|];
        [destruct (hookTruthy hook)|]; auto with runs. }
  eapply Forall_impl; [|exact (H w)].
  intros [] He; cbn in *; trivial. now apply String.eqb_eq.
Qed.

Lemma callsOf_item item ctx (w : World) :
  callsOf (traceOf (executeHookItem item ctx w)) = functionNames [item].
Proof.
  destruct item as [cmd|f].
  - rewrite executeHookItem_command. cbn [traceOf snd functionNames flat_map app].
    cbn [callsOf flat_map app]. change (flat_map _ ?t) with (callsOf t).
    apply echoed_silent.
  - cbn [executeHookItem]. unfold callHook.
    destruct (fnBody f ctx w) as [[|msg] w1]; reflexivity.
Qed.

Lemma forEach_calls items ctx (w : World) :
  let r := forEach items (fun item => executeHookItem item ctx) w in
  exists skipped, functionNames items = (callsOf (traceOf r) ++ skipped)%list
                  /\ (outcomeOf r = Done tt -> skipped = []).
Proof.
  revert w; induction items as [|item rest IH]; intros w; cbn zeta.
  - exists []. split; reflexivity.
  - cbn [forEach]. pose proof (callsOf_item item ctx w) as Hitem.
    assert (Hcons : functionNames (item :: rest)
                    = (functionNames [item] ++ functionNames rest)%list).
    { unfold functionNames. cbn [flat_map]. now rewrite app_nil_r. }
    rewrite Hcons; clear Hcons.
    unfold bind.
    destruct (executeHookItem item ctx w) as [[[[]|e|] w1] t1] eqn:E;
      cbn [traceOf snd] in Hitem.
    + destruct (IH w1) as (skipped & Hnames & Hdone).
      destruct (forEach rest (fun item0 => executeHookItem item0 ctx) w1)
        as [[o w2] t2] eqn:E2.
      cbn [traceOf snd outcomeOf fst] in *.
      exists skipped. rewrite callsOf_app, <- Hitem, Hnames.
      split; [now rewrite app_assoc | exact Hdone].
    + exists (functionNames rest). cbn [traceOf snd outcomeOf fst].
      rewrite <- Hitem. split; [reflexivity | discriminate].
    + exists (functionNames rest). cbn [traceOf snd outcomeOf fst].
      rewrite <- Hitem. split; [reflexivity | discriminate].
Qed.

(** The functions of a hook list are called in list order, each at most
    once and none out of turn: the calls made are an initial part of the
    list's functions, and all of them when no element raised, in which case
    there is no warning either. *)
Theorem list_functions_called_in_order items ctx label (w : World) :
  let r := executeHookValue (Sequence items) ctx label w in
  exists skipped,
    functionNames items = (callsOf (traceOf r) ++ skipped)%list
    /\ (outcomeOf (forEach items (fun item => executeHookItem item ctx) w) = Done tt ->
        skipped = [] /\ warningsOf (traceOf r) = []).
Proof.
  cbn zeta. destruct (forEach_calls items ctx w) as (skipped & Hnames & Hdone).
  cbn zeta in Hnames, Hdone.
  assert (Hquiet : emits (fun e => negb (isWarning e))
                     (forEach items (fun item => executeHookItem item ctx)))
    by (apply emits_forEach; intros; apply emits_no_warning_item).
  specialize (Hquiet w).
  unfold executeHookValue, tryCatch.
  destruct (forEach items (fun item => executeHookItem item ctx) w)
    as [[[[]|e|] w1] t1] eqn:E; cbn [traceOf snd outcomeOf fst] in *.
  - exists skipped. split; [exact Hnames|]. intros _. split; [now apply Hdone|].
    now apply warnings_none.
  - exists skipped. unfold logWarn, emit. cbn [traceOf snd].
    rewrite callsOf_app. cbn [callsOf flat_map app]. rewrite app_nil_r.
    split; [exact Hnames | discriminate].
  - exists skipped. split; [exact Hnames | discriminate].
Qed.

(** ** The loader *)

Lemma loadConfigAmong_first_found before filename after startDir (w : World) configPath :
  Forall (fun earlier => notFound (findConfigFile startDir earlier w)) before ->
  findConfigFile startDir filename w = Some configPath ->
  Js.truthy configPath = true ->
  loadConfigAmong (before ++ filename :: after) startDir w
  = prefixed (lookups startDir (before ++ [filename])) (loadConfigFromPath configPath w).
Proof.
  intros Hbefore Hfound Htruthy.
  induction Hbefore as [|earlier before Hnot _ IH]; cbn [app loadConfigAmong lookups map].
  - rewrite bind_read, Hfound, Htruthy. reflexivity.
  - rewrite bind_read. unfold notFound in Hnot.
    destruct (findConfigFile startDir earlier w) as [path|];
      [rewrite Hnot|]; rewrite IH, prefixed_prefixed; reflexivity.
Qed.

(** The configuration file names are tried in the order wt.config.ts,
    wt.config.js, wt.config.mjs, and the first one found is the one loaded:
    the names after it are not even looked up. *)
Theorem first_config_file_wins before filename after startDir (w : World) configPath :
  CONFIG_FILENAMES = (before ++ filename :: after)%list ->
  Forall (fun earlier => notFound (findConfigFile startDir earlier w)) before ->
  findConfigFile startDir filename w = Some configPath ->
  Js.truthy configPath = true ->
  loadConfig startDir w
  = prefixed (lookups startDir (before ++ [filename])) (loadConfigFromPath configPath w).
Proof.
  intros Hnames. unfold loadConfig. rewrite Hnames. apply loadConfigAmong_first_found.
Qed.

(** When none of the three names is found, loading succeeds with the
    default settings, no plugins and no hooks, after looking each name up
    once, in order. *)
Theorem no_config_file_gives_defaults startDir (w : World) :
  Forall (fun filename => notFound (findConfigFile startDir filename w)) CONFIG_FILENAMES ->
  loadConfig startDir w = (Done defaultConfig, w, lookups startDir CONFIG_FILENAMES).
Proof.
  unfold loadConfig. generalize CONFIG_FILENAMES as filenames.
  induction 1 as [|filename rest Hnot _ IH]; cbn [loadConfigAmong lookups map];
    [reflexivity|].
  rewrite bind_read. unfold notFound in Hnot.
  destruct (findConfigFile startDir filename w) as [path|];
    [rewrite Hnot|]; rewrite IH; reflexivity.
Qed.



(** ** create *)

Ltac enter_create Hready :=
  let Hin := fresh "Hin" in
  let Hcfg := fresh "Hcfg" in
  destruct Hready as (Hin & Hcfg);
  unfold createCommand, createHookRunner, logInfo, logSuccess, consoleLog;
  rewrite bind_attempt_ok with (E := Hin); cbv beta;
  step; step; step; step;
  rewrite bind_done with (E := Hcfg); cbv beta zeta;
  step.

Lemma create_prelude_silent (w : World) config loading name :
  CreateReady w config loading ->
  stdoutLines (createPrelude w config loading name) = []
  /\ quiet isHookActivity (createPrelude w config loading name)
  /\ quiet isVcsOperation (createPrelude w config loading name).
Proof.
  intros (_ & Hcfg).
  assert (Hl : Forall (fun e => isLoaderEvent e = true) loading).
  { pose proof (emits_loadConfig (processCwd w) w) as H. now rewrite Hcfg in H. }
  unfold createPrelude. split; [|split].
  - rewrite !stdoutLines_app, (loading_no_stdout Hl). reflexivity.
  - apply quiet_app; [unfold quiet, createReads; repeat constructor|].
    apply quiet_app; [|unfold quiet; repeat constructor].
    apply loading_quiet; [|exact Hl]. intros [] H; cbn in *; trivial; discriminate.
  - apply quiet_app; [unfold quiet, createReads; repeat constructor|].
    apply quiet_app; [|unfold quiet; repeat constructor].
    apply loading_quiet; [|exact Hl]. intros [] H; cbn in *; trivial; discriminate.
Qed.

(** When the computed worktree path already exists, create throws the
    worktree-exists error carrying that path.  It has run no hook and asked
    nothing of the version-control system, printed nothing on the success
    channel, and left the world as it was. *)
Theorem create_refuses_existing_path name (w : World) config loading :
  CreateReady w config loading ->
  existsSync (createTarget w config name) w = true ->
  let r := createCommand name w in
  r = (Raised (WorktreeExistsError (createTarget w config name)), w,
       createPrelude w config loading name)
  /\ stdoutLines (traceOf r) = []
  /\ quiet isHookActivity (traceOf r)
  /\ quiet isVcsOperation (traceOf r).
Proof.
  intros Hready Hexists r.
  destruct (create_prelude_silent name Hready) as (Hout & Hhooks & Hops).
  assert (E : r = (Raised (WorktreeExistsError (createTarget w config name)), w,
                   createPrelude w config loading name)).
  { subst r. enter_create Hready. fold (createTarget w config name).
    rewrite Hexists. tidy. unfold createPrelude, createReads.
    cbn [app]; rewrite <- ?app_assoc; reflexivity. }
  rewrite E. cbn [traceOf snd]. repeat split; assumption.
Qed.

(** When the version-control system fails to add the worktree, create
    throws "Failed to create worktree: ..." with the call's stderr.  The
    beforeCreate hooks have run by then; nothing is copied, the afterCreate
    hooks do not run, and nothing is printed on the success channel. *)
Theorem create_stops_when_worktree_cannot_be_added name (w : World) config loading :
  CreateReady w config loading ->
  let target := createTarget w config name in
  existsSync target w = false ->
  let pre := runHooks beforeCreate config (createContext w name target) w in
  let created :=
    createWorktree target name (negb (branchExists name (worldOf pre))) (worldOf pre) in
  exitCode (fst created) <> 0%Z ->
  let r := createCommand name w in
  r = (Raised (WtError ("Failed to create worktree: " ++ stderr (fst created)) 1),
       snd created,
       (createPrelude w config loading name ++ traceOf pre
        ++ additionLog (worldOf pre) name target)%list)
  /\ stdoutLines (traceOf r) = [].
Proof.
  intros Hready target Hfree pre created Hexit r.
  destruct (create_prelude_silent name Hready) as (Hout & _ & _).
  assert (E : r = (Raised (WtError ("Failed to create worktree: " ++ stderr (fst created)) 1),
                   snd created,
                   (createPrelude w config loading name ++ traceOf pre
                    ++ additionLog (worldOf pre) name target)%list)).
  { subst r. unfold createContext in pre. enter_create Hready.
    fold (createTarget w config name). fold target.
    rewrite Hfree. step. fold pre. step. step. step. fold created.
    destruct (Z.eqb_spec (exitCode (fst created)) 0) as [|_]; [contradiction|].
    cbn [negb]. tidy. unfold createPrelude, createReads, additionLog, quoted.
    fold target. cbn [app]; rewrite <- ?app_assoc; reflexivity. }
  rewrite E. cbn [traceOf snd]. split; [reflexivity|].
  rewrite !stdoutLines_app, Hout. unfold pre. rewrite runner_no_stdout. reflexivity.
Qed.


(** ** Path templates *)

Lemma prefix_append (p rest : string) : String.prefix p (p ++ rest) = true.
Proof.
  induction p as [|c p IH]; cbn; [now destruct rest|].
  destruct (ascii_dec c c); [exact IH|congruence].
Qed.

Lemma drop_append (p rest : string) : Js.drop (String.length p) (p ++ rest) = rest.
Proof. induction p as [|c p IH]; cbn; [now destruct rest|exact IH]. Qed.

Lemma append_empty (s : string) : (s ++ "")%string = s.
Proof. induction s as [|c s IH]; cbn; [reflexivity|now rewrite IH]. Qed.

Lemma replaceFrom_skip pat repl (x : string) : forall before rest,
  Js.replaceFrom pat repl before (x ++ rest) (String.length x)
  = Js.replaceFrom pat repl (before ++ x) rest 0.
Proof.
  induction x as [|c x IH]; intros before rest.
  - cbn [String.append String.length]. rewrite append_empty. now destruct rest.
  - cbn [String.append String.length Js.replaceFrom]. rewrite IH.
    now rewrite append_assoc.
Qed.

Lemma replaceFrom_match c pat repl before rest :
  Js.replaceFrom (String c pat) repl before (String c pat ++ rest) 0
  = (Js.substitution repl (String c pat) before rest
     ++ Js.replaceFrom (String c pat) repl (before ++ String c pat) rest 0)%string.
Proof.
  change (String c pat ++ rest)%string with (String c (pat ++ rest)).
  cbn [Js.replaceFrom].
  change (String c (pat ++ rest)) with (String c pat ++ rest)%string.
  rewrite prefix_append, drop_append. f_equal.
  cbn [String.length]. rewrite Nat.sub_1_r. cbn [Nat.pred].
  rewrite replaceFrom_skip. now rewrite append_assoc.
Qed.

Lemma replaceFrom_braceFree pat repl (a : string) : forall before rest,
  braceFree a = true ->
  Js.replaceFrom (String "{" pat) repl before (a ++ rest) 0
  = (a ++ Js.replaceFrom (String "{" pat) repl (before ++ a) rest 0)%string.
Proof.
  induction a as [|c a IH]; intros before rest Hfree.
  - cbn [String.append]. now rewrite append_empty.
  - cbn [braceFree] in Hfree. apply andb_true_iff in Hfree as (Hc & Ha).
    cbn [String.append Js.replaceFrom String.prefix].
    destruct (ascii_dec "{" c) as [<-|_]; [discriminate|].
    rewrite IH by exact Ha. now rewrite append_assoc.
Qed.

Lemma substitution_dollarFree repl matched before after :
  dollarFree repl = true -> Js.substitution repl matched before after = repl.
Proof.
  induction repl as [|c repl IH]; intros Hfree; [reflexivity|].
  cbn [dollarFree] in Hfree. apply andb_true_iff in Hfree as (Hc & Hrest).
  specialize (IH Hrest).
  destruct c as [[] [] [] [] [] [] [] []]; try discriminate Hc;
    cbn [Js.substitution]; now rewrite IH.
Qed.

Lemma templateOf_app ps qs : templateOf (ps ++ qs) = (templateOf ps ++ templateOf qs)%string.
Proof.
  induction ps as [|p ps IH]; [reflexivity|].
  cbn [app templateOf]. now rewrite IH, append_assoc.
Qed.

Lemma replaceFrom_other pat repl body before rest :
  String.prefix (String "{" pat) (String "{" body ++ rest) = false ->
  braceFree body = true ->
  Js.replaceFrom (String "{" pat) repl before (String "{" body ++ rest) 0
  = (String "{" body ++ Js.replaceFrom (String "{" pat) repl (before ++ String "{" body) rest 0)%string.
Proof.
  intros Hother Hbody.
  change (String "{" body ++ rest)%string with (String "{" (body ++ rest)) in *.
  cbn [Js.replaceFrom]. rewrite Hother.
  rewrite replaceFrom_braceFree by exact Hbody.
  rewrite append_assoc. reflexivity.
Qed.

Lemma replace_pass slot value :
  isSlot slot = true -> dollarFree value = true ->
  forall pieces before,
    Forall (fun p => literal p = true) pieces ->
    Js.replaceFrom (pieceText slot) value before (templateOf pieces) 0
    = templateOf (map (instantiate slot value) pieces).
Proof.
  intros Hslot Hvalue pieces.
  induction pieces as [|p rest IH]; intros before Hlit; [reflexivity|].
  inversion Hlit as [|? ? Hp Hrest]; subst.
  cbn [templateOf map].
  destruct p as [text| | |].
  - assert (E : pieceText slot = String "{" (Js.drop 1 (pieceText slot)))
      by (destruct slot; [discriminate| | |]; reflexivity).
    rewrite E, replaceFrom_braceFree by exact Hp. rewrite <- E.
    rewrite IH by exact Hrest.
    destruct slot; [discriminate| | |]; reflexivity.
  - destruct slot; [discriminate| | |]; cbn [pieceText instantiate samePiece];
      [rewrite replaceFrom_match, substitution_dollarFree by exact Hvalue
      |rewrite replaceFrom_other by reflexivity ..];
      now rewrite IH.
  - destruct slot; [discriminate| | |]; cbn [pieceText instantiate samePiece];
      [rewrite replaceFrom_other by reflexivity
      |rewrite replaceFrom_match, substitution_dollarFree by exact Hvalue
      |rewrite replaceFrom_other by reflexivity];
      now rewrite IH.
  - destruct slot; [discriminate| | |]; cbn [pieceText instantiate samePiece];
      [rewrite replaceFrom_other by reflexivity ..
      |rewrite replaceFrom_match, substitution_dollarFree by exact Hvalue];
      now rewrite IH.
Qed.

Lemma instantiate_literal slot value pieces :
  braceFree value = true ->
  Forall (fun p => literal p = true) pieces ->
  Forall (fun p => literal p = true) (map (instantiate slot value) pieces).
Proof.
  intros Hvalue Hlit. apply Forall_map. eapply Forall_impl; [|exact Hlit].
  intros p Hp. unfold instantiate. now destruct (samePiece slot p).
Qed.

Lemma templateOf_instantiated repo branch parent pieces :
  templateOf (map (instantiate ParentSlot parent)
                (map (instantiate BranchSlot branch)
                   (map (instantiate RepoSlot repo) pieces)))
  = filled repo branch parent pieces.
Proof.
  induction pieces as [|p rest IH]; [reflexivity|].
  cbn [map templateOf filled]. rewrite IH. now destruct p.
Qed.

(** A path template made of literal text and placeholders is filled in
    place: each [{repo}], [{branch}] and [{parent}] becomes the repository
    name, the branch name and the parent directory, and the literal text
    stays as it is.  This holds when the literal text has no opening brace
    and the three values have no dollar sign, the repository and branch
    names no opening brace either. *)
Theorem template_is_filled_in_place pieces repo branch parent :
  Forall (fun p => literal p = true) pieces ->
  dollarFree repo = true -> braceFree repo = true ->
  dollarFree branch = true -> braceFree branch = true ->
  dollarFree parent = true ->
  resolveWorktreePath (templateOf pieces) repo branch parent
  = filled repo branch parent pieces.
Proof.
  intros Hlit Hrepo1 Hrepo2 Hbranch1 Hbranch2 Hparent.
  unfold resolveWorktreePath, Js.replaceAll.
  change (Js.replaceFrom "{repo}") with (Js.replaceFrom (pieceText RepoSlot)).
  change (Js.replaceFrom "{branch}") with (Js.replaceFrom (pieceText BranchSlot)).
  change (Js.replaceFrom "{parent}") with (Js.replaceFrom (pieceText ParentSlot)).
  pose proof (@instantiate_literal RepoSlot repo pieces Hrepo2 Hlit) as Hlit1.
  pose proof (@instantiate_literal BranchSlot branch _ Hbranch2 Hlit1) as Hlit2.
  rewrite (@replace_pass RepoSlot repo eq_refl Hrepo1 pieces "" Hlit).
  rewrite (@replace_pass BranchSlot branch eq_refl Hbranch1 _ "" Hlit1).
  rewrite (@replace_pass ParentSlot parent eq_refl Hparent _ "" Hlit2).
  apply templateOf_instantiated.
Qed.

(** ** remove *)

Lemma emits_weaken {A} (p q : Event -> bool) (m : M A) :
  (forall e, p e = true -> q e = true) -> emits p m -> emits q m.
Proof. intros Hpq Hm w. eapply Forall_impl; [|apply Hm]. auto. Qed.

Lemma decided_goes_ahead options tty worktree (k : M unit) (w : World) :
  decided options tty ->
  (if orElse (force options) false then k
   else bind (confirmRemoval tty worktree)
          (fun confirmed : bool => if confirmed then k else logInfo "Cancelled")) w
  = prefixed (confirmation options worktree) (k w).
Proof.
  intros Hdec. unfold confirmation.
  destruct (orElse (force options) false) eqn:Hforce; [now rewrite prefixed_nil|].
  destruct Hdec as [Hf|(Htty & answer & Hreply & Hyes)]; [congruence|].
  unfold confirmRemoval. rewrite Htty. cbn [negb]. rewrite Hreply.
  rewrite bind_assoc. step. step. rewrite Hyes. reflexivity.
Qed.

Ltac enter_remove Hready :=
  let Hin := fresh "Hin" in
  let Hres := fresh "Hres" in
  let Hnot := fresh "Hnot" in
  let Hdec := fresh "Hdec" in
  let Hcfg := fresh "Hcfg" in
  destruct Hready as (Hin & Hres & Hnot & Hdec & Hcfg);
  unfold removeCommand;
  rewrite bind_attempt_ok with (E := Hin); cbv beta;
  step; step; step;
  rewrite bind_done with (E := Hres); cbv beta;
  rewrite Hnot;
  rewrite decided_goes_ahead by exact Hdec;
  unfold removeConfirmed, createHookRunner, logInfo, logSuccess, logWarn;
  rewrite bind_done with (E := Hcfg); cbv beta zeta;
  step.

Lemma remove_prelude_spares_branches options tty (w : World) worktree choosing config loading :
  RemoveReady options tty w worktree choosing config loading ->
  quiet isDeletion (removePrelude options w worktree choosing config loading).
Proof.
  intros (_ & Hres & _ & _ & Hcfg).
  assert (Hsel : Forall (fun e => isSelectionEvent e = true) choosing).
  { pose proof (emits_resolveTarget options tty (getDefaultBranch w) w) as H.
    now rewrite Hres in H. }
  assert (Hl : Forall (fun e => isLoaderEvent e = true) loading).
  { pose proof (emits_loadConfig (processCwd w) w) as H. now rewrite Hcfg in H. }
  unfold removePrelude.
  apply quiet_app; [unfold quiet, removeReads; repeat constructor|].
  apply quiet_app.
  { apply selection_quiet; [|exact Hsel].
    intros [| | | | |[]| | |] H; cbn in *; trivial; discriminate. }
  apply quiet_app.
  { unfold confirmation. destruct (orElse (force options) false);
      unfold quiet; repeat constructor. }
  apply quiet_app.
  { apply loading_quiet; [|exact Hl]. intros [] H; cbn in *; trivial; discriminate. }
  apply quiet_app; [|unfold quiet; repeat constructor].
  apply quiet_of_emits with (p := isRunnerEvent); [|apply emits_runHooks].
  intros [] H; cbn in *; trivial; discriminate.
Qed.

(** When the version-control system fails to remove the worktree, remove
    throws "Failed to remove worktree: ..." with the call's stderr and stops
    there: the branch is not deleted and the afterRemove hooks do not run.
    (In merge the same failure is only a warning.) *)
Theorem failed_removal_is_fatal options tty (w : World) worktree choosing config loading :
  RemoveReady options tty w worktree choosing config loading ->
  let pre := runHooks beforeRemove config (removeContext w worktree) w in
  let removed := removeWorktree (wt_path worktree) (worldOf pre) in
  exitCode (fst removed) <> 0%Z ->
  let r := removeCommand options tty w in
  r = (Raised (WtError ("Failed to remove worktree: " ++ stderr (fst removed)) 1),
       snd removed,
       removePrelude options w worktree choosing config loading)
  /\ quiet isDeletion (traceOf r).
Proof.
  intros Hready pre removed Hexit r.
  pose proof (remove_prelude_spares_branches Hready) as Hquiet.
  assert (E : r = (Raised (WtError ("Failed to remove worktree: "
                                      ++ stderr (fst removed)) 1),
                   snd removed,
                   removePrelude options w worktree choosing config loading)).
  { subst r. unfold removeContext in pre. enter_remove Hready.
    fold pre. step. step. fold removed.
    destruct (Z.eqb_spec (exitCode (fst removed)) 0) as [|_]; [contradiction|].
    cbn [negb]. tidy. unfold removePrelude, removeReads, removeContext. fold pre.
    cbn [app]; rewrite <- ?app_assoc; reflexivity. }
  rewrite E. cbn [traceOf snd]. split; [reflexivity|exact Hquiet].
Qed.

(** A removal that the version-control system carries out returns
    normally.  The worktree's branch, if it has one, is deleted next, and a
    failure to delete it is only a warning; the afterRemove hooks run after
    that, in the world the deletion left; and a success message ends the
    run. *)
Theorem remove_goes_through options tty (w : World) worktree choosing config loading :
  RemoveReady options tty w worktree choosing config loading ->
  let ctx := removeContext w worktree in
  let pre := runHooks beforeRemove config ctx w in
  let removed := removeWorktree (wt_path worktree) (worldOf pre) in
  exitCode (fst removed) = 0%Z ->
  let cleaned := branchCleanup worktree (snd removed) in
  let post := runHooks afterRemove config ctx (fst cleaned) in
  removeCommand options tty w
  = (Done tt, worldOf post,
     (removePrelude options w worktree choosing config loading
      ++ snd cleaned ++ traceOf post
      ++ [EvLog LSuccess ("Removed worktree '" ++ showBranch (wt_branch worktree)
                            ++ "' at " ++ wt_path worktree)])%list).
Proof.
  intros Hready ctx pre removed Hexit cleaned post.
  subst ctx. unfold removeContext in pre, post. enter_remove Hready.
  fold pre. step. step. fold removed. rewrite Hexit. cbn [Z.eqb negb].
  unfold cleaned, branchCleanup in post |- *.
  destruct (wt_branch worktree) as [branch|] eqn:Hb; [destruct (Js.truthy branch)|].
  - rewrite !bind_assoc. step. rewrite bind_assoc. step.
    destruct (negb (exitCode (fst (deleteBranch branch (snd removed))) =? 0)%Z);
      repeat step; cbn [fst snd] in post; fold post; repeat step; tidy;
      unfold removePrelude, removeReads, removeContext; rewrite ?Hb; fold pre;
      cbn [app fst snd]; rewrite <- ?app_assoc; reflexivity.
  - cbn [fst snd] in post. repeat step. fold post. repeat step. tidy.
    unfold removePrelude, removeReads, removeContext; rewrite ?Hb; fold pre;
      cbn [app fst snd]; rewrite <- ?app_assoc; reflexivity.
  - cbn [fst snd] in post. repeat step. fold post. repeat step. tidy.
    unfold removePrelude, removeReads, removeContext; rewrite ?Hb; fold pre;
      cbn [app fst snd]; rewrite <- ?app_assoc; reflexivity.
Qed.

Lemma emits_removeConfirmed p cwd repoRoot defaultBranch worktree :
  (forall e, isLoaderEvent e = true -> p e = true) ->
  (forall e, isRunnerEvent e = true -> p e = true) ->
  p (EvGit (RemoveWorktree (wt_path worktree))) = true ->
  (forall branch, wt_branch worktree = Some branch -> p (EvGit (DeleteBranch branch)) = true) ->
  emits p (removeConfirmed cwd repoRoot defaultBranch worktree).
Proof.
  intros Hload Hrun Hremove Hdelete.
  assert (Hlog : forall level message, p (EvLog level message) = true)
    by (intros; now apply Hrun).
  unfold removeConfirmed, createHookRunner, logInfo, logSuccess, logWarn.
  apply emits_bind; [apply emits_weaken with (p := isLoaderEvent); auto using emits_loadConfig|].
  intros config.
  assert (Hhooks : forall hookName ctx, emits p (runHooks hookName config ctx))
    by (intros; apply emits_weaken with (p := isRunnerEvent); auto using emits_runHooks).
  apply emits_bind; [apply Hhooks|]. intros _.
  apply emits_bind; [auto with runs|]. intros _.
  apply emits_bind; [auto with runs|]. intros removeResult.
  destruct (negb (exitCode removeResult =? 0)%Z); [auto with runs|].
  apply emits_bind.
  { destruct (wt_branch worktree) as [branch|]; [|auto with runs].
    destruct (Js.truthy branch); [|auto with runs].
    apply emits_bind; [auto with runs|]. intros _.
    apply emits_bind; [auto with runs|]. intros deleteResult.
    destruct (negb (exitCode deleteResult =? 0)%Z); auto with runs. }
  intros _. apply emits_bind; [apply Hhooks|]. intros _. auto with runs.
Qed.

Lemma emits_confirmRemoval p tty worktree :
  (forall level message, p (EvLog level message) = true) ->
  (forall question, p (EvPrompt question) = true) ->
  emits p (@confirmRemoval World tty worktree).
Proof.
  intros Hlog Hprompt. unfold confirmRemoval, logError.
  destruct (negb (isTTY tty)); [auto with runs|].
  apply emits_bind; [auto with runs|]. intros _.
  destruct (reply tty); auto with runs.
Qed.

(** Remove writes nothing on the success channel, whatever happens: the
    shell wrapper that changes directory to the printed line stays where it
    is. *)
Theorem remove_prints_nothing options tty (w : World) :
  stdoutLines (traceOf (removeCommand options tty w)) = [].
Proof.
  apply stdoutLines_none with (p := fun e => negb (isStdout e)).
  { intros [] H; cbn in *; trivial; discriminate. }
  revert w. change (emits (fun e => negb (isStdout e)) (removeCommand options tty)).
  unfold removeCommand, logInfo.
  apply emits_bind; [auto with runs|]. intros _.
  apply emits_bind; [auto with runs|]. intros cwd.
  apply emits_bind; [auto with runs|]. intros repoRoot.
  apply emits_bind; [auto with runs|]. intros defaultBranch.
  apply emits_bind.
  { apply emits_weaken with (p := isSelectionEvent); [|apply emits_resolveTarget].
    intros [] H; cbn in *; trivial; discriminate. }
  assert (Hgo : forall worktree,
             emits (fun e => negb (isStdout e))
               (removeConfirmed cwd repoRoot defaultBranch worktree)).
  { intros worktree. apply emits_removeConfirmed; try reflexivity.
    - intros [] H; cbn in *; trivial; discriminate.
    - intros [] H; cbn in *; trivial; discriminate. }
  intros [worktree|]; [|auto with runs].
  destruct (branchIs (wt_branch worktree) defaultBranch); [auto with runs|].
  destruct (orElse (force options) false); [apply Hgo|].
  apply emits_bind; [apply emits_confirmRemoval; reflexivity|].
  intros [|]; [apply Hgo|auto with runs].
Qed.

Lemma selection_no_intervention (t : list Event) :
  Forall (fun e => isSelectionEvent e = true) t -> quiet isIntervention t.
Proof.
  apply selection_quiet. intros [| | | | |[]| | |] H; cbn in *; trivial; discriminate.
Qed.

Lemma removeConfirmed_aimed cwd repoRoot defaultBranch worktree :
  emits (aimedAt worktree) (removeConfirmed cwd repoRoot defaultBranch worktree).
Proof.
  apply emits_removeConfirmed.
  - intros [] H; cbn in *; trivial; discriminate.
  - intros [] H; cbn in *; trivial; discriminate.
  - cbn. apply String.eqb_refl.
  - intros branch Hb. cbn. unfold branchIs. rewrite Hb. apply String.eqb_refl.
Qed.

(** Remove changes the repository or runs a hook only once a worktree that
    is not on the default branch has been chosen and the operator has
    committed to removing it, by the force flag or by answering [y] or [Y];
    and the only things it then asks of the version-control system are the
    removal of that worktree and the deletion of its branch. *)
Theorem remove_intervenes_only_when_decided options tty (w : World) e :
  In e (traceOf (removeCommand options tty w)) ->
  isIntervention e = true ->
  exists worktree choosing,
    resolveTarget options tty (getDefaultBranch w) w = (Done (Some worktree), w, choosing)
    /\ branchIs (wt_branch worktree) (getDefaultBranch w) = false
    /\ decided options tty
    /\ aimedAt worktree e = true.
Proof.
  revert e.
  pose (P := fun e : Event => exists worktree choosing,
    resolveTarget options tty (getDefaultBranch w) w = (Done (Some worktree), w, choosing)
    /\ branchIs (wt_branch worktree) (getDefaultBranch w) = false
    /\ decided options tty
    /\ aimedAt worktree e = true).
  cut (Forall (fun e => isIntervention e = true -> P e)
         (traceOf (removeCommand options tty w))).
  { intros H e Hin. exact (proj1 (Forall_forall _ _) H e Hin). }
  assert (Hbenign : forall t, quiet isIntervention t ->
                      Forall (fun e => isIntervention e = true -> P e) t).
  { intros t Ht. eapply Forall_impl; [|exact Ht]. cbn beta. intros e Hq He. congruence. }
  assert (Hreads : quiet isIntervention removeReads)
    by (unfold quiet, removeReads; repeat constructor).
  unfold removeCommand, logInfo.
  destruct (assertInsideGitRepo w) as [[]|err] eqn:Hrepo.
  2:{ rewrite bind_attempt_fail with (E := Hrepo). apply Hbenign.
      unfold quiet; repeat constructor. }
  rewrite bind_attempt_ok with (E := Hrepo). cbv beta. step. step. step.
  destruct (resolveTarget options tty (getDefaultBranch w) w) as [[o w1] choosing] eqn:Hres.
  assert (Hw : w1 = w).
  { pose proof (readOnly_resolveTarget options tty (getDefaultBranch w) w) as H.
    now rewrite Hres in H. }
  subst w1.
  assert (Hsel : quiet isIntervention choosing).
  { apply selection_no_intervention.
    pose proof (emits_resolveTarget options tty (getDefaultBranch w) w) as H.
    now rewrite Hres in H. }
  assert (Hgo : forall worktree front,
             Done (Some worktree) = o ->
             branchIs (wt_branch worktree) (getDefaultBranch w) = false ->
             decided options tty ->
             quiet isIntervention front ->
             Forall (fun e => isIntervention e = true -> P e)
               (traceOf (prefixed front
                           (removeConfirmed (processCwd w) (getRepoRoot w)
                              (getDefaultBranch w) worktree w)))).
  { intros worktree front Ho Hguard Hdec Hfront. rewrite traceOf_prefixed.
    apply Forall_app; split; [now apply Hbenign|].
    eapply Forall_impl; [|apply removeConfirmed_aimed].
    cbn beta. intros e Haim _. exists worktree, choosing. subst o. auto. }
  destruct o as [[worktree|]|err|].
  - rewrite bind_done with (E := Hres). cbv beta.
    destruct (branchIs (wt_branch worktree) (getDefaultBranch w)) eqn:Hguard.
    { tidy. apply Hbenign. cbn [traceOf snd]. rewrite ?app_nil_r.
      repeat apply quiet_app; auto; unfold quiet; repeat constructor. }
    destruct (orElse (force options) false) eqn:Hforce.
    { rewrite !prefixed_prefixed. apply Hgo; auto; [now left|].
      repeat apply quiet_app; auto; unfold quiet; repeat constructor. }
    destruct (isTTY tty) eqn:Htty.
    2:{ rewrite bind_done with (E := confirmRemoval_without_terminal tty worktree w Htty).
        tidy. apply Hbenign. cbn [traceOf snd].
        repeat apply quiet_app; auto; unfold quiet; repeat constructor. }
    unfold confirmRemoval. rewrite Htty. cbn [negb]. rewrite bind_assoc. step.
    destruct (reply tty) as [answer|] eqn:Hreply.
    2:{ unfold bind at 1. unfold pending. tidy. apply Hbenign. cbn [traceOf snd].
        repeat apply quiet_app; auto; unfold quiet; repeat constructor. }
    step. destruct (String.eqb (Js.toLowerCase answer) "y") eqn:Hyes.
    + rewrite !prefixed_prefixed. apply Hgo; auto.
      * right. split; [exact Htty|]. exists answer. split; [exact Hreply|].
        now apply String.eqb_eq.
      * repeat apply quiet_app; auto; unfold quiet; repeat constructor.
    + tidy. apply Hbenign. cbn [traceOf snd].
      repeat apply quiet_app; auto; unfold quiet; repeat constructor.
  - rewrite bind_done with (E := Hres). cbv beta. tidy. apply Hbenign.
    cbn [traceOf snd]. rewrite ?app_nil_r. repeat apply quiet_app; auto; unfold quiet; repeat constructor.
  - rewrite bind_raised with (E := Hres). tidy. apply Hbenign.
    cbn [traceOf snd]. repeat apply quiet_app; auto; unfold quiet; repeat constructor.
  - rewrite bind_pending with (E := Hres). tidy. apply Hbenign.
    cbn [traceOf snd]. repeat apply quiet_app; auto; unfold quiet; repeat constructor.
Qed.

Lemma render_done choices selectedIndex (w : World) :
  outcomeOf (render choices selectedIndex w) = Done tt.
Proof.
  unfold render, consoleError. step. step. now rewrite forEach_emit.
Qed.

Lemma bind_render {B} choices selectedIndex (k : unit -> M B) (w : World) :
  outcomeOf (bind (render choices selectedIndex) k w) = outcomeOf (k tt w).
Proof.
  pose proof (render_done choices selectedIndex w) as Hdone.
  pose proof (readOnly_render choices selectedIndex w) as Hsame.
  destruct (render choices selectedIndex w) as [[o w1] t] eqn:E. cbn in Hdone, Hsame.
  subst o w1. rewrite bind_done with (E := E). apply outcomeOf_prefixed.
Qed.

(** Whatever keys are pressed, the selection stays inside the list: the
    listener never reads past its ends. *)
Lemma onKeypress_stays_inside choices keys : forall selectedIndex (w : World),
  selectedIndex < length choices ->
  match outcomeOf (onKeypress choices selectedIndex keys w) with
  | Done (Some worktree) => In worktree (map ch_worktree choices)
  | Done None | Pending => True
  | Raised _ => False
  end.
Proof.
  induction keys as [|[key|] rest IH]; intros selectedIndex w Hin;
    cbn [onKeypress]; [exact I| |now apply IH].
  assert (Hsome : length choices <> 0).
  { intros Hnone. rewrite Hnone in Hin. inversion Hin. }
  destruct (keyIs key "up" || keyCtrl key && keyIs key "p").
  { rewrite bind_render. apply IH. now apply Nat.mod_upper_bound. }
  destruct (keyIs key "down" || keyCtrl key && keyIs key "n").
  { rewrite bind_render. apply IH. now apply Nat.mod_upper_bound. }
  destruct (keyIs key "return").
  { unfold cleanup, consoleError. rewrite bind_assoc. step. step.
    destruct (nth_error choices selectedIndex) as [choice|] eqn:Hnth.
    - tidy. cbn. apply in_map. eapply nth_error_In; eassumption.
    - apply nth_error_None in Hnth.
      exfalso. apply (Nat.lt_irrefl selectedIndex).
      eapply Nat.lt_le_trans; eassumption. }
  destruct (keyIs key "q" || keyIs key "escape" || keyCtrl key && keyIs key "c").
  { unfold cleanup, consoleError. rewrite bind_assoc. step. step. tidy. exact I. }
  now apply IH.
Qed.

Lemma choices_are_worktrees (worktrees : list Worktree) :
  map ch_worktree (map choiceOf worktrees) = worktrees.
Proof. rewrite map_map. cbn. apply map_id. Qed.

(** Interactive selection never fails and never reaches outside what it
    offers: without a name on the command line, the target of a removal is
    one of the listed worktrees that are not on the default branch, however
    far the operator moves the cursor up or down. *)
Theorem interactive_choice_is_an_offered_worktree options tty (w : World) :
  nameGiven options = None ->
  match outcomeOf (resolveTarget options tty (getDefaultBranch w) w) with
  | Done (Some worktree) =>
      In worktree (listWorktrees w)
      /\ branchIs (wt_branch worktree) (getDefaultBranch w) = false
  | Done None | Pending => True
  | Raised _ => False
  end.
Proof.
  intros Hname. unfold resolveTarget. rewrite Hname. step.
  set (offered := filter _ (listWorktrees w)).
  assert (Hoffered : forall worktree, In worktree offered ->
            In worktree (listWorktrees w)
            /\ branchIs (wt_branch worktree) (getDefaultBranch w) = false).
  { intros worktree Hin. apply filter_In in Hin as (Hin & Hnot).
    split; [exact Hin|]. now apply negb_true_iff in Hnot. }
  assert (Hsome : offered = [] \/ 0 < length offered)
    by (destruct offered; [now left|right; apply Nat.lt_0_succ]).
  clearbody offered.
  destruct Hsome as [->|Hsome]; [unfold logWarn; step; tidy; exact I|].
  assert (Hrun : match outcomeOf (interactiveSelect tty offered w) with
                 | Done (Some worktree) => In worktree offered
                 | Done None | Pending => True
                 | Raised _ => False
                 end).
  { unfold interactiveSelect, logError.
    destruct (negb (isTTY tty)); [step; tidy; exact I|].
    pose proof (@onKeypress_stays_inside (map choiceOf offered) (keypresses tty) 0 w) as Hkeys.
    rewrite length_map, choices_are_worktrees in Hkeys. specialize (Hkeys Hsome).
    pose proof (choices_are_worktrees offered) as Hback.
    destruct (map choiceOf offered) as [|c [|c' more]].
    - cbn in Hback. subst offered. inversion Hsome.
    - cbn in Hback. subst offered. cbn. now left.
    - step. rewrite outcomeOf_prefixed, bind_render. exact Hkeys. }
  destruct offered as [|first others]; [inversion Hsome|].
  rewrite outcomeOf_prefixed.
  destruct (outcomeOf (interactiveSelect tty (first :: others) w)) as [[worktree|]|err|];
    auto.
Qed.

(** ** merge, over all its paths *)

(** The three ways a merge that got as far as the merge call can end. *)
Lemma merge_ready_runs options (w : World) currentBranch mainWorktree config loading :
  MergeReady w currentBranch mainWorktree config loading ->
  let ctx := mergeContext w currentBranch mainWorktree in
  let merged :=
    mergeBranch currentBranch (wt_path mainWorktree)
      (worldOf (runHooks beforeMerge config ctx w)) in
  let prelude := mergePrelude w currentBranch mainWorktree config loading in
  let r := mergeCommand options w in
  (exitCode (fst merged) <> 0%Z
   /\ r = (Raised (MergeConflictError (getDefaultBranch w) (wt_path mainWorktree)),
           snd merged,
           (prelude ++ mergeFailureReport w mainWorktree (fst merged))%list))
  \/ (exitCode (fst merged) = 0%Z /\ orElse (keep options) false = true
      /\ exists final,
           r = (Done tt, worldOf final,
                (prelude
                 ++ [EvLog LSuccess ("Merged " ++ quoted currentBranch ++ " into "
                                       ++ quoted (getDefaultBranch w));
                     EvLog LInfo "Kept worktree and branch (--keep flag)"]
                 ++ traceOf (final : Run unit)
                 ++ [EvStdout (wt_path mainWorktree)])%list)
           /\ Forall (fun e => isRunnerEvent e = true) (traceOf final))
  \/ (exitCode (fst merged) = 0%Z /\ orElse (keep options) false = false
      /\ exists removeResult deleteResult (hooks1 hooks2 : list Event) w',
           r = (Done tt, w',
                (prelude
                 ++ [EvLog LSuccess ("Merged " ++ quoted currentBranch ++ " into "
                                       ++ quoted (getDefaultBranch w))]
                 ++ hooks1
                 ++ removalLog w removeResult
                 ++ deletionLog currentBranch deleteResult
                 ++ hooks2
                 ++ [EvLog LSuccess ("Merged and cleaned up " ++ quoted currentBranch);
                     EvStdout (wt_path mainWorktree)])%list)
           /\ Forall (fun e => isRunnerEvent e = true) hooks1
           /\ Forall (fun e => isRunnerEvent e = true) hooks2).
Proof.
  intros Hready ctx merged prelude r.
  destruct (Z.eqb_spec (exitCode (fst merged)) 0) as [Hexit|Hexit].
  2:{ left. split; [exact Hexit|].
      subst r prelude ctx. unfold mergeContext in merged. enter_merge Hready. fold merged.
      destruct (Z.eqb_spec (exitCode (fst merged)) 0) as [|_]; [contradiction|].
      cbn [negb]. step.
      unfold mergeFailureReport, mergePrelude, mergeReads, mergeContext.
      destruct (Js.truthy (stderr (fst merged))), (Js.truthy (stdout (fst merged)));
        repeat step; tidy; cbn [app]; rewrite <- ?app_assoc; reflexivity. }
  right. destruct (orElse (keep options) false) eqn:Hkeep; [left|right];
    (split; [exact Hexit|]); (split; [reflexivity|]).
  - exists (runHooks afterMerge config ctx (snd merged)).
    split; [|apply emits_runHooks].
    subst r prelude ctx. unfold mergeContext in merged |- *.
    enter_merge Hready. fold merged. rewrite Hexit, Hkeep. cbn [Z.eqb negb].
    repeat step. tidy.
    unfold mergePrelude, mergeReads, mergeContext.
    cbn [app]; rewrite <- ?app_assoc; reflexivity.
  - pose (pre := runHooks beforeRemove config ctx (snd merged)).
    pose (removed := removeWorktree (processCwd w) (worldOf pre)).
    pose (deleted := deleteBranch currentBranch (snd removed)).
    pose (post := runHooks afterRemove config ctx (snd deleted)).
    pose (final := runHooks afterMerge config ctx (worldOf post)).
    exists (fst removed), (fst deleted), (traceOf pre), (traceOf post ++ traceOf final)%list,
      (worldOf final).
    split; [|split; [apply emits_runHooks|apply Forall_app; split; apply emits_runHooks]].
    subst r prelude ctx. unfold mergeContext in merged, pre, post, final.
    enter_merge Hready. fold merged. rewrite Hexit, Hkeep. cbn [Z.eqb negb].
    step. step. fold pre. step. step. fold removed.
    unfold removalLog, deletionLog, mergePrelude, mergeReads, mergeContext.
    destruct (negb (exitCode (fst removed) =? 0)%Z); step; step; fold deleted;
      (destruct (negb (exitCode (fst deleted) =? 0)%Z); step; step; fold post;
       step; fold final; step; tidy;
       cbn [app]; rewrite <- ?app_assoc; reflexivity).
Qed.

(** A merge either stops before it has changed anything or run any hook,
    or it gets as far as the merge call. *)
Lemma merge_stops_early_or_is_ready options (w : World) :
  (exists o t,
     mergeCommand options w = (o, w, t)
     /\ (forall u, o <> Done u)
     /\ quiet isIntervention t
     /\ stdoutLines t = [])
  \/ (exists currentBranch mainWorktree config loading,
        MergeReady w currentBranch mainWorktree config loading).
Proof.
  assert (Hstop : forall (o : Outcome unit) t,
            (forall u, o <> Done u) ->
            Forall (fun e => negb (isIntervention e) && negb (isStdout e) = true) t ->
            mergeCommand options w = (o, w, t) ->
            exists o t,
              mergeCommand options w = (o, w, t)
              /\ (forall u, o <> Done u)
              /\ quiet isIntervention t
              /\ stdoutLines t = []).
  { intros o t Ho Ht E. exists o, t. split; [exact E|]. split; [exact Ho|]. split.
    - eapply Forall_impl; [|exact Ht]. cbn beta. intros e He.
      apply andb_true_iff in He as (He & _). now apply negb_true_iff in He.
    - apply stdoutLines_none with (p := fun e => negb (isIntervention e) && negb (isStdout e));
        [|exact Ht].
      intros [] H; cbn in *; trivial; discriminate. }
  destruct (assertInsideGitRepo w) as [[]|err] eqn:Hin.
  2:{ left. eapply Hstop with (o := Raised err); [discriminate| |].
      2:{ unfold mergeCommand. rewrite bind_attempt_fail with (E := Hin). reflexivity. }
      repeat constructor. }
  destruct (getCurrentBranch w) as [currentBranch|err] eqn:Hcur.
  2:{ left. eapply Hstop with (o := Raised err); [discriminate| |].
      2:{ unfold mergeCommand. rewrite bind_attempt_ok with (E := Hin). cbv beta.
          step. step. rewrite bind_attempt_fail with (E := Hcur). tidy. reflexivity. }
      repeat constructor. }
  destruct (String.eqb currentBranch (getDefaultBranch w)) eqn:Hneq.
  { left. eapply Hstop; [| |].
    3:{ unfold mergeCommand. rewrite bind_attempt_ok with (E := Hin). cbv beta.
        step. step. rewrite bind_attempt_ok with (E := Hcur). cbv beta.
        step. rewrite Hneq. tidy. reflexivity. }
    - discriminate.
    - repeat constructor. }
  destruct (getMainWorktree w) as [mainWorktree|err] eqn:Hmain.
  2:{ left. eapply Hstop with (o := Raised err); [discriminate| |].
      2:{ unfold mergeCommand. rewrite bind_attempt_ok with (E := Hin). cbv beta.
          step. step. rewrite bind_attempt_ok with (E := Hcur). cbv beta.
          step. rewrite Hneq. rewrite bind_attempt_fail with (E := Hmain).
          tidy. reflexivity. }
      repeat constructor. }
  destruct (loadConfig (processCwd w) w) as [[o w1] loading] eqn:Hcfg.
  assert (Hw : w1 = w).
  { pose proof (readOnly_loadConfig (processCwd w) w) as H. now rewrite Hcfg in H. }
  subst w1.
  assert (Hl : Forall (fun e => isLoaderEvent e = true) loading).
  { pose proof (emits_loadConfig (processCwd w) w) as H. now rewrite Hcfg in H. }
  assert (Hharmless : Forall (fun e => negb (isIntervention e) && negb (isStdout e) = true)
                        loading).
  { eapply Forall_impl; [|exact Hl]. intros [] H; cbn in *; trivial; discriminate. }
  destruct o as [config|err|].
  - right. exists currentBranch, mainWorktree, config, loading. repeat split; assumption.
  - left. eapply Hstop with (o := Raised err); [discriminate| |].
    2:{ unfold mergeCommand. rewrite bind_attempt_ok with (E := Hin). cbv beta.
        step. step. rewrite bind_attempt_ok with (E := Hcur). cbv beta.
        step. rewrite Hneq. rewrite bind_attempt_ok with (E := Hmain). cbv beta.
        rewrite bind_raised with (E := Hcfg). tidy. reflexivity. }
    repeat (apply Forall_app; split); try exact Hharmless; repeat constructor.
  - left. eapply Hstop with (o := Pending); [discriminate| |].
    2:{ unfold mergeCommand. rewrite bind_attempt_ok with (E := Hin). cbv beta.
        step. step. rewrite bind_attempt_ok with (E := Hcur). cbv beta.
        step. rewrite Hneq. rewrite bind_attempt_ok with (E := Hmain). cbv beta.
        rewrite bind_pending with (E := Hcfg). tidy. reflexivity. }
    repeat (apply Forall_app; split); try exact Hharmless; repeat constructor.
Qed.

Lemma quiet_In p (t : list Event) e : quiet p t -> In e t -> p e = true -> False.
Proof.
  intros Hq Hin He. unfold quiet in Hq.
  pose proof (proj1 (Forall_forall _ _) Hq e Hin) as H. cbn beta in H. congruence.
Qed.

Lemma runner_events_no_teardown (t : list Event) :
  Forall (fun e => isRunnerEvent e = true) t -> quiet isTeardown t.
Proof.
  apply quiet_of_emits. intros [] H; cbn in *; trivial; discriminate.
Qed.

Lemma runner_events_no_stdout (t : list Event) :
  Forall (fun e => isRunnerEvent e = true) t -> stdoutLines t = [].
Proof.
  apply stdoutLines_none. intros [] H; cbn in *; trivial; discriminate.
Qed.

Lemma failure_report_no_teardown (w : World) mainWorktree result :
  quiet isTeardown (mergeFailureReport w mainWorktree result).
Proof.
  unfold mergeFailureReport, quiet.
  destruct (Js.truthy (stderr result)), (Js.truthy (stdout result)); repeat constructor.
Qed.

(** Merge removes a worktree or deletes a branch only after a merge that
    the version-control system accepted, and only when keep was not
    requested; what it then removes is the worktree it was started in, and
    what it deletes is the branch that was merged. *)
Theorem merge_tears_down_only_after_merging options (w : World) e :
  In e (traceOf (mergeCommand options w)) ->
  isTeardown e = true ->
  orElse (keep options) false = false
  /\ exists currentBranch mainWorktree config loading,
       MergeReady w currentBranch mainWorktree config loading
       /\ exitCode (fst (mergeBranch currentBranch (wt_path mainWorktree)
                           (worldOf (runHooks beforeMerge config
                                       (mergeContext w currentBranch mainWorktree) w))))
          = 0%Z
       /\ (e = EvGit (RemoveWorktree (processCwd w))
           \/ e = EvGit (DeleteBranch currentBranch)).
Proof.
  intros Hin He.
  destruct (merge_stops_early_or_is_ready options w)
    as [(o & t & E & _ & Hq & _)|(currentBranch & mainWorktree & config & loading & Hready)].
  { rewrite E in Hin. cbn [traceOf snd] in Hin. exfalso.
    eapply quiet_In; [exact Hq|exact Hin|]. unfold isIntervention.
    destruct e as [| | | | |[]| | |]; cbn in *; trivial; discriminate. }
  destruct (prelude_silent Hready) as [_ Hprelude].
  destruct (merge_ready_runs options Hready)
    as [(Hexit & E)
       |[(Hexit & Hkeep & final & E & Hfinal)
        |(Hexit & Hkeep & removeResult & deleteResult & hooks1 & hooks2 & w' & E & H1 & H2)]];
    rewrite E in Hin; cbn [traceOf snd] in Hin.
  - exfalso. eapply quiet_In; [|exact Hin|exact He].
    apply quiet_app; [exact Hprelude|apply failure_report_no_teardown].
  - exfalso. eapply quiet_In; [|exact Hin|exact He].
    apply quiet_app; [exact Hprelude|].
    apply quiet_app; [unfold quiet; repeat constructor|].
    apply quiet_app; [now apply runner_events_no_teardown|unfold quiet; repeat constructor].
  - split; [exact Hkeep|].
    exists currentBranch, mainWorktree, config, loading.
    split; [exact Hready|]. split; [exact Hexit|].
    apply in_app_or in Hin as [Hin|Hin]; [exfalso; eapply quiet_In; [exact Hprelude|exact Hin|exact He]|].
    apply in_app_or in Hin as [Hin|Hin].
    { destruct Hin as [<-|[]]. discriminate He. }
    apply in_app_or in Hin as [Hin|Hin].
    { exfalso. eapply quiet_In; [exact (runner_events_no_teardown H1)|exact Hin|exact He]. }
    apply in_app_or in Hin as [Hin|Hin].
    { left. unfold removalLog in Hin.
      apply in_app_or in Hin as [Hin|Hin].
      - destruct Hin as [<-|[<-|[]]]; [discriminate He|reflexivity].
      - destruct (negb (exitCode removeResult =? 0)%Z); [|destruct Hin].
        destruct Hin as [<-|[]]. discriminate He. }
    apply in_app_or in Hin as [Hin|Hin].
    { right. unfold deletionLog in Hin.
      destruct Hin as [<-|[<-|[]]]; [reflexivity|].
      destruct (negb (exitCode deleteResult =? 0)%Z); discriminate He. }
    apply in_app_or in Hin as [Hin|Hin].
    { exfalso. eapply quiet_In; [exact (runner_events_no_teardown H2)|exact Hin|exact He]. }
    destruct Hin as [<-|[<-|[]]]; discriminate He.
Qed.

(** What merge prints on the success channel, for the shell wrapper to
    change directory to: when it returns normally, the primary worktree's
    path and nothing else; when it fails, either nothing, or the directory
    it was started in, and the latter only with the merge-conflict error. *)
Theorem merge_prints_where_to_go options (w : World) :
  let r := mergeCommand options w in
  match outcomeOf r with
  | Done _ =>
      exists mainWorktree,
        getMainWorktree w = Ok mainWorktree
        /\ stdoutLines (traceOf r) = [wt_path mainWorktree]
  | Raised error =>
      stdoutLines (traceOf r) = []
      \/ (stdoutLines (traceOf r) = [processCwd w]
          /\ exists mainWorktree,
               getMainWorktree w = Ok mainWorktree
               /\ error = MergeConflictError (getDefaultBranch w) (wt_path mainWorktree))
  | Pending => stdoutLines (traceOf r) = []
  end.
Proof.
  intros r. subst r.
  destruct (merge_stops_early_or_is_ready options w)
    as [(o & t & E & Ho & _ & Hout)|(currentBranch & mainWorktree & config & loading & Hready)].
  { rewrite E. cbn [outcomeOf traceOf fst snd].
    destruct o as [u|err|]; [now destruct (Ho u)|now left|exact Hout]. }
  destruct (prelude_silent Hready) as [Hprelude _].
  assert (Hmain : getMainWorktree w = Ok mainWorktree) by apply Hready.
  destruct (merge_ready_runs options Hready)
    as [(Hexit & E)
       |[(Hexit & Hkeep & final & E & Hfinal)
        |(Hexit & Hkeep & removeResult & deleteResult & hooks1 & hooks2 & w' & E & H1 & H2)]];
    rewrite E; cbn [outcomeOf traceOf fst snd].
  - right. split; [|now exists mainWorktree].
    rewrite stdoutLines_app, Hprelude. unfold mergeFailureReport.
    destruct (Js.truthy (stderr _)), (Js.truthy (stdout _)); reflexivity.
  - exists mainWorktree. split; [exact Hmain|].
    rewrite !stdoutLines_app, Hprelude, (runner_events_no_stdout Hfinal). reflexivity.
  - exists mainWorktree. split; [exact Hmain|].
    rewrite !stdoutLines_app, Hprelude, (runner_events_no_stdout H1),
      (runner_events_no_stdout H2).
    unfold removalLog, deletionLog.
    destruct (negb (exitCode removeResult =? 0)%Z),
      (negb (exitCode deleteResult =? 0)%Z); reflexivity.
Qed.

(** ** create, over all its paths *)

Lemma announces_bind {A B} lines (m : M A) (k : A -> M B) (w : World) :
  stdoutLines (traceOf (m w)) = [] ->
  (forall a w1, announces lines (k a w1)) ->
  announces lines (bind m k w).
Proof.
  intros Hm Hk. unfold bind, announces in *.
  destruct (m w) as [[[a|e|] w1] t1]; cbn [traceOf outcomeOf fst snd] in *;
    [|exact Hm..].
  specialize (Hk a w1).
  destruct (k a w1) as [[o w2] t2]. cbn [traceOf outcomeOf fst snd] in *.
  now rewrite stdoutLines_app, Hm.
Qed.

Lemma act_trace {A} call (f : World -> A * World) (w : World) :
  traceOf (act call f w) = [call].
Proof. unfold act. now destruct (f w). Qed.

Lemma announces_prefixed {A} lines t (r : Run A) :
  stdoutLines t = [] -> announces lines r -> announces lines (prefixed t r).
Proof.
  intros Ht Hr. unfold announces in *.
  now rewrite traceOf_prefixed, outcomeOf_prefixed, stdoutLines_app, Ht.
Qed.

(** Create prints on the success channel only when it returns normally,
    and then exactly the path of the new worktree; on every failing path it
    prints nothing. *)
Theorem create_prints_only_on_success name (w : World) :
  let r := createCommand name w in
  match outcomeOf r with
  | Done _ =>
      exists config loading,
        CreateReady w config loading
        /\ stdoutLines (traceOf r) = [createTarget w config name]
  | _ => stdoutLines (traceOf r) = []
  end.
Proof.
  intros r. subst r. unfold createCommand.
  destruct (assertInsideGitRepo w) as [[]|err] eqn:Hin.
  2:{ rewrite bind_attempt_fail with (E := Hin). reflexivity. }
  rewrite bind_attempt_ok with (E := Hin). cbv beta. step. step. step. step.
  destruct (loadConfig (processCwd w) w) as [[o w1] loading] eqn:Hcfg.
  assert (Hw : w1 = w).
  { pose proof (readOnly_loadConfig (processCwd w) w) as H. now rewrite Hcfg in H. }
  subst w1.
  assert (Hl : stdoutLines loading = []).
  { apply loading_no_stdout.
    pose proof (emits_loadConfig (processCwd w) w) as H. now rewrite Hcfg in H. }
  destruct o as [config|err|].
  2:{ rewrite bind_raised with (E := Hcfg). tidy. cbn [outcomeOf traceOf fst snd].
      now rewrite !stdoutLines_app, Hl. }
  2:{ rewrite bind_pending with (E := Hcfg). tidy. cbn [outcomeOf traceOf fst snd].
      now rewrite !stdoutLines_app, Hl. }
  rewrite bind_done with (E := Hcfg). cbv beta zeta.
  fold (createTarget w config name). set (target := createTarget w config name).
  match goal with
  | |- context [prefixed ?front (prefixed loading ?rest)] =>
      assert (Hrun : announces [target] (prefixed front (prefixed loading rest)))
  end.
  { unfold createHookRunner, logInfo, logSuccess, consoleLog.
    repeat apply announces_prefixed; try reflexivity; try exact Hl.
    apply announces_bind; [reflexivity|]. intros [|] w1; [reflexivity|].
    apply announces_bind; [apply runner_no_stdout|]. intros _ w2.
    apply announces_bind; [reflexivity|]. intros known w3.
    apply announces_bind; [reflexivity|]. intros _ w4.
    apply announces_bind; [now rewrite act_trace|]. intros result w5.
    destruct (negb (exitCode result =? 0)%Z); [reflexivity|].
    apply announces_bind.
    { destruct (s_copyGitIgnoredFiles (cfg_settings config)); [|reflexivity].
      step. destruct (0 <? _)%nat; tidy; reflexivity. }
    intros _ w6.
    apply announces_bind; [apply runner_no_stdout|]. intros _ w7.
    apply announces_bind; [reflexivity|]. intros _ w8. reflexivity. }
  unfold announces in Hrun.
  destruct (outcomeOf _); [|exact Hrun..].
  exists config, loading. split; [split; assumption|exact Hrun].
Qed.

(** ** Worktrees beside the repository *)

Lemma chars_append (a b : string) :
  list_ascii_of_string (a ++ b) = (list_ascii_of_string a ++ list_ascii_of_string b)%list.
Proof. induction a as [|c a IH]; cbn; [reflexivity|now rewrite IH]. Qed.

Lemma chars_length (s : string) : length (list_ascii_of_string s) = String.length s.
Proof. induction s as [|c s IH]; cbn; [reflexivity|now rewrite IH]. Qed.

Lemma length_append (a b : string) :
  String.length (a ++ b) = String.length a + String.length b.
Proof. induction a as [|c a IH]; cbn; [reflexivity|now rewrite IH]. Qed.

Lemma substring_prefix (a b : string) : String.substring 0 (String.length a) (a ++ b) = a.
Proof.
  induction a as [|c a IH]; cbn; [now destruct b|now rewrite IH].
Qed.

Lemma chars_slashFree (s : string) :
  Path.slashFree s = true ->
  Forall (fun c => Ascii.eqb c "/" = false) (list_ascii_of_string s).
Proof.
  induction s as [|c s IH]; cbn [Path.slashFree list_ascii_of_string]; intros H;
    [constructor|].
  apply andb_prop in H as [Hc Hs]. constructor; [now apply negb_true_iff|auto].
Qed.

Lemma scan_none (l : list ascii) : forall matchedSlash cut,
  Forall (fun c => Ascii.eqb c "/" = false) l -> Path.scan l matchedSlash cut = None.
Proof.
  induction l as [|c l IH]; intros matchedSlash cut H; [reflexivity|].
  inversion H as [|? ? Hc Hl]; subst. cbn [Path.scan]. rewrite Hc. now apply IH.
Qed.

Lemma scan_segment (l : list ascii) : forall matchedSlash cut rest,
  Forall (fun c => Ascii.eqb c "/" = false) l -> l <> [] ->
  Path.scan (l ++ "/"%char :: rest) matchedSlash cut = Some (S (cut + length l)).
Proof.
  induction l as [|c l IH]; intros matchedSlash cut rest H Hsome; [congruence|].
  inversion H as [|? ? Hc Hl]; subst. cbn [app Path.scan length]. rewrite Hc.
  destruct l as [|c' l'].
  - cbn. now rewrite Nat.add_1_r.
  - rewrite IH by (auto; discriminate). now rewrite Nat.add_succ_r.
Qed.

Lemma join_last (dir : string) (dirs : list string) (base : string) :
  Js.join "/" ((dir :: dirs) ++ [base])
  = (Js.join "/" (dir :: dirs) ++ String "/" base)%string.
Proof.
  revert dir; induction dirs as [|next dirs IH]; intros dir; [reflexivity|].
  change (Js.join "/" ((dir :: next :: dirs) ++ [base]))
    with (dir ++ String "/" (Js.join "/" ((next :: dirs) ++ [base])))%string.
  rewrite IH.
  change (Js.join "/" (dir :: next :: dirs))
    with (dir ++ String "/" (Js.join "/" (next :: dirs)))%string.
  now rewrite append_assoc.
Qed.

Lemma plain_not_empty seg : Path.plain seg = true -> seg <> "".
Proof. intros H ->. discriminate H. Qed.

(** The directory of /dirs/base is /dirs. *)
Lemma dirname_absolute (dirs : list string) (base : string) :
  Path.plain base = true ->
  Forall (fun s => Path.plain s = true) dirs ->
  Path.dirname (Path.absolute (dirs ++ [base])) = Path.absolute dirs.
Proof.
  intros Hbase Hdirs.
  pose proof (@chars_slashFree base (@plain_slashFree base Hbase)) as Hchars.
  assert (Hrev : Forall (fun c => Ascii.eqb c "/" = false)
                   (rev (list_ascii_of_string base))) by now apply Forall_rev.
  unfold Path.dirname, Path.absolute.
  destruct dirs as [|dir dirs].
  - cbn [app Js.join String.append list_ascii_of_string Ascii.eqb].
    change (Ascii.eqb "/" "/") with true. cbv iota beta zeta.
    now rewrite scan_none.
  - rewrite join_last.
    set (D := Js.join "/" (dir :: dirs)).
    change ("/" ++ D ++ String "/" base)%string with (String "/" (D ++ String "/" base)).
    cbn [list_ascii_of_string]. change (Ascii.eqb "/" "/") with true. cbv iota beta zeta.
    rewrite chars_append. cbn [list_ascii_of_string].
    rewrite rev_app_distr. cbn [rev]. rewrite <- app_assoc. cbn [app].
    rewrite scan_segment.
    + assert (Hkeep : String.length (String "/" (D ++ String "/" base))
                      - S (0 + length (rev (list_ascii_of_string base)))
                      = S (String.length D)).
      { cbn [String.length]. rewrite length_append. cbn [String.length].
        rewrite length_rev, chars_length. cbn [Nat.add Nat.sub].
        rewrite Nat.add_succ_r, <- Nat.add_succ_l. apply Nat.add_sub. }
      rewrite Hkeep.
      assert (Hsome : exists c rest, D = String c rest).
      { inversion Hdirs as [|? ? Hdir _]; subst.
        destruct dir as [|c dir]; [discriminate Hdir|].
        subst D. destruct dirs; cbn [Js.join String.append]; eauto. }
      destruct Hsome as (c & rest & HD). rewrite HD at 1. cbn [String.length].
      cbn [andb Nat.eqb]. cbn [substring]. now rewrite substring_prefix.
    + exact Hrev.
    + intros Hnone. apply (f_equal (@length ascii)) in Hnone.
      rewrite length_rev, chars_length in Hnone.
      destruct base; discriminate.
Qed.

Lemma dollarFree_append (a b : string) :
  dollarFree a = true -> dollarFree b = true -> dollarFree (a ++ b) = true.
Proof.
  induction a as [|c a IH]; cbn [dollarFree String.append]; intros Ha Hb; [exact Hb|].
  apply andb_prop in Ha as [Hc Ha]. rewrite Hc. now apply IH.
Qed.

Lemma dollarFree_absolute (dirs : list string) :
  Forall (fun s => dollarFree s = true) dirs -> dollarFree (Path.absolute dirs) = true.
Proof.
  intros H. unfold Path.absolute. apply dollarFree_append; [reflexivity|].
  induction H as [|dir dirs Hdir Hdirs IH]; [reflexivity|].
  destruct dirs as [|next dirs]; [exact Hdir|].
  change (Js.join "/" (dir :: next :: dirs))
    with (dir ++ "/" ++ Js.join "/" (next :: dirs))%string.
  apply dollarFree_append; [exact Hdir|]. apply dollarFree_append; [reflexivity|exact IH].
Qed.

Lemma slashFree_append (a b : string) :
  Path.slashFree a = true -> Path.slashFree b = true -> Path.slashFree (a ++ b) = true.
Proof.
  induction a as [|c a IH]; cbn [Path.slashFree String.append]; intros Ha Hb; [exact Hb|].
  apply andb_prop in Ha as [Hc Ha]. rewrite Hc. now apply IH.
Qed.

Lemma plain_hyphenated (repo branch : string) :
  Path.plain repo = true -> Path.plain branch = true ->
  Path.plain (repo ++ "-" ++ branch) = true.
Proof.
  intros Hrepo Hbranch. unfold Path.plain.
  rewrite slashFree_append;
    [|now apply plain_slashFree
     |apply slashFree_append; [reflexivity|now apply plain_slashFree]].
  destruct repo as [|c1 [|c2 [|c3 repo]]]; [discriminate Hrepo|..];
    cbn [String.append String.eqb];
    repeat match goal with
           | |- context [Ascii.eqb ?c "."%char] =>
               lazymatch c with
               | "-"%char => change (Ascii.eqb c "."%char) with false
               | _ => destruct (Ascii.eqb c "."%char)
               end
           end; reflexivity.
Qed.

(** An absolute path made of plain names, followed by one more plain name,
    resolves to itself whatever the working directory is. *)
Lemma resolve_absolute_child cwd (dirs : list string) (leaf : string) :
  Forall (fun s => Path.plain s = true) dirs ->
  Path.plain leaf = true ->
  Path.resolve cwd (Path.absolute dirs ++ "/" ++ leaf) = Path.absolute (dirs ++ [leaf]).
Proof.
  intros Hdirs Hleaf.
  unfold Path.resolve, Path.absolute.
  assert (Habs : Path.isAbsolute (("/" ++ Js.join "/" dirs) ++ "/" ++ leaf) = true).
  { unfold Path.isAbsolute.
    change ((("/" ++ Js.join "/" dirs) ++ "/" ++ leaf)%string)
      with (String "/" (Js.join "/" dirs ++ String "/" leaf)).
    now destruct (Js.join "/" dirs ++ String "/" leaf)%string. }
  rewrite Habs. unfold Path.normalizeAbsolute. f_equal. f_equal.
  change ((("/" ++ Js.join "/" dirs) ++ "/" ++ leaf)%string)
    with (String "/" (Js.join "/" dirs ++ String "/" leaf)).
  change (Js.splitOn "/" (String "/" ?y)) with ("" :: Js.splitOn "/" y).
  rewrite normalizeSegments_skip.
  assert (Hall : Forall (fun s => Path.plain s = true) (dirs ++ [leaf]))
    by (apply Forall_app; split; [exact Hdirs|now constructor]).
  destruct dirs as [|dir dirs].
  - cbn [Js.join String.append app].
    change (Js.splitOn "/" (String "/" leaf)) with ("" :: Js.splitOn "/" leaf).
    rewrite normalizeSegments_skip.
    rewrite splitOn_last by now apply plain_slashFree.
    change [leaf] with ([leaf] ++ [])%list at 1.
    rewrite normalizeSegments_plain by (now constructor). reflexivity.
  - rewrite splitOn_join_then by exact Hdirs.
    rewrite splitOn_last by now apply plain_slashFree.
    rewrite <- (app_nil_r ((dir :: dirs) ++ [leaf])) at 1.
    rewrite normalizeSegments_plain by exact Hall.
    cbn [Path.normalizeSegments]. now rewrite app_nil_r, rev_involutive.
Qed.

(** With the template [{parent}/{repo}-{branch}] the new worktree is
    placed beside the repository root, whatever directory the command is
    run from: for a repository at /dirs/base it is /dirs/repo-branch. *)
Theorem parent_template_places_worktree_beside_repository (w : World) config name dirs base :
  s_worktreePath (cfg_settings config) = "{parent}/{repo}-{branch}" ->
  getRepoRoot w = Path.absolute (dirs ++ [base]) ->
  Forall (fun dir => Path.plain dir && dollarFree dir = true) dirs ->
  Path.plain base = true ->
  ordinary (getRepoName w) = true ->
  ordinary name = true ->
  createTarget w config name = Path.absolute (dirs ++ [getRepoName w ++ "-" ++ name]).
Proof.
  intros Htemplate Hroot Hdirs Hbase Hrepo Hname.
  assert (Hplain : Forall (fun s => Path.plain s = true) dirs).
  { eapply Forall_impl; [|exact Hdirs]. cbn beta. intros dir H.
    now apply andb_prop in H as [H _]. }
  assert (Hdollar : dollarFree (Path.absolute dirs) = true).
  { apply dollarFree_absolute. eapply Forall_impl; [|exact Hdirs]. cbn beta.
    intros dir H. now apply andb_prop in H as [_ H]. }
  unfold ordinary in Hrepo, Hname.
  apply andb_prop in Hrepo as [Hrepo Hrepo3]. apply andb_prop in Hrepo as [Hrepo1 Hrepo2].
  apply andb_prop in Hname as [Hname Hname3]. apply andb_prop in Hname as [Hname1 Hname2].
  unfold createTarget. rewrite Htemplate, Hroot, dirname_absolute by assumption.
  set (pieces := [ParentSlot; Lit "/"; RepoSlot; Lit "-"; BranchSlot]).
  assert (Hlit : Forall (fun p => literal p = true) pieces) by (repeat constructor).
  pose proof (@instantiate_literal RepoSlot (getRepoName w) pieces Hrepo3 Hlit) as Hlit1.
  pose proof (@instantiate_literal BranchSlot name _ Hname3 Hlit1) as Hlit2.
  change "{parent}/{repo}-{branch}" with (templateOf pieces).
  unfold resolveWorktreePath, Js.replaceAll.
  change (Js.replaceFrom "{repo}") with (Js.replaceFrom (pieceText RepoSlot)).
  change (Js.replaceFrom "{branch}") with (Js.replaceFrom (pieceText BranchSlot)).
  change (Js.replaceFrom "{parent}") with (Js.replaceFrom (pieceText ParentSlot)).
  rewrite (@replace_pass RepoSlot (getRepoName w) eq_refl Hrepo2 pieces "" Hlit).
  rewrite (@replace_pass BranchSlot name eq_refl Hname2 _ "" Hlit1).
  rewrite (@replace_pass ParentSlot (Path.absolute dirs) eq_refl Hdollar _ "" Hlit2).
  rewrite templateOf_instantiated. subst pieces. cbn [filled fill].
  rewrite append_empty.
  change (Path.absolute dirs ++ "/" ++ getRepoName w ++ "-" ++ name)%string
    with (Path.absolute dirs ++ "/" ++ (getRepoName w ++ "-" ++ name))%string.
  apply resolve_absolute_child; [exact Hplain|now apply plain_hyphenated].
Qed.

End Properties.

(* ------------------------------------------------------------------ *)
(** * Properties of the client, the lookup and the reports *)

Section Collaborators.

(** ** Reading the worktree listing *)

Lemma lineFree_append (a b : string) :
  Git.lineFree a = true -> Git.lineFree b = true -> Git.lineFree (a ++ b) = true.
Proof.
  induction a as [|c a IH]; cbn [Git.lineFree String.append]; intros Ha Hb; [exact Hb|].
  apply andb_prop in Ha as [Hc Ha]. rewrite Hc. now apply IH.
Qed.

Lemma lines_segment (seg rest : string) :
  Git.lineFree seg = true ->
  Js.lines (seg ++ String "010" rest) = seg :: Js.lines rest.
Proof.
  unfold Js.lines.
  induction seg as [|c seg IH]; cbn [Git.lineFree append Js.splitOn]; intros H.
  - reflexivity.
  - apply andb_prop in H as [Hc Hseg].
    destruct (Ascii.eqb c "010"); [discriminate|].
    now rewrite (IH Hseg).
Qed.

Lemma lines_last (seg : string) : Git.lineFree seg = true -> Js.lines seg = [seg].
Proof.
  unfold Js.lines.
  induction seg as [|c seg IH]; cbn [Git.lineFree Js.splitOn]; intros H.
  - reflexivity.
  - apply andb_prop in H as [Hc Hseg].
    destruct (Ascii.eqb c "010"); [discriminate|].
    now rewrite (IH Hseg).
Qed.

Lemma lines_join (line : string) (rest : list string) :
  Forall (fun s => Git.lineFree s = true) (line :: rest) ->
  Js.lines (Js.join Js.newline (line :: rest)) = line :: rest.
Proof.
  revert line; induction rest as [|next rest IH]; intros line H.
  - cbn [Js.join]. apply lines_last. now inversion H.
  - change (Js.join Js.newline (line :: next :: rest))
      with (line ++ String "010" (Js.join Js.newline (next :: rest)))%string.
    inversion H as [|? ? Hline Hrest]; subst.
    rewrite lines_segment by exact Hline. now rewrite IH.
Qed.

Lemma entry_is_read (e : Git.Entry) (acc : list Worktree) :
  fold_left Git.readLine (Git.entryLines e) (acc, Git.empty) = (acc, Git.opened e).
Proof.
  destruct e as [path commit checkout]. unfold Git.entryLines, Git.opened.
  cbn [Git.e_path Git.e_commit Git.e_checkout fold_left].
  assert (H1 : Git.readLine (acc, Git.empty) ("worktree " ++ path)
               = (acc, {| Git.p_path := Some path; Git.p_branch := None;
                          Git.p_isDetached := None |})).
  { unfold Git.readLine. rewrite prefix_append.
    change 9 with (String.length "worktree "). now rewrite drop_append. }
  rewrite H1.
  assert (H2 : forall state, Git.readLine state ("HEAD " ++ commit) = state).
  { intros [worktrees current]. reflexivity. }
  rewrite H2.
  destruct checkout as [name|].
  - unfold Git.readLine. cbn [fst snd Git.p_path Git.p_branch Git.p_isDetached].
    change (String.prefix "worktree " ("branch refs/heads/" ++ name)) with false.
    assert (Hb : String.prefix "branch " ("branch refs/heads/" ++ name) = true)
      by apply (prefix_append "branch " ("refs/heads/" ++ name)).
    rewrite Hb. cbv iota.
    change (Js.drop 7 ("branch refs/heads/" ++ name)) with ("refs/heads/" ++ name)%string.
    assert (Hr : Git.removeFirst "refs/heads/" ("refs/heads/" ++ name) = name).
    { change ("refs/heads/" ++ name)%string
        with (String "r" ("efs/heads/" ++ name)).
      cbn [Git.removeFirst].
      change (String "r" ("efs/heads/" ++ name)) with ("refs/heads/" ++ name)%string.
      rewrite prefix_append. apply drop_append. }
    now rewrite Hr.
  - reflexivity.
Qed.

Lemma opened_is_pushed (e : Git.Entry) :
  Git.wellFormed e = true -> Git.pushed (Git.opened e) = [Git.described e].
Proof.
  unfold Git.wellFormed. intros H.
  apply andb_prop in H as [H _]. apply andb_prop in H as [H _].
  apply andb_prop in H as [Hpath _].
  unfold Git.pushed, Git.opened, Git.described.
  destruct (Git.e_checkout e); cbn [Git.p_path Git.p_branch Git.p_isDetached orElse];
    now rewrite Hpath.
Qed.

Lemma entry_lines_lineFree (e : Git.Entry) :
  Git.wellFormed e = true -> Forall (fun s => Git.lineFree s = true) (Git.entryLines e).
Proof.
  unfold Git.wellFormed. intros H.
  apply andb_prop in H as [H Hname]. apply andb_prop in H as [H Hcommit].
  apply andb_prop in H as [_ Hpath].
  unfold Git.entryLines. repeat constructor.
  - now apply lineFree_append.
  - now apply lineFree_append.
  - destruct (Git.e_checkout e); [now apply lineFree_append|reflexivity].
Qed.

Lemma listing_lines_lineFree (entries : list Git.Entry) :
  Forall (fun e => Git.wellFormed e = true) entries ->
  Forall (fun s => Git.lineFree s = true) (Git.listingLines entries).
Proof.
  induction 1 as [|e rest He Hrest IH]; [constructor|].
  destruct rest as [|e' rest]; cbn [Git.listingLines].
  - now apply entry_lines_lineFree.
  - apply Forall_app. split; [now apply entry_lines_lineFree|].
    constructor; [reflexivity|exact IH].
Qed.

Lemma listing_lines_are_read (entries : list Git.Entry) : forall acc,
  Forall (fun e => Git.wellFormed e = true) entries ->
  entries <> [] ->
  let final := fold_left Git.readLine (Git.listingLines entries) (acc, Git.empty) in
  (fst final ++ Git.pushed (snd final))%list = (acc ++ map Git.described entries)%list.
Proof.
  induction entries as [|e rest IH]; intros acc Hall Hsome; [congruence|].
  inversion Hall as [|? ? He Hrest]; subst.
  destruct rest as [|e' rest].
  - cbn [Git.listingLines map]. cbv zeta. rewrite entry_is_read. cbn [fst snd].
    now rewrite opened_is_pushed.
  - change (Git.listingLines (e :: e' :: rest))
      with (Git.entryLines e ++ "" :: Git.listingLines (e' :: rest))%list.
    cbv zeta. rewrite fold_left_app, entry_is_read. cbn [fold_left].
    change (Git.readLine (acc, Git.opened e) "")
      with ((acc ++ Git.pushed (Git.opened e))%list, Git.empty).
    rewrite opened_is_pushed by exact He.
    rewrite (IH (acc ++ [Git.described e])%list Hrest) by discriminate.
    cbn [map]. now rewrite <- app_assoc.
Qed.

Section Listing.

Context {World : Type}.
Variable exec : string -> option string -> World -> ExecResult * World.

(** Every worktree the client lists has a path that is not empty, and one
    that is flagged as detached has no branch; this holds for any listing
    text whatsoever. *)
Theorem listed_worktrees_are_sound (w : World) :
  Forall (fun wt => wt_path wt <> "" /\ (wt_isDetached wt = true -> wt_branch wt = None))
    (fst (Git.listWorktrees exec w)).
Proof.
  set (sound := fun wt => wt_path wt <> ""
                          /\ (wt_isDetached wt = true -> wt_branch wt = None)).
  set (tidy := fun current =>
                 Git.p_isDetached current = Some true -> Git.p_branch current = Some None).
  assert (Hpushed : forall current, tidy current -> Forall sound (Git.pushed current)).
  { intros [path branch detached] Htidy. unfold Git.pushed, tidy in *. cbn in *.
    destruct path as [path|]; [|constructor].
    destruct path as [|c path]; cbn [Js.truthy]; [constructor|].
    repeat constructor; cbn; [discriminate|].
    destruct detached as [[|]|]; cbn; try discriminate.
    intros _. now rewrite Htidy. }
  assert (Hfold : forall lines state,
             Forall sound (fst state) -> tidy (snd state) ->
             Forall sound (fst (fold_left Git.readLine lines state))
             /\ tidy (snd (fold_left Git.readLine lines state))).
  { induction lines as [|line lines IH]; intros [worktrees current] Hacc Htidy;
      [now split|].
    cbn [fold_left]. apply IH; unfold Git.readLine; cbn [fst snd] in *;
      destruct (String.prefix "worktree " line); cbn [fst snd]; trivial;
      destruct (String.prefix "branch " line); cbn [fst snd]; trivial;
      destruct (String.eqb line "detached"); cbn [fst snd]; trivial;
      destruct (String.eqb line ""); cbn [fst snd]; trivial;
      try (unfold tidy; cbn; congruence).
    apply Forall_app. split; [exact Hacc|now apply Hpushed]. }
  unfold Git.listWorktrees.
  destruct (negb (exitCode (fst (exec "git worktree list --porcelain" None w)) =? 0)%Z);
    cbn [fst]; [constructor|].
  unfold Git.readListing.
  destruct (Hfold (Js.lines (stdout (fst (exec "git worktree list --porcelain" None w))))
              ([], Git.empty)) as [Hacc Htidy]; [constructor|unfold tidy; cbn; congruence|].
  apply Forall_app. split; [exact Hacc|now apply Hpushed].
Qed.

(** The client reads back what git prints: from the porcelain listing of
    a sequence of worktrees it returns exactly these worktrees, in order,
    each with its path and its branch, or flagged as detached. *)
Theorem listing_is_read_back (w : World) (entries : list Git.Entry) :
  Forall (fun e => Git.wellFormed e = true) entries ->
  exitCode (fst (exec "git worktree list --porcelain" None w)) = 0%Z ->
  stdout (fst (exec "git worktree list --porcelain" None w)) = Git.porcelain entries ->
  fst (Git.listWorktrees exec w) = map Git.described entries.
Proof.
  intros Hall Hexit Hout. unfold Git.listWorktrees. rewrite Hexit, Hout.
  cbn [Z.eqb negb fst]. unfold Git.readListing, Git.porcelain.
  destruct entries as [|e rest]; [reflexivity|].
  pose proof (listing_lines_lineFree Hall) as Hlines.
  destruct (Git.listingLines (e :: rest)) as [|line lines] eqn:E.
  { destruct rest; discriminate E. }
  rewrite lines_join by exact Hlines. rewrite <- E.
  apply (@listing_lines_are_read (e :: rest) [] Hall). discriminate.
Qed.

End Listing.

(** ** Looking up the configuration file *)

Lemma absolute_child_differs (dirs : list string) (base : string) :
  Path.plain base = true ->
  String.eqb (Path.absolute dirs) (Path.absolute (dirs ++ [base])) = false.
Proof.
  intros Hbase. apply String.eqb_neq. intros Hsame.
  apply (f_equal String.length) in Hsame. unfold Path.absolute in Hsame.
  destruct base as [|c base]; [discriminate Hbase|].
  destruct dirs as [|dir dirs].
  - cbn in Hsame. discriminate.
  - rewrite join_last in Hsame. cbn [String.append String.length] in Hsame.
    rewrite length_append in Hsame. cbn [String.length] in Hsame.
    apply Nat.succ_inj in Hsame.
    rewrite <- (Nat.add_0_r (String.length (Js.join "/" (dir :: dirs)))) in Hsame at 1.
    apply Nat.add_cancel_l in Hsame. discriminate.
Qed.

Section Lookup.

Context {World : Type}.
Variable existsSync : string -> World -> bool.
Variable join : string -> string -> string.

Lemma findUp_visits_ancestors (segsRev : list string) : forall fuel filename (w : World),
  Forall (fun s => Path.plain s = true) segsRev ->
  length segsRev < fuel ->
  Files.findUp existsSync join fuel (Path.absolute (rev segsRev)) filename w
  = Some (find (fun path => existsSync path w)
            (map (fun dir => join dir filename) (Files.ancestors segsRev))).
Proof.
  induction segsRev as [|seg outer IH]; intros fuel filename w Hplain Hfuel;
    (destruct fuel as [|fuel]; [inversion Hfuel|]).
  - cbn [rev Files.findUp Files.ancestors map find].
    destruct (existsSync (join (Path.absolute []) filename) w); reflexivity.
  - inversion Hplain as [|? ? Hseg Houter]; subst.
    cbn [Files.findUp Files.ancestors map find].
    destruct (existsSync (join (Path.absolute (rev (seg :: outer))) filename) w);
      [reflexivity|].
    cbn [rev]. rewrite dirname_absolute by (trivial; now apply Forall_rev).
    rewrite absolute_child_differs by exact Hseg.
    apply IH; [exact Houter|]. now apply Nat.succ_lt_mono.
Qed.

Lemma absolute_length (segs : list string) :
  Forall (fun s => Path.plain s = true) segs ->
  length segs <= String.length (Js.join "/" segs).
Proof.
  induction 1 as [|seg rest Hseg Hrest IH]; [constructor|].
  destruct seg as [|c seg]; [discriminate Hseg|].
  destruct rest as [|next rest].
  - cbn. apply le_n_S, Nat.le_0_l.
  - change (Js.join "/" (String c seg :: next :: rest))
      with (String c (seg ++ String "/" (Js.join "/" (next :: rest)))).
    cbn [length String.length]. apply le_n_S.
    rewrite length_append. cbn [String.length].
    eapply Nat.le_trans; [exact IH|].
    rewrite Nat.add_succ_r. apply Nat.le_le_succ_r, Nat.le_add_l.
Qed.

Lemma lookup_has_fuel (segs : list string) :
  Forall (fun s => Path.plain s = true) segs ->
  length (rev segs) < 2 + String.length (Path.absolute segs).
Proof.
  intros Hplain.
  rewrite length_rev. unfold Path.absolute. cbn [String.append String.length Nat.add].
  apply Nat.lt_succ_r, Nat.le_le_succ_r, Nat.le_le_succ_r. now apply absolute_length.
Qed.

(** The lookup visits the start directory and then each of its ancestors
    up to the root, and returns the candidate path in the first of them
    that has the file, the nearest one; it gives up only after the root. *)
Theorem lookup_finds_the_nearest_ancestor (segs : list string) filename (w : World) :
  Forall (fun s => Path.plain s = true) segs ->
  Files.findConfigFile existsSync join (Path.absolute segs) filename w
  = Some (find (fun path => existsSync path w)
            (map (fun dir => join dir filename) (Files.ancestors (rev segs)))).
Proof.
  intros Hplain. unfold Files.findConfigFile.
  pose proof (lookup_has_fuel Hplain) as Hfuel. revert Hfuel.
  generalize (2 + String.length (Path.absolute segs)). intros fuel Hfuel.
  rewrite <- (rev_involutive segs) at 1.
  apply findUp_visits_ancestors; [now apply Forall_rev|exact Hfuel].
Qed.

End Lookup.

Section Precedence.

Context {World : Type} {platform : @Platform World}.
Variable join : string -> string -> string.


End Precedence.

(** ** search *)

Section Searching.

Context {World : Type} {platform : @Platform World}.

Lemma choices_come_from_worktrees (worktrees : list Worktree) :
  Forall (fun choice => exists wt, In wt worktrees /\ Search.ch_path choice = wt_path wt)
    (Search.choicesOf worktrees).
Proof.
  unfold Search.choicesOf. apply Forall_forall. intros choice Hin.
  apply in_map_iff in Hin as ([index wt] & <- & Hin).
  apply in_combine_r in Hin. exists wt. now split.
Qed.

Lemma emits_search_render p choices selectedIndex :
  (forall line, p (EvStderr line) = true) ->
  emits p (@Search.render World choices selectedIndex).
Proof.
  intros Hp. unfold Search.render, consoleError.
  apply emits_bind; [now apply emits_emit|]. intros _.
  apply emits_bind; [now apply emits_emit|]. intros _.
  apply emits_forEach. intros entry. now apply emits_emit.
Qed.

Lemma emits_search_onKeypress p choices selectedIndex keys :
  (forall line, p (EvStderr line) = true) ->
  (forall raw, p (EvRawMode raw) = true) ->
  emits p (@Search.onKeypress World choices selectedIndex keys).
Proof.
  intros Hp Hraw.
  revert selectedIndex; induction keys as [|[key|] rest IH]; intros selectedIndex;
    cbn [Search.onKeypress]; [apply emits_pending| |apply IH].
  unfold cleanup, consoleError.
  repeat match goal with
         | |- emits _ (if ?c then _ else _) => destruct c
         | |- emits _ (bind _ _) => apply emits_bind; [|intros]
         end;
    auto using emits_search_render, emits_emit, emits_ret.
Qed.

Lemma emits_search_select p tty choices :
  (forall line, p (EvStderr line) = true) ->
  (forall raw, p (EvRawMode raw) = true) ->
  emits p (@Search.interactiveSelect World tty choices).
Proof.
  intros Hp Hraw. unfold Search.interactiveSelect, consoleError.
  destruct (negb (isTTY tty)).
  - apply emits_bind; [apply emits_forEach; intros; now apply emits_emit|]. intros _.
    apply emits_bind; [now apply emits_emit|]. intros _. apply emits_ret.
  - apply emits_bind; [now apply emits_emit|]. intros _.
    apply emits_bind; [now apply emits_search_render|]. intros _.
    now apply emits_search_onKeypress.
Qed.

Lemma search_render_done choices selectedIndex (w : World) :
  exists t, Search.render choices selectedIndex w = (Done tt, w, t).
Proof.
  unfold Search.render, consoleError.
  rewrite bind_emit, bind_emit. cbv beta zeta. rewrite forEach_emit.
  rewrite !prefixed_triple. eauto.
Qed.

Lemma search_onKeypress_selects choices keys : forall selectedIndex (w : World),
  match outcomeOf (Search.onKeypress choices selectedIndex keys w) with
  | Done (Some choice) => In choice choices
  | _ => True
  end.
Proof.
  induction keys as [|[key|] rest IH]; intros selectedIndex w;
    cbn [Search.onKeypress]; [exact I| |apply IH].
  assert (Hmove : forall moved,
            match outcomeOf
                    (bind (Search.render choices moved)
                       (fun _ => Search.onKeypress choices moved rest) w) with
            | Done (Some choice) => In choice choices
            | _ => True
            end).
  { intros moved. destruct (search_render_done choices moved w) as (t & E).
    rewrite bind_done with (E := E). rewrite outcomeOf_prefixed. apply IH. }
  destruct (keyIs key "up" || keyCtrl key && keyIs key "p"); [apply Hmove|].
  destruct (keyIs key "down" || keyCtrl key && keyIs key "n"); [apply Hmove|].
  destruct (keyIs key "return").
  { unfold cleanup, consoleError. rewrite bind_assoc, bind_emit, bind_emit.
    rewrite !prefixed_prefixed, prefixed_ret. cbn [outcomeOf fst].
    destruct (nth_error choices selectedIndex) as [choice|] eqn:Hnth; [|exact I].
    eapply nth_error_In; eassumption. }
  destruct (keyIs key "q" || keyIs key "escape" || keyCtrl key && keyIs key "c").
  { unfold cleanup, consoleError. rewrite bind_assoc, bind_emit, bind_emit.
    rewrite !prefixed_prefixed, prefixed_ret. exact I. }
  apply IH.
Qed.

Lemma search_select_selects tty choices (w : World) :
  match outcomeOf (Search.interactiveSelect tty choices w) with
  | Done (Some choice) => In choice choices
  | _ => True
  end.
Proof.
  unfold Search.interactiveSelect, consoleError.
  destruct (negb (isTTY tty)).
  - erewrite bind_done; [|apply forEach_emit].
    rewrite bind_emit, !prefixed_prefixed, prefixed_ret. exact I.
  - rewrite bind_emit, outcomeOf_prefixed.
    destruct (search_render_done choices 0 w) as (t & E).
    rewrite bind_done with (E := E). rewrite outcomeOf_prefixed.
    apply search_onKeypress_selects.
Qed.

(** Search prints at most one line on the success channel, for the shell
    wrapper to change directory to, and that line is the path of one of the
    listed worktrees; everything else it shows goes to the diagnostic
    channel. *)
Theorem search_prints_a_listed_path tty (w : World) :
  let r := Search.searchCommand tty w in
  stdoutLines (traceOf r) = []
  \/ exists wt, In wt (listWorktrees w) /\ stdoutLines (traceOf r) = [wt_path wt].
Proof.
  intros r. subst r. unfold Search.searchCommand, consoleError, consoleLog.
  destruct (assertInsideGitRepo w) as [[]|err] eqn:Hin.
  2:{ left. now rewrite bind_attempt_fail with (E := Hin). }
  rewrite bind_attempt_ok with (E := Hin). cbv beta. rewrite bind_read. cbv beta.
  pose proof (choices_come_from_worktrees (listWorktrees w)) as Hchoices.
  destruct (listWorktrees w) as [|first others] eqn:Hlist; [now left|].
  rewrite <- Hlist in *.
  assert (Hsome : match listWorktrees w with [] => False | _ => True end)
    by now rewrite Hlist.
  clear Hlist first others.
  assert (Hprint : forall choice front,
            In choice (Search.choicesOf (listWorktrees w)) ->
            stdoutLines front = [] ->
            exists wt, In wt (listWorktrees w)
                       /\ stdoutLines (front ++ [EvStdout (Search.ch_path choice)])
                          = [wt_path wt]).
  { intros choice front Hc Hfront.
    destruct (proj1 (Forall_forall _ _) Hchoices choice Hc) as (wt & Hwt & Hpath).
    exists wt. split; [exact Hwt|]. rewrite stdoutLines_app, Hfront, Hpath. reflexivity. }
  destruct (listWorktrees w) as [|first others]; [destruct Hsome|].
  set (choices := Search.choicesOf (first :: others)) in *.
  assert (Hselect : forall front,
            stdoutLines front = [] ->
            let r := prefixed front
                       (bind (Search.interactiveSelect tty choices)
                          (fun selected => match selected with
                                           | Some choice => emit (EvStdout (Search.ch_path choice))
                                           | None => ret tt
                                           end) w) in
            stdoutLines (traceOf r) = []
            \/ exists wt, In wt (first :: others)
                          /\ stdoutLines (traceOf r) = [wt_path wt]).
  { intros front Hfront r. subst r.
    pose proof (search_select_selects tty choices w) as Hchosen.
    assert (Hquiet : stdoutLines (traceOf (Search.interactiveSelect tty choices w)) = []).
    { apply stdoutLines_none with (p := fun e => negb (isStdout e)).
      - intros [] H; cbn in *; trivial; discriminate.
      - apply emits_search_select; reflexivity. }
    destruct (Search.interactiveSelect tty choices w) as [[[[choice|]|err|] w1] t] eqn:E;
      cbn [outcomeOf traceOf fst snd] in Hchosen, Hquiet.
    - right. rewrite bind_done with (E := E). rewrite !prefixed_prefixed, prefixed_emit.
      cbn [traceOf snd]. rewrite <- app_assoc.
      destruct (Hprint choice (front ++ t)%list Hchosen) as (wt & Hwt & Hout).
      { now rewrite stdoutLines_app, Hfront, Hquiet. }
      exists wt. split; [exact Hwt|]. now rewrite app_assoc.
    - left. rewrite bind_done with (E := E). rewrite !prefixed_prefixed, prefixed_ret.
      cbn [traceOf snd]. now rewrite stdoutLines_app, Hfront, Hquiet.
    - left. rewrite bind_raised with (E := E). rewrite prefixed_triple.
      cbn [traceOf snd]. now rewrite stdoutLines_app, Hfront, Hquiet.
    - left. rewrite bind_pending with (E := E). rewrite prefixed_triple.
      cbn [traceOf snd]. now rewrite stdoutLines_app, Hfront, Hquiet. }
  destruct choices as [|only [|second more]] eqn:Hshape.
  - apply Hselect. reflexivity.
  - right. rewrite prefixed_prefixed, prefixed_emit. cbn [traceOf snd].
    apply Hprint; [now left|reflexivity].
  - apply Hselect. reflexivity.
Qed.

End Searching.

(** ** list and status *)

Lemma text_length_app (a b : string) :
  Text.length (a ++ b) = Text.length a + Text.length b.
Proof. induction a as [|c a IH]; cbn [String.append Text.length]; [reflexivity|lia]. Qed.

Lemma text_length_spaces (n : nat) : Text.length (Text.repeat " " n) = n.
Proof.
  induction n as [|n IH]; [reflexivity|].
  cbn [Text.repeat]. rewrite text_length_app, IH. reflexivity.
Qed.

Lemma text_length_rule (n : nat) : Text.length (Text.repeat "─" n) = n.
Proof.
  induction n as [|n IH]; [reflexivity|].
  cbn [Text.repeat]. rewrite text_length_app, IH. reflexivity.
Qed.

Lemma text_length_padEnd (s : string) (n : nat) :
  Text.length (Text.padEnd s n) = Nat.max n (Text.length s).
Proof. unfold Text.padEnd. rewrite text_length_app, text_length_spaces. lia. Qed.

Lemma maxAll_bound (xs : list nat) (x : nat) : In x xs -> x <= Report.maxAll xs.
Proof.
  induction xs as [|y xs IH]; intros Hin; [destruct Hin|].
  cbn [Report.maxAll fold_right]. destruct Hin as [->|Hin]; [lia|].
  specialize (IH Hin). unfold Report.maxAll in IH. lia.
Qed.

Lemma maxOf_bound (rest : list nat) : forall first x,
  x = first \/ In x rest -> x <= Text.maxOf first rest.
Proof.
  unfold Text.maxOf.
  induction rest as [|y rest IH]; intros first x Hin; cbn [fold_left].
  - destruct Hin as [->|[]]. lia.
  - destruct Hin as [E|[E|Hin]]; [subst x|subst x|].
    + transitivity (Nat.max first y); [lia|]. apply IH. now left.
    + transitivity (Nat.max first y); [lia|]. apply IH. now left.
    + apply IH. now right.
Qed.

Lemma maxOf_attained (rest : list nat) : forall first,
  Text.maxOf first rest = first \/ In (Text.maxOf first rest) rest.
Proof.
  unfold Text.maxOf.
  induction rest as [|y rest IH]; intros first; cbn [fold_left]; [now left|].
  destruct (IH (Nat.max first y)) as [E|Hin]; [|right; now right].
  rewrite E. destruct (Nat.max_spec first y) as [[_ ->]|[_ ->]]; [right; now left|now left].
Qed.

Lemma stdoutLines_printed (lines : list string) : stdoutLines (map EvStdout lines) = lines.
Proof. induction lines as [|l ls IH]; [reflexivity|]. cbn. now f_equal. Qed.

Section Reporting.

Context {World : Type} {platform : @Platform World} {inspection : @Report.Inspection World}.

Lemma bind_query {A B} (f : World -> A) (k : A -> M B) (w : World) :
  bind (Report.query f) k w = k (f w) w.
Proof. unfold bind, Report.query. now destruct (k (f w) w) as [[o w2] t2]. Qed.

Lemma bind_queryOrThrow_ok A B (f : World -> Attempt A) (k : A -> M B) (w : World) a
  (E : f w = Ok a) : bind (Report.queryOrThrow f) k w = k a w.
Proof.
  unfold bind, Report.queryOrThrow. rewrite E. now destruct (k a w) as [[o w2] t2].
Qed.

Lemma worktree_list_is_silent (w : World) :
  stdoutLines (traceOf (Report.getWorktreeList w)) = [].
Proof.
  unfold Report.getWorktreeList, Report.queryOrThrow, Report.query.
  destruct (assertInsideGitRepo w) as [[]|err] eqn:Hin.
  2:{ now rewrite bind_attempt_fail with (E := Hin). }
  rewrite bind_attempt_ok with (E := Hin). cbv beta.
  rewrite bind_read. cbv beta. rewrite bind_read. cbv beta.
  unfold bind at 1. destruct (Report.getCurrentWorktreePath w); reflexivity.
Qed.

(** The rows of list line up: every row that is printed consists of the
    marker, the branch and the path, padded to the same total width in
    every row, followed by the status text; so the paths start in one
    column and the status texts in another. *)
Theorem list_columns_line_up (w : World) infos w1 t :
  Report.getWorktreeList w = (Done infos, w1, t) ->
  infos <> [] ->
  let branchWidth :=
    Report.maxAll (map (fun wt => Text.length (Report.label (Report.i_branch wt))) infos) in
  let pathWidth := Report.maxAll (map (fun wt => Text.length (Report.i_path wt)) infos) in
  stdoutLines (traceOf (Report.listCommand w))
  = map (Report.listRow branchWidth pathWidth) infos
  /\ Forall (fun info =>
               exists cells,
                 Report.listRow branchWidth pathWidth info
                 = (cells ++ Report.formatStatus info)%string
                 /\ Text.length cells = branchWidth + pathWidth + 6) infos.
Proof.
  intros Hlist Hsome branchWidth pathWidth. split.
  - pose proof (worktree_list_is_silent w) as Hquiet. rewrite Hlist in Hquiet.
    cbn [traceOf snd] in Hquiet.
    unfold Report.listCommand, consoleLog. rewrite bind_done with (E := Hlist). cbv beta.
    destruct infos as [|info rest]; [congruence|].
    rewrite forEach_emit, prefixed_triple.
    cbn [traceOf snd]. rewrite stdoutLines_app, Hquiet. cbn [app].
    rewrite <- (stdoutLines_printed
                  (map (Report.listRow branchWidth pathWidth) (info :: rest))).
    rewrite map_map. reflexivity.
  - apply Forall_forall. intros info Hin.
    exists ((if Report.i_isCurrent info then "*" else " ") ++ " "
            ++ Text.padEnd (Report.label (Report.i_branch info)) branchWidth ++ "  "
            ++ Text.padEnd (Report.i_path info) pathWidth ++ "  ")%string.
    split.
    + unfold Report.listRow. now rewrite !append_assoc.
    + assert (Hb : Text.length (Report.label (Report.i_branch info)) <= branchWidth).
      { apply maxAll_bound.
        exact (in_map (fun wt => Text.length (Report.label (Report.i_branch wt))) _ _ Hin). }
      assert (Hp : Text.length (Report.i_path info) <= pathWidth).
      { apply maxAll_bound.
        exact (in_map (fun wt => Text.length (Report.i_path wt)) _ _ Hin). }
      rewrite !text_length_app, !text_length_padEnd.
      change (Text.length " ") with 1. change (Text.length "  ") with 2.
      destruct (Report.i_isCurrent info);
        [change (Text.length "*") with 1|change (Text.length " ") with 1]; lia.
Qed.

(** The table that status prints: three lines of summary, a frame and a
    header of one width, and one row for each worktree.  A row is as wide
    as the frame only when the branch name is shorter than the branch
    column; the marker that is put in front of the name takes one column
    more when it is not.  So whenever a branch name has six characters or
    more, the row of the longest name is one column wider than the frame
    and the header. *)
Theorem status_rows_outgrow_the_frame (w : World) currentPath :
  assertInsideGitRepo w = Ok tt ->
  Report.getCurrentWorktreePath w = Ok currentPath ->
  listWorktrees w <> [] ->
  let statuses :=
    map (Report.statusOf (getDefaultBranch w) currentPath w) (listWorktrees w) in
  let branchCol := Text.maxOf 6 (map (fun s => Text.length (Report.st_branch s)) statuses) in
  let pathCol := Text.maxOf 4 (map (fun s => Text.length (Report.st_path s)) statuses) in
  let statusCol := Text.maxOf 6 (map (fun s => Text.length (Report.st_status s)) statuses) in
  let width := Report.tableWidth branchCol pathCol statusCol in
  let row := Report.statusRow branchCol pathCol statusCol in
  exists summary,
    stdoutLines (traceOf (Report.statusCommand w))
    = (summary
       ++ [Report.hr branchCol pathCol statusCol "┌" "┬" "┐";
           Report.headerRow branchCol pathCol statusCol;
           Report.hr branchCol pathCol statusCol "├" "┼" "┤"]
       ++ map row statuses
       ++ [Report.hr branchCol pathCol statusCol "└" "┴" "┘"])%list
    /\ length summary = 3
    /\ Text.length (Report.hr branchCol pathCol statusCol "┌" "┬" "┐") = width
    /\ Text.length (Report.headerRow branchCol pathCol statusCol) = width
    /\ Text.length (Report.hr branchCol pathCol statusCol "├" "┼" "┤") = width
    /\ Text.length (Report.hr branchCol pathCol statusCol "└" "┴" "┘") = width
    /\ Forall (fun s => Text.length (row s)
                        = width + (S (Text.length (Report.st_branch s)) - branchCol))
         statuses
    /\ (Exists (fun s => 6 <= Text.length (Report.st_branch s)) statuses ->
        Exists (fun s => Text.length (row s) = S width) statuses).
Proof.
  intros Hin Hcurrent Hsome statuses branchCol pathCol statusCol width row.
  assert (Hrule : forall left mid right,
            Text.length left = 1 -> Text.length mid = 1 -> Text.length right = 1 ->
            Text.length (Report.hr branchCol pathCol statusCol left mid right) = width).
  { intros left mid right Hl Hm Hr. unfold Report.hr, width, Report.tableWidth.
    rewrite !text_length_app, !text_length_rule, Hl, Hm, Hr. lia. }
  assert (Hrow : forall s, In s statuses ->
            Text.length (row s)
            = width + (S (Text.length (Report.st_branch s)) - branchCol)).
  { intros s Hs. unfold row, Report.statusRow, width, Report.tableWidth.
    assert (Hb : Text.length (Report.st_branch s) <= branchCol).
    { apply maxOf_bound. right.
      exact (in_map (fun s => Text.length (Report.st_branch s)) _ _ Hs). }
    assert (Hp : Text.length (Report.st_path s) <= pathCol).
    { apply maxOf_bound. right.
      exact (in_map (fun s => Text.length (Report.st_path s)) _ _ Hs). }
    assert (Hs' : Text.length (Report.st_status s) <= statusCol).
    { apply maxOf_bound. right.
      exact (in_map (fun s => Text.length (Report.st_status s)) _ _ Hs). }
    rewrite !text_length_app, !text_length_padEnd, text_length_app.
    change (Text.length "│ ") with 2. change (Text.length " │ ") with 3.
    change (Text.length " │") with 2.
    destruct (Report.st_isCurrent s); change (Text.length "*") with 1;
      change (Text.length " ") with 1; lia. }
  exists ["Repository: " ++ getRepoName w;
          "Default branch: " ++ getDefaultBranch w ++ " ("
            ++ showNat (length (listWorktrees w)) ++ " worktree"
            ++ (if (length (listWorktrees w) =? 1)%nat then "" else "s") ++ ")";
          ""]%string.
  split; [|split; [reflexivity|]].
  - assert (Hmatch : forall (none more : @M World unit),
              match listWorktrees w with [] => none | _ :: _ => more end = more).
    { intros none more. destruct (listWorktrees w) eqn:E; [congruence|reflexivity]. }
    unfold Report.statusCommand, consoleLog.
    rewrite bind_attempt_ok with (E := Hin). cbv beta.
    rewrite bind_read. cbv beta. rewrite bind_read. cbv beta. rewrite bind_read. cbv beta.
    rewrite bind_queryOrThrow_ok with (E := Hcurrent).
    rewrite bind_emit, bind_emit, bind_emit, Hmatch, bind_query. cbv beta zeta.
    rewrite bind_emit, bind_emit, bind_emit.
    erewrite bind_done; [|apply forEach_emit].
    rewrite !prefixed_prefixed, prefixed_emit. cbn [traceOf snd].
    rewrite <- (stdoutLines_printed (map row statuses)), (map_map row EvStdout statuses).
    rewrite !stdoutLines_app. reflexivity.
  - repeat split.
    + now apply Hrule.
    + unfold Report.headerRow, width, Report.tableWidth.
      rewrite !text_length_app, !text_length_padEnd.
      change (Text.length "│ ") with 2. change (Text.length " │ ") with 3.
      change (Text.length " │") with 2.
      change (Text.length "Branch") with 6. change (Text.length "Path") with 4.
      change (Text.length "Status") with 6.
      assert (6 <= branchCol) by (apply maxOf_bound; now left).
      assert (4 <= pathCol) by (apply maxOf_bound; now left).
      assert (6 <= statusCol) by (apply maxOf_bound; now left).
      lia.
    + now apply Hrule.
    + now apply Hrule.
    + apply Forall_forall. exact Hrow.
    + intros Hlong. apply Exists_exists in Hlong as (long & Hlong & Hsix).
      assert (Hfull : exists s, In s statuses /\ Text.length (Report.st_branch s) = branchCol).
      { destruct (maxOf_attained (map (fun s => Text.length (Report.st_branch s)) statuses) 6)
          as [E|Hmax].
        - exists long. split; [exact Hlong|].
          assert (Text.length (Report.st_branch long) <= branchCol).
          { apply maxOf_bound. right.
            exact (in_map (fun s => Text.length (Report.st_branch s)) _ _ Hlong). }
          unfold branchCol in *. lia.
        - apply in_map_iff in Hmax as (s & Hs & Hin'). exists s. now split. }
      destruct Hfull as (s & Hs & Hfull).
      apply Exists_exists. exists s. split; [exact Hs|].
      rewrite (Hrow s Hs), Hfull. lia.
Qed.

End Reporting.

End Collaborators.

(* ------------------------------------------------------------------ *)
(** * The properties at work on the simulated repository *)

Module Runs.

Import Sim.

(** ** Strings and paths *)

Example dirname_nested : Path.dirname "/home/u/proj" = "/home/u".
Proof. reflexivity. Qed.
Example dirname_trailing : Path.dirname "/home/u/proj/" = "/home/u".
Proof. reflexivity. Qed.
Example dirname_top : Path.dirname "/proj" = "/".
Proof. reflexivity. Qed.
Example dirname_relative : Path.dirname "proj" = ".".
Proof. reflexivity. Qed.
Example resolve_parent : Path.resolve "/home/u/proj" "../x" = "/home/u/x".
Proof. reflexivity. Qed.
Example resolve_absolute : Path.resolve "/home/u/proj" "/tmp//y/./z/.." = "/tmp/y".
Proof. reflexivity. Qed.
Example resolve_above_root : Path.resolve "/a" "../../b" = "/b".
Proof. reflexivity. Qed.
Example showZ_one : Js.showZ 1 = "1".
Proof. reflexivity. Qed.
Example showZ_big : Js.showZ 127 = "127".
Proof. reflexivity. Qed.
Example showZ_zero : Js.showZ 0 = "0".
Proof. reflexivity. Qed.
Example showZ_negative : Js.showZ (-1) = "-1".
Proof. reflexivity. Qed.
Example lines_two : Js.lines (String "a" (String "010" (String "b" ""))) = ["a"; "b"].
Proof. reflexivity. Qed.
Example replace_dollar : Js.replaceAll "{repo}" "a$&b$$" "x{repo}y{repo}" = "xa{repo}b$ya{repo}b$".
Proof. reflexivity. Qed.

(** ** The runner *)

(** runner.test.ts, "stops array execution on command failure but
    continues to next hook". *)
Example test_stops_array_on_command_failure :
  journal (worldOf (@runHooks Repo bare afterCreate stopping ctx feature)) = ["plugin"; "before"].
Proof. reflexivity. Qed.

(** runner.test.ts, "continues running hooks even if one fails". *)
Example test_continues_after_failing_plugin :
  let r := @runHooks Repo bare afterCreate failingFirst ctx feature in
  outcomeOf r = Done tt /\ journal (worldOf r) = ["failing"; "success"].
Proof. split; reflexivity. Qed.

(** An inline hook that is the empty command string does not pass the
    runner's [if (hook)] test and is skipped like a missing one. *)
Example empty_command_counts_as_absent :
  @runHooks Repo bare afterCreate
    {| cfg_settings := defaultSettings; cfg_plugins := [];
       cfg_hooks := only afterCreate (Single (ItemCommand "")) |} ctx feature
  = (Done tt, feature, []).
Proof. reflexivity. Qed.

Lemma failing_command_stops_inline_list_witness :
  let r := @runHooks Repo bare afterCreate stopping ctx feature in
  outcomeOf r = Done tt
  /\ callsOf (traceOf r) = ["plugin"; "before"]
  /\ warningsOf (traceOf r)
     = ["Inline afterCreate hook failed: " ++ commandFailure "exit 1" 1].
Proof.
  destruct (@failing_command_stops_inline_list Repo bare afterCreate stopping ctx feature
              (mark "before") (mark "after") (note "before" (note "plugin" feature))
              eq_refl eq_refl)
    as (E & Hcalls & Hwarn).
  - vm_compute. discriminate.
  - intros r. subst r. rewrite E. repeat split.
Defined.

Lemma throwing_function_halts_list_witness :
  @executeHookValue Repo bare
    (Sequence [ItemFunction (mark "first"); ItemFunction (boom "second" "no");
               ItemFunction (mark "third")])
    ctx "Inline afterCreate hook" feature
  = (Done tt, note "second" (note "first" feature),
     [EvCall "first" ctx; EvCall "second" ctx;
      EvLog LWarn "Inline afterCreate hook failed: no"]).
Proof.
  exact (@throwing_function_halts_list Repo bare
           [ItemFunction (mark "first")] (boom "second" "no") [ItemFunction (mark "third")]
           ctx "Inline afterCreate hook" feature (note "first" feature)
           [EvCall "first" ctx] "no" (note "second" (note "first" feature))
           eq_refl eq_refl).
Defined.

(** counterexample to claim C4 as stated: in [boom, mark] the second
    function is never called once the first has thrown. *)
Lemma function_failure_halts_the_rest : ~ laterElementsSurviveThrow.
Proof.
  intros claim.
  specialize (claim Repo bare
                [ItemFunction (boom "first" "no"); ItemFunction (mark "second")]
                0%nat 1%nat (boom "first" "no") (mark "second")
                ctx "Inline afterCreate hook" feature feature (note "first" feature) []
                "no" eq_refl eq_refl eq_refl (Nat.lt_0_succ 0) eq_refl).
  vm_compute in claim. destruct claim as [H|[]]. discriminate H.
Qed.

(** ** merge *)

Lemma feature_ready : @MergeReady Repo traced feature "feature-x" mainTree tracedConfig
                        (found "/home/u/proj-feature-x").
Proof. repeat split. Defined.

Lemma conflicting_ready :
  @MergeReady Repo traced (conflicting feature) "feature-x" mainTree tracedConfig
    (found "/home/u/proj-feature-x").
Proof. repeat split. Defined.

Lemma merge_on_default_branch_witness :
  @mergeCommand Repo traced plainMerge primary
  = (Raised (WtError "Already on main, nothing to merge" 1), primary, mergeReads).
Proof.
  exact (proj1 (@merge_on_default_branch_fails_at_once Repo traced plainMerge primary "main"
                  eq_refl eq_refl eq_refl)).
Defined.

Lemma rejected_merge_witness :
  let r := @mergeCommand Repo traced plainMerge (conflicting feature) in
  outcomeOf r = Raised (MergeConflictError "main" "/home/u/proj")
  /\ stdoutLines (traceOf r) = ["/home/u/proj-feature-x"]
  /\ journal (worldOf r) = ["beforeMerge"].
Proof.
  destruct (@rejected_merge_leaves_operator_in_place Repo traced plainMerge
              (conflicting feature) "feature-x" mainTree tracedConfig
              (found "/home/u/proj-feature-x") conflicting_ready)
    as (E & Hout & _ & _).
  - vm_compute. discriminate.
  - intros r. subst r. rewrite E. repeat split.
Defined.

Lemma kept_merge_witness :
  let r := @mergeCommand Repo traced keepingMerge feature in
  outcomeOf r = Done tt
  /\ stdoutLines (traceOf r) = ["/home/u/proj"]
  /\ journal (worldOf r) = ["beforeMerge"; "afterMerge"]
  /\ trees (worldOf r) = [mainTree; featureTree]
  /\ heads (worldOf r) = ["main"; "feature-x"].
Proof.
  destruct (@kept_merge_runs_only_merge_hooks Repo traced keepingMerge feature
              "feature-x" mainTree tracedConfig (found "/home/u/proj-feature-x")
              feature_ready eq_refl eq_refl)
    as (E & Hout & _).
  intros r. subst r. rewrite E. repeat split.
Defined.

Lemma merge_cleans_up_witness :
  let r := @mergeCommand Repo traced plainMerge feature in
  outcomeOf r = Done tt
  /\ stdoutLines (traceOf r) = ["/home/u/proj"]
  /\ journal (worldOf r) = ["beforeMerge"; "beforeRemove"; "afterRemove"; "afterMerge"]
  /\ trees (worldOf r) = [mainTree]
  /\ heads (worldOf r) = ["main"].
Proof.
  destruct (@merge_cleans_up_in_order Repo traced plainMerge feature
              "feature-x" mainTree tracedConfig (found "/home/u/proj-feature-x")
              feature_ready eq_refl eq_refl)
    as (E & Hout).
  intros r. subst r. rewrite E. repeat split.
Defined.

(** When the worktree cannot be removed and the branch cannot be deleted,
    the merge still runs all four events and returns; both failures end up
    in the log as warnings. *)
Example merge_survives_failed_teardown :
  let stuckRepo :=
    {| cwd := cwd feature; root := root feature; inside := true; head := head feature;
       trunk := trunk feature; trees := trees feature; heads := heads feature;
       conflict := false; stuck := true; unmerged := true; journal := [] |} in
  let r := @mergeCommand Repo traced plainMerge stuckRepo in
  outcomeOf r = Done tt
  /\ journal (worldOf r) = ["beforeMerge"; "beforeRemove"; "afterRemove"; "afterMerge"]
  /\ length (warningsOf (traceOf r)) = 2%nat
  /\ stdoutLines (traceOf r) = ["/home/u/proj"].
Proof. repeat split. Qed.

(** ** remove *)

Lemma remove_refuses_default_branch_witness :
  @removeCommand Repo traced (byName "main" true) noTTY feature
  = (Raised (OnDefaultBranchError "remove"), feature,
     (removeReads ++ [EvGit (FindWorktreeByBranch "main")])%list)
  /\ @removeCommand Repo traced (byName "main" false) noTTY feature
     = (Raised (OnDefaultBranchError "remove"), feature,
        (removeReads ++ [EvGit (FindWorktreeByBranch "main")])%list).
Proof.
  split.
  - exact (proj1 (@remove_refuses_default_branch Repo traced (byName "main" true) noTTY
                    feature mainTree feature [EvGit (FindWorktreeByBranch "main")]
                    eq_refl eq_refl eq_refl)).
  - exact (proj1 (@remove_refuses_default_branch Repo traced (byName "main" false) noTTY
                    feature mainTree feature [EvGit (FindWorktreeByBranch "main")]
                    eq_refl eq_refl eq_refl)).
Defined.

Lemma remove_without_terminal_witness :
  @removeCommand Repo traced (mkRemoveOptions (Some "feature-x") None) noTTY feature
  = (Done tt, feature,
     (removeReads ++ [EvGit (FindWorktreeByBranch "feature-x")]
        ++ [cannotConfirm; EvLog LInfo "Cancelled"])%list).
Proof.
  destruct (@remove_without_terminal_declines Repo traced
              (mkRemoveOptions (Some "feature-x") None) noTTY feature eq_refl eq_refl)
    as (_ & _ & _ & _ & H).
  exact (H featureTree [EvGit (FindWorktreeByBranch "feature-x")] eq_refl eq_refl eq_refl).
Defined.

(** remove.test.ts, "removes worktree with --force flag" and "deletes
    branch after removing worktree". *)
Example test_forced_remove :
  let r := @removeCommand Repo traced (byName "feature-x" true) noTTY feature in
  outcomeOf r = Done tt
  /\ trees (worldOf r) = [mainTree]
  /\ heads (worldOf r) = ["main"]
  /\ journal (worldOf r) = ["beforeRemove"; "afterRemove"].
Proof. repeat split. Qed.

(** Without a name the operator picks from the worktrees that are not on
    the default branch: "down", "return" selects the second one, and "Y"
    confirms. *)
Example interactive_remove_second :
  let r := @removeCommand Repo traced (mkRemoveOptions None None)
             (operator ["down"; "return"] "Y") twoFeatures in
  outcomeOf r = Done tt
  /\ trees (worldOf r) = [mainTree; featureTree]
  /\ heads (worldOf r) = ["main"; "feature-x"]
  /\ journal (worldOf r) = ["beforeRemove"; "afterRemove"].
Proof. repeat split. Qed.

(** When the operator never chooses, the command is left waiting and has
    removed nothing. *)
Example interactive_remove_unanswered :
  let r := @removeCommand Repo traced (mkRemoveOptions None None)
             (operator ["down"; "up"] "y") twoFeatures in
  outcomeOf r = Pending /\ worldOf r = twoFeatures.
Proof. repeat split. Qed.

(** Answering anything but y or Y cancels. *)
Example confirmation_declined :
  let r := @removeCommand Repo traced (mkRemoveOptions (Some "feature-x") None)
             (operator [] "yes") feature in
  outcomeOf r = Done tt /\ worldOf r = feature
  /\ last (traceOf r) (EvStdout "") = EvLog LInfo "Cancelled".
Proof. repeat split. Qed.

(** remove.test.ts, "throws error for non-existent worktree". *)
Example test_remove_unknown :
  outcomeOf (@removeCommand Repo traced (byName "nonexistent" true) noTTY feature)
  = Raised (WorktreeNotFoundError "nonexistent").
Proof. reflexivity. Qed.

(** ** create *)

Lemma create_path_witness :
  let r := @createCommand Repo bare "feature-x" primary in
  outcomeOf r = Done tt
  /\ stdoutLines (traceOf r) = ["/home/u/proj-feature-x"]
  /\ trees (worldOf r) = [mainTree; featureTree].
Proof.
  destruct (@create_path_follows_working_directory Repo bare primary defaultConfig
              (missing "/home/u/proj") eq_refl eq_refl eq_refl eq_refl eq_refl eq_refl)
    as (_ & E & _ & _).
  intros r. subst r. rewrite E. repeat split.
Defined.

(** counterexample to claim C9 as stated: started in the subdirectory
    /home/u/proj/src of the repository /home/u/proj, create puts the
    worktree at /home/u/proj/proj-feature-x, inside the repository; that is
    neither /home/u/proj-feature-x nor /home/proj-feature-x. *)
Lemma created_path_depends_on_working_directory : ~ createdBesideRepository.
Proof.
  intros claim.
  specialize (claim Repo bare (at_ "/home/u/proj/src" primary) defaultConfig
                (missing "/home/u/proj/src") eq_refl eq_refl eq_refl eq_refl).
  vm_compute in claim. destruct claim as [H|H]; discriminate H.
Qed.

Example create_from_subdirectory :
  stdoutLines (traceOf (@createCommand Repo bare "feature-x" (at_ "/home/u/proj/src" primary)))
  = ["/home/u/proj/proj-feature-x"].
Proof. reflexivity. Qed.

End Runs.

(* ------------------------------------------------------------------ *)
(** * Further runs on the simulated repository *)

Module Checks.

Import Sim Fixtures.

(** ** The hook runner *)

Lemma runHooks_without_hooks_witness :
  @runHooks Repo bare beforeMerge failingFirst ctx feature = (Done tt, feature, []).
Proof.
  apply (@runHooks_without_hooks_is_noop Repo bare beforeMerge failingFirst ctx feature).
  - repeat constructor.
  - reflexivity.
Defined.

Lemma list_functions_witness :
  let r := @executeHookValue Repo bare (Sequence twoMarks) ctx "Inline afterCreate hook"
             feature in
  callsOf (traceOf r) = ["first"; "second"] /\ warningsOf (traceOf r) = [].
Proof.
  destruct (@list_functions_called_in_order Repo bare twoMarks ctx
              "Inline afterCreate hook" feature) as (skipped & Hnames & Hdone).
  destruct (Hdone eq_refl) as [Hnone Hwarn].
  intros r. split; [|exact Hwarn].
  subst skipped. rewrite app_nil_r in Hnames. symmetry. exact Hnames.
Defined.

(** ** The configuration loader *)

Lemma first_config_file_witness :
  @loadConfig Repo javascript "/home/u/proj-feature-x" feature
  = (Done tracedConfig, feature,
     [EvFs (FindConfigFile "/home/u/proj-feature-x" "wt.config.ts");
      EvFs (FindConfigFile "/home/u/proj-feature-x" "wt.config.js");
      EvFs (ImportModule "/home/u/proj/wt.config.js")]).
Proof.
  rewrite (@first_config_file_wins Repo javascript ["wt.config.ts"] "wt.config.js"
             ["wt.config.mjs"] "/home/u/proj-feature-x" feature
             "/home/u/proj/wt.config.js" eq_refl).
  - reflexivity.
  - repeat constructor.
  - reflexivity.
  - reflexivity.
Defined.

Lemma no_config_file_witness :
  @loadConfig Repo bare "/home/u/proj" primary
  = (Done defaultConfig, primary, missing "/home/u/proj").
Proof.
  apply (@no_config_file_gives_defaults Repo bare "/home/u/proj" primary).
  repeat constructor.
Defined.


(** ** create *)

Lemma traced_ready dir (r : Repo) :
  inside r = true -> root r = "/home/u/proj" ->
  @CreateReady Repo traced (at_ dir r) tracedConfig (found dir).
Proof. intros Hin Hroot. split; cbn; [now rewrite Hin|now rewrite Hroot]. Defined.

Lemma create_refuses_existing_path_witness :
  let r := @createCommand Repo traced "feature-x" (at_ "/home/u/proj" feature) in
  outcomeOf r = Raised (WorktreeExistsError "/home/u/proj-feature-x")
  /\ worldOf r = at_ "/home/u/proj" feature
  /\ stdoutLines (traceOf r) = [].
Proof.
  destruct (@create_refuses_existing_path Repo traced "feature-x"
              (at_ "/home/u/proj" feature) tracedConfig (found "/home/u/proj")
              (traced_ready "/home/u/proj" feature eq_refl eq_refl) eq_refl)
    as (E & Hout & _ & _).
  intros r. subst r. rewrite E. repeat split.
Defined.

Lemma create_stops_witness :
  let r := @createCommand Repo (refusing traced) "feature-x" primary in
  outcomeOf r
  = Raised (WtError "Failed to create worktree: fatal: invalid reference: feature-x" 1)
  /\ journal (worldOf r) = ["beforeCreate"]
  /\ trees (worldOf r) = [mainTree]
  /\ stdoutLines (traceOf r) = [].
Proof.
  destruct (@create_stops_when_worktree_cannot_be_added Repo (refusing traced) "feature-x"
              primary tracedConfig (found "/home/u/proj"))
    as (E & Hout).
  - split; reflexivity.
  - reflexivity.
  - vm_compute. discriminate.
  - intros r. subst r. rewrite E. repeat split.
Defined.


(** ** Path templates *)

Lemma template_witness :
  @resolveWorktreePath "../{repo}-{branch}" "proj" "feature-x" "/home/u"
  = "../proj-feature-x".
Proof.
  apply (@template_is_filled_in_place [Lit "../"; RepoSlot; Lit "-"; BranchSlot]
           "proj" "feature-x" "/home/u").
  - repeat constructor.
  - reflexivity.
  - reflexivity.
  - reflexivity.
  - reflexivity.
  - reflexivity.
Defined.

Lemma parent_template_witness :
  @createTarget Repo (platform (Some beside)) (at_ "/home/u/proj/src/deep" primary)
    (resolveConfig beside) "feature-x"
  = "/home/u/proj-feature-x".
Proof.
  apply (@parent_template_places_worktree_beside_repository Repo (platform (Some beside))
           (at_ "/home/u/proj/src/deep" primary) (resolveConfig beside) "feature-x"
           ["home"; "u"] "proj").
  - reflexivity.
  - reflexivity.
  - repeat constructor.
  - reflexivity.
  - reflexivity.
  - reflexivity.
Defined.

(** ** remove *)

Lemma forced_ready (r : Repo) :
  inside r = true -> root r = "/home/u/proj" -> trunk r = "main" ->
  trees r = [mainTree; featureTree] ->
  @RemoveReady Repo traced (byName "feature-x" true) noTTY r featureTree
    [EvGit (FindWorktreeByBranch "feature-x")] tracedConfig (found (cwd r)).
Proof.
  intros Hin Hroot Htrunk Htrees. repeat split.
  - cbn. now rewrite Hin.
  - cbn. unfold resolveTarget. cbn. now rewrite Htrees.
  - cbn. now rewrite Htrunk.
  - now left.
  - cbn. now rewrite Hroot.
Defined.

Lemma failed_removal_witness :
  let r := @removeCommand Repo traced (byName "feature-x" true) noTTY (stuckTree feature) in
  outcomeOf r
  = Raised (WtError "Failed to remove worktree: fatal: worktree contains modified files" 1)
  /\ journal (worldOf r) = ["beforeRemove"]
  /\ heads (worldOf r) = ["main"; "feature-x"].
Proof.
  destruct (@failed_removal_is_fatal Repo traced (byName "feature-x" true) noTTY
              (stuckTree feature) featureTree [EvGit (FindWorktreeByBranch "feature-x")]
              tracedConfig (found "/home/u/proj-feature-x")
              (forced_ready (stuckTree feature) eq_refl eq_refl eq_refl eq_refl))
    as (E & _).
  - vm_compute. discriminate.
  - intros r. subst r. rewrite E. repeat split.
Defined.

Lemma remove_goes_through_witness :
  let r := @removeCommand Repo traced (byName "feature-x" true) noTTY feature in
  outcomeOf r = Done tt
  /\ journal (worldOf r) = ["beforeRemove"; "afterRemove"]
  /\ trees (worldOf r) = [mainTree]
  /\ heads (worldOf r) = ["main"].
Proof.
  intros r. subst r.
  rewrite (@remove_goes_through Repo traced (byName "feature-x" true) noTTY feature
             featureTree [EvGit (FindWorktreeByBranch "feature-x")]
             tracedConfig (found "/home/u/proj-feature-x")
             (forced_ready feature eq_refl eq_refl eq_refl eq_refl) eq_refl).
  repeat split.
Defined.

Lemma remove_intervenes_witness :
  exists worktree,
    decided (byName "feature-x" false) (operator [] "Y")
    /\ wt_branch worktree = Some "feature-x"
    /\ wt_path worktree = "/home/u/proj-feature-x".
Proof.
  destruct (@remove_intervenes_only_when_decided Repo traced (byName "feature-x" false)
              (operator [] "Y") feature (EvGit (RemoveWorktree "/home/u/proj-feature-x")))
    as (worktree & choosing & Hres & _ & Hdec & Haim).
  - vm_compute. tauto.
  - reflexivity.
  - exists worktree. injection Hres as <- _. repeat split. exact Hdec.
Defined.

Lemma interactive_choice_witness :
  outcomeOf (@resolveTarget Repo traced interactive (operator ["down"; "return"] "Y")
               "main" twoFeatures)
  = Done (Some featureY)
  /\ In featureY (trees twoFeatures)
  /\ wt_branch featureY <> Some "main".
Proof.
  pose proof (@interactive_choice_is_an_offered_worktree Repo traced interactive
                (operator ["down"; "return"] "Y") twoFeatures eq_refl) as H.
  change (outcomeOf (@resolveTarget Repo traced interactive
                       (operator ["down"; "return"] "Y")
                       (@getDefaultBranch Repo traced twoFeatures) twoFeatures))
    with (Done (Some featureY) : Outcome (option Worktree)) in H.
  destruct H as [Hin Hnot].
  split; [reflexivity|]. split; [exact Hin|]. discriminate.
Defined.

(** ** merge *)

Lemma merge_tears_down_witness :
  exists currentBranch mainWorktree config loading,
    @MergeReady Repo traced feature currentBranch mainWorktree config loading
    /\ currentBranch = "feature-x".
Proof.
  destruct (@merge_tears_down_only_after_merging Repo traced plainMerge feature
              (EvGit (DeleteBranch "feature-x")))
    as (_ & currentBranch & mainWorktree & config & loading & Hready & _ & Hwhich).
  - vm_compute. tauto.
  - reflexivity.
  - exists currentBranch, mainWorktree, config, loading. split; [exact Hready|].
    destruct Hwhich as [Hwhich|Hwhich]; [discriminate Hwhich|].
    now injection Hwhich as <-.
Defined.

(** ** The version-control client and the configuration lookup *)

Lemma listing_witness :
  fst (Git.listWorktrees (listing twoEntries) tt)
  = [mkWorktree "/home/u/proj" (Some "main") false;
     mkWorktree "/home/u/proj-fix" None true].
Proof.
  apply (@listing_is_read_back unit (listing twoEntries) tt twoEntries).
  - repeat constructor.
  - reflexivity.
  - reflexivity.
Defined.

Lemma lookup_witness :
  Files.findConfigFile present joinPlain "/home/u/proj/src" "wt.config.ts"
    ["/home/u/wt.config.ts"; "/wt.config.ts"]
  = Some (Some "/home/u/wt.config.ts").
Proof.
  apply (@lookup_finds_the_nearest_ancestor (list string) present joinPlain
           ["home"; "u"; "proj"; "src"] "wt.config.ts"
           ["/home/u/wt.config.ts"; "/wt.config.ts"]).
  repeat constructor.
Defined.



(** ** The reports *)

Lemma list_columns_witness :
  stdoutLines (traceOf (@Report.listCommand Repo bare inspecting feature))
  = ["  main       /home/u/proj            (default)";
     "* feature-x  /home/u/proj-feature-x  3 ahead 2 uncommitted"].
Proof.
  destruct (@list_columns_line_up Repo bare inspecting feature
              (map (@Report.infoOf Repo inspecting "main" "/home/u/proj-feature-x" feature)
                 (trees feature))
              feature
              [EvGit AssertInsideGitRepo; EvGit ListWorktrees; EvGit GetDefaultBranch]
              eq_refl) as [E _].
  - discriminate.
  - exact E.
Defined.

Lemma status_rows_witness :
  Exists (fun s => Text.length (Report.statusRow 9 22 19 s) = 61)
    (map (@Report.statusOf Repo inspecting "main" "/home/u/proj-feature-x" feature)
       (trees feature)).
Proof.
  destruct (@status_rows_outgrow_the_frame Repo bare inspecting feature
              "/home/u/proj-feature-x" eq_refl eq_refl)
    as (summary & _ & _ & _ & _ & _ & _ & _ & Hlong).
  - discriminate.
  - apply Hlong. apply Exists_cons_tl, Exists_cons_hd. repeat constructor.
Defined.

End Checks.
